(** * playwright-lighthouse-flow: the comparison CLI and the threshold helper

    A shallow embedding of [src/bin/compare-flow-results.ts] (the
    [lighthouse-compare] command: delta engine, step pages, index page,
    driver) and of [assertLighthouseFlowResultThresholds] and the page
    selection of [connectToLighthouseFlow] from [src/lighthouse-helper.ts].

    Modelling conventions.
    - A JavaScript [number] is an IEEE-754 binary64 value: a [spec_float] in
      canonical form, with the operations of [SpecFloat] at precision 53 and
      [emax] 1024.
    - A JavaScript string is the [string] of the bytes of its UTF-8 encoding.
      [trim] strips the white space and the line terminators of ECMA-262,
      the ones outside ASCII included.  [toLowerCase] folds the ASCII
      letters only; the program uses it for one thing, the comparison with
      ['hidden'], which that decides (see [toLowerCase]).
    - A JavaScript object used as a map is the association list of its own
      properties in the order in which they were created ([obj]).  [lookup]
      is the own property; [get] is the read [o[k]], which goes on to
      [Object.prototype] when there is no own property; [Object_keys],
      [Object_values] and [Object_entries] list the own properties in the
      order of the language: array indices first, ascending, then the other
      keys as created.  An object the program fills by [o[k] = v] is a
      [built]: the assignment under the key [__proto__] replaces the
      prototype instead of creating a property.
    - A thrown [TypeError] is the [Throw] outcome of the [result] monad.
    - A template literal that builds markup is the tree of elements it
      denotes ([Html]); [''] is the empty fragment and [.join('')] is
      concatenation of fragments.  White space between elements is dropped.
    - Fields have the types their TypeScript interfaces declare, with [null]
      where the code tests for it; the mappings of a report may be missing
      altogether, since the documents come from [JSON.parse]. *)

From Stdlib Require Import ZArith NArith List String Ascii Bool Lia.
From Stdlib Require Import Floats.SpecFloat.
From Stdlib Require Import DecimalString DecimalNat.
From Stdlib Require Import Sorting.Permutation Sorting.Sorted.
Import ListNotations.

Set Implicit Arguments.
Set Default Proof Using "Type".
Open Scope string_scope.

(** ** JavaScript numbers *)

Definition number := spec_float.

Definition prec : Z := 53.
Definition emax : Z := 1024.

Definition num_sub : number -> number -> number := SFsub prec emax.
Definition num_mul : number -> number -> number := SFmul prec emax.
Definition num_div : number -> number -> number := SFdiv prec emax.

(** [===], [<], [>] and [>=] on numbers: false as soon as one side is NaN. *)
Definition num_eq (x y : number) : bool := SFeqb x y.
Definition num_lt (x y : number) : bool := SFltb x y.
Definition num_gt (x y : number) : bool := SFltb y x.
Definition num_ge (x y : number) : bool := SFleb y x.

(** The number denoted by an integer literal. *)
Definition num_of_Z (z : Z) : number := binary_normalize prec emax z 0 false.

Definition num_zero : number := S754_zero false.
Definition num_one : number := num_of_Z 1.
Definition num_hundred : number := num_of_Z 100.
Definition num_thousand : number := num_of_Z 1000.

(** What [undefined] becomes in arithmetic. *)
Definition NaN : number := S754_nan.

(** A number in a condition: zero, of either sign, and NaN are falsy. *)
Definition num_truthy (x : number) : bool :=
  match x with
  | S754_nan | S754_zero _ => false
  | _ => true
  end.

(** Decimal digits of a natural number, ["0"] for zero. *)
Definition digits (n : Z) : string :=
  NilEmpty.string_of_uint (N.to_uint (Z.to_N n)).

Definition nat_digits (n : nat) : string :=
  NilEmpty.string_of_uint (Nat.to_uint n).

Fixpoint zeros (k : nat) : string :=
  match k with
  | O => EmptyString
  | S k' => String "0" (zeros k')
  end.

(** Steps 11.b and 11.c of [Number.prototype.toFixed]: the digits of [n]
    with the decimal point [f] places from the right. *)
Definition fixed_digits (f : nat) (n : Z) : string :=
  let m := digits n in
  match f with
  | O => m
  | S _ =>
      let k := String.length m in
      let m := if (k <=? f)%nat then zeros (f + 1 - k) ++ m else m in
      let k := String.length m in
      substring 0 (k - f) m ++ "." ++ substring (k - f) f m
  end.

(** The integer [n] for which [n / 10^f] is closest to [m * 2^e], the larger
    one when two are as close (step 11.a). *)
Definition scaled_round (f : nat) (m : positive) (e : Z) : Z :=
  let num := (Zpos m * 10 ^ Z.of_nat f)%Z in
  match e with
  | Zneg p => ((2 * num + 2 ^ Zpos p) / 2 ^ (Zpos p + 1))%Z
  | _ => (num * 2 ^ e)%Z
  end.

(** [m * 2^e >= 10^21] (step 10). *)
Definition ge_1e21 (m : positive) (e : Z) : bool :=
  match e with
  | Zneg p => (10 ^ 21 * 2 ^ Zpos p <=? Zpos m)%Z
  | _ => (10 ^ 21 <=? Zpos m * 2 ^ e)%Z
  end.

(** [Math.round]: the closest integral number, the one closer to +infinity
    on a tie; the sign of a zero result is the sign of the argument. *)
Definition Math_round (x : number) : number :=
  match x with
  | S754_finite s m (Zneg p) =>
      let v := if s then Zneg m else Zpos m in
      let n := ((2 * v + 2 ^ Zpos p) / 2 ^ (Zpos p + 1))%Z in
      binary_normalize prec emax n 0 s
  | _ => x
  end.

(** ** JavaScript strings *)

(** The white space and line terminators of ECMA-262 (12.2 and 12.3) by the
    bytes of their UTF-8 encoding.  One byte: U+0009 to U+000D and U+0020. *)
Definition is_ws1 (c1 : ascii) : bool :=
  let n := nat_of_ascii c1 in
  ((9 <=? n) && (n <=? 13) || (n =? 32))%nat.

(** Two bytes: U+00A0. *)
Definition is_ws2 (c1 c2 : ascii) : bool :=
  ((nat_of_ascii c1 =? 194) && (nat_of_ascii c2 =? 160))%nat.

(** Three bytes: U+1680, U+2000 to U+200A, U+2028, U+2029, U+202F, U+205F,
    U+3000 and U+FEFF. *)
Definition is_ws3 (c1 c2 c3 : ascii) : bool :=
  let n1 := nat_of_ascii c1 in
  let n2 := nat_of_ascii c2 in
  let n3 := nat_of_ascii c3 in
  ((n1 =? 225) && (n2 =? 154) && (n3 =? 128)
   || (n1 =? 226) && (n2 =? 128)
      && ((128 <=? n3) && (n3 <=? 138) || (n3 =? 168) || (n3 =? 169) || (n3 =? 175))
   || (n1 =? 226) && (n2 =? 129) && (n3 =? 159)
   || (n1 =? 227) && (n2 =? 128) && (n3 =? 128)
   || (n1 =? 239) && (n2 =? 187) && (n3 =? 191))%nat.

(** Dropping the white space at the head of [s]; [w2] and [w3] recognise the
    two-byte and three-byte characters in the order in which [s] has their
    bytes. *)
Fixpoint strip (w2 : ascii -> ascii -> bool) (w3 : ascii -> ascii -> ascii -> bool)
    (s : string) : string :=
  match s with
  | EmptyString => s
  | String c1 s1 =>
      if is_ws1 c1 then strip w2 w3 s1
      else
        match s1 with
        | EmptyString => s
        | String c2 s2 =>
            if w2 c1 c2 then strip w2 w3 s2
            else
              match s2 with
              | EmptyString => s
              | String c3 s3 => if w3 c1 c2 c3 then strip w2 w3 s3 else s
              end
        end
  end.

Fixpoint rev_string (acc s : string) : string :=
  match s with
  | EmptyString => acc
  | String c s' => rev_string (String c acc) s'
  end.

Definition trimStart (s : string) : string := strip is_ws2 is_ws3 s.

(** The same from the other end: on the reversed string the bytes of a
    character come last byte first. *)
Definition trimEnd (s : string) : string :=
  rev_string EmptyString
    (strip (fun c1 c2 => is_ws2 c2 c1) (fun c1 c2 c3 => is_ws3 c3 c2 c1)
           (rev_string EmptyString s)).

Definition trim (s : string) : string := trimEnd (trimStart s).

Definition lower_ascii (c : ascii) : ascii :=
  let n := nat_of_ascii c in
  if ((65 <=? n) && (n <=? 90))%nat then ascii_of_nat (n + 32) else c.

(** [s.toLowerCase()] as far as the program needs it, which is to decide
    [s.toLowerCase() === 'hidden']: the ASCII letters are folded and every
    other byte is kept.  That decides the comparison for every string: the
    only characters outside [A]-[Z] whose lower case is made of ASCII
    letters alone are U+212A, which becomes [k], and none becomes one of
    [h], [i], [d], [e], [n] (U+0130 becomes [i] followed by U+0307). *)
Fixpoint toLowerCase (s : string) : string :=
  match s with
  | EmptyString => EmptyString
  | String c s' => String (lower_ascii c) (toLowerCase s')
  end.

(** A string in a condition: the empty string is falsy. *)
Definition str_truthy (s : string) : bool :=
  match s with
  | EmptyString => false
  | _ => true
  end.

(** [s || t] on strings. *)
Definition str_or (s t : string) : string :=
  match s with
  | EmptyString => t
  | _ => s
  end.

(** [s || t] where [s] may be [undefined]. *)
Definition opt_str_or (s : option string) (t : string) : string :=
  match s with
  | Some s' => str_or s' t
  | None => t
  end.

(** [`${s}`] where [s] may be [undefined]. *)
Definition splice (s : option string) : string :=
  match s with
  | Some s' => s'
  | None => "undefined"
  end.

(** ** Objects used as maps *)

(** The own properties, in the order in which they were created.  Of two
    bindings of one key the first counts. *)
Definition obj (V : Type) := list (string * V).

(** The own property [k]. *)
Fixpoint lookup {V} (k : string) (o : obj V) : option V :=
  match o with
  | [] => None
  | (k', v) :: o' => if String.eqb k k' then Some v else lookup k o'
  end.

(** The properties of [Object.prototype], which every object of the program
    and of its inputs inherits: methods, and the accessor [__proto__]. *)
Definition objectPrototype : list string :=
  ["constructor"; "hasOwnProperty"; "isPrototypeOf"; "propertyIsEnumerable";
   "toLocaleString"; "toString"; "valueOf"; "__proto__";
   "__defineGetter__"; "__defineSetter__"; "__lookupGetter__"; "__lookupSetter__"].

Definition inherits (k : string) : bool := existsb (String.eqb k) objectPrototype.

(** What a read [o[k]] gives, as far as the program can tell: an entry of
    the mapping, or some other value, of which the program sees whether it is
    truthy and that it has none of the fields of an entry.  [Other true] is a
    method of [Object.prototype] or that object itself; [Other false] is
    [undefined]. *)
Inductive property (V : Type) : Type :=
| Entry (v : V)
| Other (truthy : bool).

Arguments Entry {V} v.
Arguments Other {V} truthy.

(** [o[k]] in a condition. *)
Definition truthy {V} (p : property V) : bool :=
  match p with
  | Entry _ => true
  | Other t => t
  end.

(** [o[k]] on an object whose prototype is [Object.prototype]. *)
Definition get {V} (o : obj V) (k : string) : property V :=
  match lookup k o with
  | Some v => Entry v
  | None => Other (inherits k)
  end.

(** [Array.from(new Set(l))]: first occurrences, in order. *)
Fixpoint dedupe_acc (seen l : list string) : list string :=
  match l with
  | [] => []
  | x :: l' =>
      if existsb (String.eqb x) seen then dedupe_acc seen l'
      else x :: dedupe_acc (x :: seen) l'
  end.

Definition dedupe (l : list string) : list string := dedupe_acc [] l.

Definition digitOf (c : ascii) : option N :=
  let n := N_of_ascii c in
  if ((48 <=? n) && (n <=? 57))%N then Some (n - 48)%N else None.

Fixpoint digitsValue (acc : N) (s : string) : option N :=
  match s with
  | EmptyString => Some acc
  | String c s' =>
      match digitOf c with
      | Some d => digitsValue (acc * 10 + d)%N s'
      | None => None
      end
  end.

(** An array index (ECMA-262, 6.1.7): the canonical decimal string of an
    integer from 0 to 2^32 - 2. *)
Definition arrayIndex (k : string) : option N :=
  match k with
  | EmptyString => None
  | String c s' =>
      if Ascii.eqb c "0" then match s' with EmptyString => Some 0%N | _ => None end
      else
        match digitsValue 0 k with
        | Some n => if (n <=? 4294967294)%N then Some n else None
        | None => None
        end
  end.

Definition isArrayIndex (k : string) : bool :=
  match arrayIndex k with
  | Some _ => true
  | None => false
  end.

Fixpoint insertIndex (x : N * string) (l : list (N * string)) : list (N * string) :=
  match l with
  | [] => [x]
  | y :: l' => if (fst x <=? fst y)%N then x :: l else y :: insertIndex x l'
  end.

Fixpoint sortIndex (l : list (N * string)) : list (N * string) :=
  match l with
  | [] => []
  | x :: l' => insertIndex x (sortIndex l')
  end.

(** The array indices among [ks], each with its number. *)
Definition indexKeys (ks : list string) : list (N * string) :=
  flat_map (fun k => match arrayIndex k with Some n => [(n, k)] | None => [] end) ks.

(** [OrdinaryOwnPropertyKeys] (ECMA-262, 10.1.11.1) for keys created in the
    order [ks]: the array indices in ascending order, then the other keys in
    the order of creation. *)
Definition propertyOrder (ks : list string) : list string :=
  (map snd (sortIndex (indexKeys ks))
   ++ filter (fun k => negb (isArrayIndex k)) ks)%list.

Definition Object_keys {V} (o : obj V) : list string :=
  propertyOrder (dedupe (map fst o)).

Definition Object_entries {V} (o : obj V) : list (string * V) :=
  flat_map (fun k => match lookup k o with Some v => [(k, v)] | None => [] end)
           (Object_keys o).

Definition Object_values {V} (o : obj V) : list V := map snd (Object_entries o).

(** [o[k] = v] for a key that [Object.prototype] has no setter for:
    overwrite in place, or add the key last. *)
Fixpoint obj_set {V} (k : string) (v : V) (o : obj V) : obj V :=
  match o with
  | [] => [(k, v)]
  | (k', v') :: o' =>
      if String.eqb k k' then (k, v) :: o' else (k', v') :: obj_set k v o'
  end.

(** An object that starts as [{}] and is filled by [o[k] = v] with keys the
    input chooses: its own properties, and the value assigned under
    [__proto__], if any.  That assignment runs the setter of
    [Object.prototype], which makes the value the prototype of [o] and
    creates no property. *)
Record built (V : Type) : Type := mkBuilt {
  own : obj V;
  proto : option V
}.

Definition emptyObject {V} : built V := mkBuilt [] None.

(** [o[k] = v]. *)
Definition assign {V} (k : string) (v : V) (o : built V) : built V :=
  if String.eqb k "__proto__" then mkBuilt (own o) (Some v)
  else mkBuilt (obj_set k v (own o)) (proto o).
(** ** Exceptions *)

Inductive result (A : Type) : Type :=
| Ok (a : A)
| Throw (msg : string).

Arguments Ok {A} a.
Arguments Throw {A} msg.

Definition bind {A B} (r : result A) (k : A -> result B) : result B :=
  match r with
  | Ok a => k a
  | Throw m => Throw m
  end.

Notation "x <- r ;; k" := (bind r (fun x => k))
  (at level 61, r at next level, right associativity).

Definition TypeError {A} : result A := Throw "TypeError".

(** Reading a property of a value that may be [undefined]. *)
Definition deref {A} (o : option A) : result A :=
  match o with
  | Some a => Ok a
  | None => TypeError
  end.

Fixpoint mapM {A B} (f : A -> result B) (l : list A) : result (list B) :=
  match l with
  | [] => Ok []
  | x :: l' => y <- f x ;; ys <- mapM f l' ;; Ok (y :: ys)
  end.

Fixpoint filterM {A} (f : A -> result bool) (l : list A) : result (list A) :=
  match l with
  | [] => Ok []
  | x :: l' =>
      b <- f x ;; ys <- filterM f l' ;; Ok (if b then x :: ys else ys)
  end.

Fixpoint existsM {A} (f : A -> result bool) (l : list A) : result bool :=
  match l with
  | [] => Ok false
  | x :: l' => b <- f x ;; if b then Ok true else existsM f l'
  end.

Fixpoint forEachM {A S} (f : S -> A -> result S) (l : list A) (s : S) : result S :=
  match l with
  | [] => Ok s
  | x :: l' => s' <- f s x ;; forEachM f l' s'
  end.

Definition is_ok {A} (r : result A) : bool :=
  match r with
  | Ok _ => true
  | Throw _ => false
  end.

(** ** Markup *)

Local Unset Elimination Schemes.

Inductive Html : Type :=
| Text (s : string)
| Elem (tag : string) (attrs : list (string * string)) (children : list Html).

Local Set Elimination Schemes.

Definition fragment := list Html.

Definition quote : string := String (ascii_of_nat 34) EmptyString.

Fixpoint render_attrs (attrs : list (string * string)) : string :=
  match attrs with
  | [] => EmptyString
  | (k, v) :: attrs' => " " ++ k ++ "=" ++ quote ++ v ++ quote ++ render_attrs attrs'
  end.

Fixpoint render (h : Html) : string :=
  match h with
  | Text s => s
  | Elem tag attrs children =>
      "<" ++ tag ++ render_attrs attrs ++ ">"
      ++ (fix render_all (l : list Html) : string :=
            match l with
            | [] => EmptyString
            | x :: l' => render x ++ render_all l'
            end) children
      ++ "</" ++ tag ++ ">"
  end.

(** The [href] of every [a] element, in document order. *)
Fixpoint hrefs (h : Html) : list string :=
  match h with
  | Text _ => []
  | Elem tag attrs children =>
      ((if String.eqb tag "a"
        then match lookup "href" attrs with Some u => [u] | None => [] end
        else [])
       ++ (fix hrefs_all (l : list Html) : list string :=
             match l with
             | [] => []
             | x :: l' => hrefs x ++ hrefs_all l'
             end) children)%list
  end.

Definition el (tag : string) (attrs : list (string * string)) (children : list Html) : Html :=
  Elem tag attrs children.

Definition class (c : string) : string * string := ("class", c).
Definition style (c : string) : string * string := ("style", c).

(** ** The data model of [compare-flow-results.ts] *)

Inductive nullable (A : Type) : Type :=
| Undefined
| Null
| Val (a : A).

Arguments Undefined {A}.
Arguments Null {A}.
Arguments Val {A} a.

Module Audit.
Record t : Type := mk {
  id : string;
  title : string;
  score : nullable number;
  scoreDisplayMode : string;
  displayValue : option string;
  numericValue : option number;
  numericUnit : option string
}.
End Audit.

Module AuditRef.
Record t : Type := mk {
  id : string;
  group : option string;
  acronym : option string;
  title : option string
}.
End AuditRef.

Module CategoryGroup.
Record t : Type := mk {
  title : option string;
  description : option string
}.
End CategoryGroup.

Module Category.
Record t : Type := mk {
  id : string;
  title : string;
  score : option number;
  auditRefs : list AuditRef.t
}.
End Category.

Module LighthouseReport.
Record t : Type := mk {
  lighthouseVersion : string;
  audits : option (obj Audit.t);
  categories : option (obj Category.t);
  categoryGroups : option (obj CategoryGroup.t)
}.
End LighthouseReport.

Inductive Trend : Type := better | worse | equal.

(** What [compareNumbers] returns. *)
Module Delta.
Record t : Type := mk {
  before : number;
  after : number;
  diff : number;
  percent : string;
  trend : Trend
}.
End Delta.

(** [{ ...compareNumbers(before, after), id }], with [numeric] when set. *)
Module AuditDiff.
Record t : Type := mk {
  delta : Delta.t;
  id : string;
  numeric : option Delta.t
}.
End AuditDiff.

(** [{ ...compareNumbers(beforeScore, cat.score, true), title }]. *)
Module CategoryDiff.
Record t : Type := mk {
  delta : Delta.t;
  title : string
}.
End CategoryDiff.

(** The field [k] of a delta in a condition, when [k] names one. *)
Definition deltaField (d : Delta.t) (k : string) : option bool :=
  if String.eqb k "before" then Some (num_truthy (Delta.before d))
  else if String.eqb k "after" then Some (num_truthy (Delta.after d))
  else if String.eqb k "diff" then Some (num_truthy (Delta.diff d))
  else if String.eqb k "percent" then Some (str_truthy (Delta.percent d))
  else if String.eqb k "trend" then Some true
  else None.

(** [categoryDiffs[k]]: an own entry; else, when an entry [p] was assigned
    under [__proto__] and so is the prototype, [p] itself for [__proto__] and
    a field of [p] for the name of one, which is a number or a string; else
    what [Object.prototype] has. *)
Definition categoryDiffAt (categoryDiffs : built CategoryDiff.t) (k : string)
  : property CategoryDiff.t :=
  match lookup k (own categoryDiffs) with
  | Some d => Entry d
  | None =>
      match proto categoryDiffs with
      | Some p =>
          if String.eqb k "__proto__" then Entry p
          else
            match deltaField (CategoryDiff.delta p) k with
            | Some t => Other t
            | None =>
                if String.eqb k "title" then Other (str_truthy (CategoryDiff.title p))
                else Other (inherits k)
            end
      | None => Other (inherits k)
      end
  end.

(** What a read of [auditDiffs] gives, which [renderDiffAudit] takes as
    [diff: any]: a stored delta; or, when a delta that has a numeric delta
    was assigned under [__proto__], that numeric delta for the key
    [numeric]; or some other value, without [trend] and [percent]. *)
Inductive AnyDiff : Type :=
| StoredDiff (d : AuditDiff.t)
| NumericOf (n : Delta.t)
| NoDiff (truthy : bool).

(** [auditDiffs[k]]. *)
Definition auditDiffAt (auditDiffs : built AuditDiff.t) (k : string) : AnyDiff :=
  match lookup k (own auditDiffs) with
  | Some d => StoredDiff d
  | None =>
      match proto auditDiffs with
      | Some p =>
          if String.eqb k "__proto__" then StoredDiff p
          else
            match deltaField (AuditDiff.delta p) k with
            | Some t => NoDiff t
            | None =>
                if String.eqb k "id" then NoDiff (str_truthy (AuditDiff.id p))
                else if String.eqb k "numeric"
                     then match AuditDiff.numeric p with
                          | Some n => NumericOf n
                          | None => NoDiff false
                          end
                else NoDiff (inherits k)
            end
      | None => NoDiff (inherits k)
      end
  end.

(** One entry of a document's [steps]. *)
Module Step.
Record t : Type := mk {
  name : option string;
  lhr : LighthouseReport.t
}.
End Step.

(** One entry of the [steps] array that [main] hands to the index page. *)
Module StepSummary.
Record t : Type := mk {
  name : string;
  categoryDiffs : built CategoryDiff.t
}.
End StepSummary.

(** A parsed input file: [{ steps: [...] }], [{ lhr: ... }] or a bare report. *)
Inductive Document : Type :=
| DocSteps (steps : list Step.t)
| DocLhr (lhr : LighthouseReport.t)
| DocBare (lhr : LighthouseReport.t).

(** What [getFriendlyGroupName] returns: a name, or, where the lookup in
    its dictionary finds a property of [Object.prototype], that member. *)
Inductive GroupName : Type :=
| Name (s : string)
| Member (k : string).
(** ** The comparison engine and the report renderer *)

Section CompareFlowResults.

(** [Number::toString] (ECMA-262, 6.1.6.1.20) is part of the language, not
    of the repository: the development is parametric in it.  It is reached
    where a number is spliced into a template and where [toFixed] falls
    back to it. *)
Variable Number_toString : number -> string.

(** The string a template gives for the member [k] of [Object.prototype]:
    for a method the source text of a built-in function, which ECMA-262
    (20.2.3.5) leaves to the implementation, and for [__proto__], which is
    [Object.prototype] itself, [[object Object]]. *)
Variable Member_toString : string -> string.

(** [Number.prototype.toFixed(f)] for [0 <= f <= 100] (ECMA-262, 21.1.3.3). *)
Definition toFixed (f : nat) (x : number) : string :=
  match x with
  | S754_nan | S754_infinity _ => Number_toString x
  | S754_zero _ => fixed_digits f 0
  | S754_finite s m e =>
      (if s then "-" else "")
      ++ (if ge_1e21 m e then Number_toString (S754_finite false m e)
          else fixed_digits f (scaled_round f m e))
  end.

Definition compareNumbers (before after : number) (isScore : bool) : Delta.t :=
  let diff := num_sub after before in
  let percent :=
    if negb (num_eq before num_zero)
    then toFixed 1 (num_mul (num_div diff before) num_hundred)
    else "0" in
  let trend :=
    if num_eq diff num_zero then equal
    else if (if isScore then num_gt diff num_zero else num_lt diff num_zero)
         then better
         else worse in
  Delta.mk before after diff percent trend.

Definition scoreColor (score : nullable number) : string :=
  match score with
  | Null | Undefined => "#b0b0b0"
  | Val s =>
      if num_ge s (num_div (num_of_Z 9) (num_of_Z 10)) then "#0cce6b"
      else if num_ge s (num_div (num_of_Z 1) (num_of_Z 2)) then "#ffa400"
      else "#ff4e42"
  end.

Definition trendIcon (trend : Trend) : string :=
  match trend with
  | better => "▲"
  | worse => "🔻"
  | equal => "⚪"
  end.

Definition trendColor (trend : Trend) : string :=
  match trend with
  | better => "#0cce6b"
  | worse => "#ff4e42"
  | equal => "#b0b0b0"
  end.

Definition trendBg (trend : Trend) : string :=
  match trend with
  | better => "#e8f5e9"
  | worse => "#ffebee"
  | equal => "#f1f3f4"
  end.

(** The argument of [trendIcon], [trendColor] and [trendBg] when it is read
    off a value that may have no [trend]: the three functions test for
    ['better'] and ['worse'] and answer anything else, [undefined] included,
    as they answer ['equal']. *)
Definition orEqual (trend : option Trend) : Trend :=
  match trend with
  | Some t => t
  | None => equal
  end.

(** The body of the loop of [groupAuditRefsByGroup].  [groups[group]] finds
    what [Object.prototype] has under the name of the group when the group
    has no list yet: no list is made then, and [push] is not a function of
    what was found. *)
Definition groupStep (groups : obj (list AuditRef.t)) (ref : AuditRef.t)
  : result (obj (list AuditRef.t)) :=
  let group := opt_str_or (AuditRef.group ref) "Other" in
  let groups :=
    if truthy (get groups group) then groups else obj_set group [] groups in
  match get groups group with
  | Entry refs => Ok (obj_set group (refs ++ [ref])%list groups)
  | Other _ => TypeError
  end.

Definition groupAuditRefsByGroup (auditRefs : list AuditRef.t)
  : result (obj (list AuditRef.t)) :=
  forEachM groupStep auditRefs [].

Definition fallback : obj string :=
  [("metrics", "Metrics"); ("diagnostics", "Diagnostics");
   ("hidden", "Insights"); ("Other", "Other")].

(** [lhr.categoryGroups && lhr.categoryGroups[groupId]]. *)
Definition groupEntry (lhr : LighthouseReport.t) (groupId : string)
  : property CategoryGroup.t :=
  match LighthouseReport.categoryGroups lhr with
  | Some groups => get groups groupId
  | None => Other false
  end.

Definition getFriendlyGroupName (groupId : string) (lhr : LighthouseReport.t) : GroupName :=
  let entry := groupEntry lhr groupId in
  if truthy entry then
    let title :=
      match entry with
      | Entry e => option_map trim (CategoryGroup.title e)
      | Other _ => None
      end in
    if String.eqb (toLowerCase groupId) "hidden"
       && match title with
          | None | Some EmptyString => true
          | Some _ => false
          end
    then Name "Insights"
    else Name (opt_str_or title groupId)
  else
    if String.eqb (toLowerCase groupId) "hidden" then Name "Insights"
    else
      match get fallback groupId with
      | Entry name => Name (str_or name groupId)
      | Other true => Member groupId
      | Other false => Name groupId
      end.

(** A group name spliced into a template. *)
Definition nameText (name : GroupName) : string :=
  match name with
  | Name s => s
  | Member k => Member_toString k
  end.

Definition legendItem (color icon label : string) : Html :=
  el "div" [class "legend-item"]
     [el "span" [style ("color:" ++ color ++ "; font-size:1.3em;")] [Text icon];
      el "span" [] [Text label]].

Definition renderLegend : Html :=
  el "div" [class "legend"]
     [el "div" [class "legend-title"] [Text "Legend:"];
      legendItem "#0cce6b" "▲" "Improved";
      legendItem "#ff4e42" "🔻" "Worsened";
      legendItem "#b0b0b0" "⚪" "No change"].

(** [score * 100]: [null * 100] is [0] and [undefined * 100] is NaN. *)
Definition times100 (score : nullable number) : number :=
  match score with
  | Val s => num_mul s num_hundred
  | Null => num_mul num_zero num_hundred
  | Undefined => NaN
  end.

Definition nullable_of_option (score : option number) : nullable number :=
  match score with
  | Some s => Val s
  | None => Null
  end.

(** [diff.trend] and [diff.percent] of a value read from [categoryDiffs]. *)
Definition trendOf (diff : property CategoryDiff.t) : option Trend :=
  match diff with
  | Entry d => Some (Delta.trend (CategoryDiff.delta d))
  | Other _ => None
  end.

Definition percentOfDiff (diff : property CategoryDiff.t) : option string :=
  match diff with
  | Entry d => Some (Delta.percent (CategoryDiff.delta d))
  | Other _ => None
  end.

(** One card of the summary strip: the callback of [categories.map] in
    [renderCategoryHeader]. *)
Definition categorySummaryCard (categoryDiffs : built CategoryDiff.t) (cat : Category.t) : Html :=
  let diff := categoryDiffAt categoryDiffs (Category.id cat) in
  let color := scoreColor (nullable_of_option (Category.score cat)) in
  el "div" [class "cat-summary-card"; style ("border-bottom:4px solid " ++ color)]
     ([el "div" [class "cat-summary-title"] [Text (Category.title cat)];
       el "div" [class "cat-summary-score"; style ("color:" ++ color)]
          [Text (toFixed 0 (times100 (nullable_of_option (Category.score cat))))]]
      ++ (if truthy diff
          then
            let t := orEqual (trendOf diff) in
            [el "div" [class "cat-summary-diff"; style ("color:" ++ trendColor t)]
                [Text (trendIcon t ++ " " ++ splice (percentOfDiff diff) ++ "%")]]
          else []))%list.

Definition renderCategoryHeader (categories : list Category.t)
    (categoryDiffs : built CategoryDiff.t) : Html :=
  el "div" [class "cat-summary"] (map (categorySummaryCard categoryDiffs) categories).

(** The fields [renderDiffAudit] reads of an audit argument, which is what
    [audits[ref.id]] gave: an audit, or a member of [Object.prototype],
    which has none of them. *)
Definition scoreOf (audit : property Audit.t) : nullable number :=
  match audit with
  | Entry a => Audit.score a
  | Other _ => Undefined
  end.

Definition titleOf (audit : property Audit.t) : option string :=
  match audit with
  | Entry a => Some (Audit.title a)
  | Other _ => None
  end.

Definition displayValueOf (audit : property Audit.t) : option string :=
  match audit with
  | Entry a => Audit.displayValue a
  | Other _ => None
  end.

Definition numericValueOf (audit : property Audit.t) : option number :=
  match audit with
  | Entry a => Audit.numericValue a
  | Other _ => None
  end.

Definition numericUnitOf (audit : property Audit.t) : option string :=
  match audit with
  | Entry a => Audit.numericUnit a
  | Other _ => None
  end.

(** The value column of one side: the display string, else the numeric
    value in seconds, else nothing. *)
Definition displayOf (audit : property Audit.t) : string :=
  opt_str_or (displayValueOf audit)
    match numericValueOf audit with
    | Some v => toFixed 1 (num_div v num_thousand) ++ " s"
    | None => EmptyString
    end.

(** [diff] in a condition, [diff.trend] and [diff.percent]. *)
Definition hasDiff (diff : AnyDiff) : bool :=
  match diff with
  | StoredDiff _ | NumericOf _ => true
  | NoDiff t => t
  end.

Definition diffTrend (diff : AnyDiff) : option Trend :=
  match diff with
  | StoredDiff d => Some (Delta.trend (AuditDiff.delta d))
  | NumericOf n => Some (Delta.trend n)
  | NoDiff _ => None
  end.

Definition diffPercent (diff : AnyDiff) : option string :=
  match diff with
  | StoredDiff d => Some (Delta.percent (AuditDiff.delta d))
  | NumericOf n => Some (Delta.percent n)
  | NoDiff _ => None
  end.

Definition renderDiffAudit (ref : AuditRef.t) (beforeAudit afterAudit : property Audit.t)
    (diff : AnyDiff) : fragment :=
  if match scoreOf afterAudit with
     | Null => true
     | Val s => num_eq s num_one
     | Undefined => false
     end
  then []
  else
    let beforeDisplay := displayOf beforeAudit in
    let afterDisplay := displayOf afterAudit in
    let trend0 := if hasDiff diff then orEqual (diffTrend diff) else equal in
    let '(trend, diffValue) :=
      match numericValueOf beforeAudit, numericValueOf afterAudit with
      | Some numB, Some numA =>
          let unit :=
            match numericUnitOf afterAudit with
            | Some u => if String.eqb u "millisecond" then "ms" else str_or u EmptyString
            | None => EmptyString
            end in
          let rawDiff := num_sub numA numB in
          let sign := if num_gt rawDiff num_zero then "+" else EmptyString in
          let trend := Delta.trend (compareNumbers numB numA false) in
          (trend,
           [el "span" [class "audit-diff"; style ("color:" ++ trendColor trend ++ ";")]
               [Text (sign ++ Number_toString (Math_round rawDiff) ++ " " ++ unit)]])
      | _, _ =>
          if hasDiff diff
          then
            (trend0,
             [el "span" [class "audit-diff"; style ("color:" ++ trendColor trend0 ++ ";")]
                 [Text match diffTrend diff with
                       | Some equal => EmptyString
                       | _ => splice (diffPercent diff) ++ "%"
                       end]])
          else (trend0, [])
      end in
    [el "li" [class "audit-li"; style ("background:" ++ trendBg trend ++ ";")]
        ([el "span" [class "audit-icon"; style ("color:" ++ trendColor trend ++ ";")]
             [Text (trendIcon trend)];
          el "span" [class "audit-title"] [Text (splice (titleOf afterAudit))];
          el "span" [class "audit-value audit-before"] [Text beforeDisplay];
          el "span" [class "audit-arrow"] [Text "→"];
          el "span" [class "audit-value audit-after"] [Text afterDisplay]]
         ++ diffValue
         ++ [el "span" [class "audit-score";
                        style ("color:" ++ scoreColor (scoreOf afterAudit) ++ ";")]
                [Text match scoreOf afterAudit with
                      | Val s => toFixed 0 (num_mul s num_hundred)
                      | _ => EmptyString
                      end]])%list].

(** [lhr.audits[id]]: a [TypeError] when the report has no [audits]. *)
Definition auditOf (lhr : LighthouseReport.t) (id : string) : result (property Audit.t) :=
  audits <- deref (LighthouseReport.audits lhr) ;;
  Ok (get audits id).

(** [afterAudit && afterAudit.score !== null && afterAudit.score < 1]. *)
Definition belowPerfect (afterAudit : property Audit.t) : bool :=
  truthy afterAudit
  && match scoreOf afterAudit with
     | Val s => num_lt s num_one
     | Null => false
     | Undefined => false
     end.

Definition isFailedRef (lhrAfter : LighthouseReport.t) (ref : AuditRef.t) : result bool :=
  afterAudit <- auditOf lhrAfter (AuditRef.id ref) ;;
  Ok (belowPerfect afterAudit).

Definition auditHeaderRow : Html :=
  el "li" [class "audit-li audit-header"]
     [el "span" [class "audit-icon"] [];
      el "span" [class "audit-title"] [Text "Audit"];
      el "span" [class "audit-value audit-before"] [Text "Before Value"];
      el "span" [class "audit-arrow"] [];
      el "span" [class "audit-value audit-after"] [Text "After Value"];
      el "span" [class "audit-diff"] [Text "Difference (%)"];
      el "span" [class "audit-score"] [Text "Score"]].

(** The callback of [failedRefs.map] in [renderCategory]: the list item of
    one selected reference. *)
Definition renderFailedRef (lhrBefore lhrAfter : LighthouseReport.t)
    (auditDiffs : built AuditDiff.t) (ref : AuditRef.t) : result fragment :=
  beforeAudit <- auditOf lhrBefore (AuditRef.id ref) ;;
  afterAudit <- auditOf lhrAfter (AuditRef.id ref) ;;
  let diff := auditDiffAt auditDiffs (AuditRef.id ref) in
  if negb (truthy beforeAudit) || negb (truthy afterAudit) then Ok []
  else Ok (renderDiffAudit ref beforeAudit afterAudit diff).

(** The callback of [Object.entries(groups).map] in [renderCategory]. *)
Definition renderGroup (lhrBefore lhrAfter : LighthouseReport.t)
    (auditDiffs : built AuditDiff.t) (entry : string * list AuditRef.t) : result fragment :=
  let '(groupId, refs) := entry in
  failedRefs <- filterM (isFailedRef lhrAfter) refs ;;
  match failedRefs with
  | [] => Ok []
  | _ =>
      items <- mapM (renderFailedRef lhrBefore lhrAfter auditDiffs) failedRefs ;;
      Ok [el "div" [class "audit-section"]
             [el "h3" []
                 [Text (nameText (getFriendlyGroupName groupId lhrAfter));
                  el "span" [class "count"]
                     [Text ("(" ++ nat_digits (List.length failedRefs) ++ ")")]];
              el "ul" [class "audit-list"] (auditHeaderRow :: List.concat items)]]
  end.

Definition renderCategory (category : Category.t)
    (lhrBefore lhrAfter : LighthouseReport.t)
    (auditDiffs : built AuditDiff.t) (categoryDiffs : built CategoryDiff.t) : result fragment :=
  let color := scoreColor (nullable_of_option (Category.score category)) in
  let catDiff := categoryDiffAt categoryDiffs (Category.id category) in
  groups <- groupAuditRefsByGroup (Category.auditRefs category) ;;
  groupHtml <- mapM (renderGroup lhrBefore lhrAfter auditDiffs) (Object_entries groups) ;;
  match List.concat groupHtml with
  | [] => Ok []
  | sections =>
      Ok [el "section"
             [class "category";
              style ("border-left: 12px solid " ++ color ++ "; margin-bottom: 2rem;")]
             (el "h2" []
                 ([Text (Category.title category);
                   el "span" [class "cat-score"; style ("color:" ++ color ++ "; margin-left: 1em;")]
                      [Text (toFixed 0 (times100 (nullable_of_option (Category.score category))))]]
                  ++ (if truthy catDiff
                      then
                        let t := orEqual (trendOf catDiff) in
                        [el "span"
                            [class "cat-score-diff";
                             style ("color:" ++ trendColor t ++ ";margin-left:1em;")]
                            [Text (trendIcon t ++ " " ++ splice (percentOfDiff catDiff) ++ "%")]]
                      else []))%list
              :: sections)]
  end.
Definition stepPageCss : string :=
  "@import url('https://fonts.googleapis.com/css2?family=Roboto&display=swap');"
  ++ " body { font-family: 'Roboto', Arial, sans-serif; background: #f5f7fa; color: #202124; margin: 0; padding: 2rem;}"
  ++ " h1 { font-weight: 400; margin-bottom: 1.5rem; }"
  ++ " .cat-summary { display: flex; gap: 1.5rem; margin-bottom: 2rem; }"
  ++ " .cat-summary-card { background: #fff; border-radius: 8px 8px 0 0; box-shadow: 0 1px 3px rgb(60 64 67 / 0.13); padding: 1rem 1.5rem; min-width: 140px; flex: 1 1 140px; display: flex; flex-direction: column; align-items: center; border-bottom: 4px solid #0cce6b;}"
  ++ " .cat-summary-title { font-size: 1.1rem; font-weight: 500; margin-bottom: 0.5rem;}"
  ++ " .cat-summary-score { font-size: 1.5rem; font-weight: bold;}"
  ++ " .cat-summary-diff { font-size: 1.05rem; margin-top: 0.2em;}"
  ++ " .category { background: #fff; border-radius: 8px; box-shadow: 0 1px 3px rgb(60 64 67 / 0.13); margin-bottom: 2.5rem; padding: 1.2rem 2rem 1.2rem 1.5rem;}"
  ++ " .category h2 { font-size: 1.3rem; font-weight: 600; margin-bottom: 0.8rem; display: flex; align-items: center; gap: 1.2em;}"
  ++ " .cat-score { font-size: 1.3em; font-weight: bold;}"
  ++ " .cat-score-diff { font-size: 1.1em; font-weight: bold;}"
  ++ " .audit-section { margin-bottom: 1.2em;}"
  ++ " .audit-section h3 { font-size: 1.05em; margin-bottom: 0.3em; margin-top: 0.7em; color: #174ea6; }"
  ++ " .timeline-link { display: inline-block; margin-bottom: 2em;}"
  ++ " .audit-list { list-style:none; padding-left:0; margin-top:0.2em; }"
  ++ " .audit-li { display: flex; align-items: center; gap: 0.7em; padding: 0.3em 0.7em; border-radius: 4px; margin: 0.2em 0; }"
  ++ " .audit-header { font-weight: bold; background: #e8eaed; border-bottom: 1px solid #ccc; }"
  ++ " .audit-icon { width: 2em; text-align: center; }"
  ++ " .audit-title { flex: 1 1 auto; }"
  ++ " .audit-value { min-width: 7em; text-align: right; display: inline-block; }"
  ++ " .audit-before { } .audit-after { }"
  ++ " .audit-arrow { width: 2em; text-align: center; }"
  ++ " .audit-diff { min-width: 6em; text-align: right; display: inline-block; font-weight: bold; }"
  ++ " .audit-score { min-width: 4em; text-align: right; margin-left: 1em; font-weight: bold; }"
  ++ " .legend { display: flex; align-items: center; background: #fff; padding: 1em; border-radius: 8px; margin-bottom: 1em; box-shadow: 0 1px 3px rgb(60 64 67 / 0.13); }"
  ++ " .legend-title { font-weight: bold; margin-right: 1em; }"
  ++ " .legend-item { display: flex; align-items: center; margin-right: 2em; }"
  ++ " .legend-item span { margin-right: 0.5em; }".

(** The callback of [categories.filter] in [generateStepHTML]. *)
Definition hasProblems (lhrAfter : LighthouseReport.t) (cat : Category.t) : result bool :=
  groups <- groupAuditRefsByGroup (Category.auditRefs cat) ;;
  existsM (fun refs => existsM (isFailedRef lhrAfter) refs) (Object_values groups).

Definition generateStepHTML (stepName : string)
    (lhrBefore lhrAfter : LighthouseReport.t)
    (auditDiffs : built AuditDiff.t) (categoryDiffs : built CategoryDiff.t) : result Html :=
  cats <- deref (LighthouseReport.categories lhrAfter) ;;
  let categories := Object_values cats in
  catsWithProblems <- filterM (hasProblems lhrAfter) categories ;;
  body <- mapM (fun cat => renderCategory cat lhrBefore lhrAfter auditDiffs categoryDiffs)
               catsWithProblems ;;
  Ok (el "html" []
         [el "head" []
             [el "title" [] [Text (stepName ++ " - Problem Audits")];
              el "meta" [("charset", "utf-8")] [];
              el "style" [] [Text stepPageCss]];
          el "body" []
             ([el "a" [("href", "index.html"); class "timeline-link"]
                  [Text "&larr; Back to Summary"];
               el "h1" [] [Text (stepName ++ " — Problem audits only (score &lt; 100)")];
               renderLegend;
               renderCategoryHeader categories categoryDiffs]
              ++ List.concat body)%list]).

Fixpoint mapi_from {A B} (i : nat) (f : A -> nat -> B) (l : list A) : list B :=
  match l with
  | [] => []
  | x :: l' => f x i :: mapi_from (S i) f l'
  end.

(** [l.map((x, i) => f(x, i))]. *)
Definition mapi {A B} (f : A -> nat -> B) (l : list A) : list B := mapi_from 0 f l.

Definition timelineCss : string :=
  "@import url('https://fonts.googleapis.com/css2?family=Roboto&display=swap');"
  ++ " body { font-family: 'Roboto', Arial, sans-serif; background: #f5f7fa; color: #202124; padding: 2rem; }"
  ++ " h1 { font-weight: 400; }"
  ++ " table { width: 100%; border-collapse: collapse; background: #fff; border-radius: 8px; box-shadow: 0 1px 3px rgb(60 64 67 / 0.13); }"
  ++ " th, td { padding: 1rem; border-bottom: 1px solid #e0e0e0; text-align: center; }"
  ++ " th { background: #f8fafc; }"
  ++ " a { color: #1a73e8; text-decoration: none; }"
  ++ " a:hover { text-decoration: underline; }"
  ++ " tr:last-child td { border-bottom: none; }"
  ++ " .cat-cell { display: inline-block; background: #f8fafc; border-radius: 6px; padding: 0.5em 0.7em; margin: 0.1em 0; text-decoration: none; transition: box-shadow 0.2s; min-width: 70px; }"
  ++ " .cat-cell:hover { box-shadow: 0 0 0 3px #e0e0e0; background: #f1f3f4; }"
  ++ " .step-link { display: inline-block; background: #fff; border-radius: 50px; padding: 0.5em 1em; border: 2px solid #1a73e8; color: #1a73e8; font-weight: bold; transition: background 0.2s, color 0.2s; }"
  ++ " .step-link:hover { background: #1a73e8; color: #fff; }"
  ++ " .step-number { display: inline-block; font-weight: bold; background: #1a73e8; color: #fff; border-radius: 50%; width: 1.6em; height: 1.6em; line-height: 1.6em; text-align: center; margin-right: 0.5em; font-size: 1.1em; }"
  ++ " .legend { display: flex; align-items: center; background: #fff; padding: 1em; border-radius: 8px; margin-bottom: 1em; box-shadow: 0 1px 3px rgb(60 64 67 / 0.13); }"
  ++ " .legend-title { font-weight: bold; margin-right: 1em; }"
  ++ " .legend-item { display: flex; align-items: center; margin-right: 2em; }"
  ++ " .legend-item span { margin-right: 0.5em; }".

(** [allCategories] of [generateTimelineHTML]. *)
Definition allCategoriesOf (steps : list StepSummary.t) : list string :=
  dedupe (flat_map (fun step => Object_keys (own (StepSummary.categoryDiffs step))) steps).

(** The text of one category column header:
    [steps[0].categoryDiffs[cat]?.title || cat]. *)
Definition headerText (steps : list StepSummary.t) (cat : string) : result string :=
  step0 <- deref (nth_error steps 0) ;;
  Ok match categoryDiffAt (StepSummary.categoryDiffs step0) cat with
     | Entry d => str_or (CategoryDiff.title d) cat
     | Other _ => cat
     end.

Definition headerRowOf (steps : list StepSummary.t) : result (list Html) :=
  cells <- mapM (fun cat => t <- headerText steps cat ;; Ok (el "th" [] [Text t]))
                (allCategoriesOf steps) ;;
  Ok (el "th" [style "min-width:120px;"] [Text "Step"] :: cells).

(** [val.before] and [val.after] of a value read from [categoryDiffs]. *)
Definition beforeOf (val : property CategoryDiff.t) : nullable number :=
  match val with
  | Entry d => Val (Delta.before (CategoryDiff.delta d))
  | Other _ => Undefined
  end.

Definition afterOf (val : property CategoryDiff.t) : nullable number :=
  match val with
  | Entry d => Val (Delta.after (CategoryDiff.delta d))
  | Other _ => Undefined
  end.

(** One category cell of the row at position [i]. *)
Definition categoryCell (step : StepSummary.t) (i : nat) (cat : string) : Html :=
  let val := categoryDiffAt (StepSummary.categoryDiffs step) cat in
  if negb (truthy val) then el "td" [] [Text "-"]
  else
    let before := toFixed 0 (times100 (beforeOf val)) in
    let after := toFixed 0 (times100 (afterOf val)) in
    let diff := splice (percentOfDiff val) in
    let icon := trendIcon (orEqual (trendOf val)) in
    let color := trendColor (orEqual (trendOf val)) in
    let bg := scoreColor (afterOf val) in
    el "td" [style "text-align:center; vertical-align:middle;"]
       [el "a" [("href", "step-" ++ nat_digits i ++ ".html"); class "cat-cell";
                style ("border-left: 8px solid " ++ bg ++ ";")]
           [el "span" [style ("color:" ++ scoreColor (beforeOf val))] [Text before];
            el "span" [style "font-size:1.2em;vertical-align:middle;"] [Text "→"];
            el "span" [style ("color:" ++ scoreColor (afterOf val))] [Text after];
            el "br" [] [];
            el "span" [style ("color:" ++ color ++ ";font-weight:bold;")]
               [Text (icon ++ " " ++ diff ++ "%")]]].

(** The row of the step at position [i]. *)
Definition timelineRow (allCategories : list string) (step : StepSummary.t) (i : nat) : Html :=
  el "tr" []
     (el "td" [style "text-align:center;"]
         [el "a" [("href", "step-" ++ nat_digits (i + 1) ++ ".html"); class "step-link"]
             [el "span" [class "step-number"] [Text (nat_digits (i + 1))];
              Text (" " ++ str_or (StepSummary.name step) ("Step " ++ nat_digits i))]]
      :: map (categoryCell step i) allCategories).

Definition timelineRows (steps : list StepSummary.t) : list Html :=
  mapi (timelineRow (allCategoriesOf steps)) steps.

Definition generateTimelineHTML (steps : list StepSummary.t) : result Html :=
  headerRow <- headerRowOf steps ;;
  let rows := timelineRows steps in
  Ok (el "html" []
         [el "head" []
             [el "title" [] [Text "Lighthouse Comparison Summary"];
              el "meta" [("charset", "utf-8")] [];
              el "style" [] [Text timelineCss]];
          el "body" []
             [el "h1" [] [Text "Lighthouse Comparison Summary"];
              renderLegend;
              el "table" []
                 [el "thead" [] [el "tr" [] headerRow];
                  el "tbody" [] rows];
              el "p" [style "color:#5f6368"]
                 [Text "Click on a step to see problem audits only."]]]).

(** ** The driver *)

(** [x?.score ?? null] followed by [!= null]: the score when it is a number. *)
Definition scoreOrNull (audit : property Audit.t) : option number :=
  match scoreOf audit with
  | Val s => Some s
  | Null | Undefined => None
  end.

(** The numeric delta written inline in [main]. *)
Definition numericDelta (numB numA : number) : Delta.t :=
  let diffNum := num_sub numA numB in
  let percentNum :=
    if negb (num_eq numB num_zero)
    then toFixed 1 (num_mul (num_div diffNum numB) num_hundred)
    else "0" in
  let trendNum :=
    if num_eq diffNum num_zero then equal
    else if num_lt diffNum num_zero then better
    else worse in
  Delta.mk numB numA diffNum percentNum trendNum.

(** The callback of [audits.forEach] in [main]. *)
Definition auditDiffStep (beforeLhr afterLhr : LighthouseReport.t)
    (auditDiffs : built AuditDiff.t) (id : string) : result (built AuditDiff.t) :=
  beforeAudit <- auditOf beforeLhr id ;;
  afterAudit <- auditOf afterLhr id ;;
  match scoreOrNull beforeAudit, scoreOrNull afterAudit with
  | Some before, Some after =>
      let numeric :=
        match numericValueOf beforeAudit, numericValueOf afterAudit with
        | Some numB, Some numA => Some (numericDelta numB numA)
        | _, _ => None
        end in
      Ok (assign id (AuditDiff.mk (compareNumbers before after false) id numeric)
                 auditDiffs)
  | _, _ => Ok auditDiffs
  end.

(** Lines 502-518 of [main]: the audit deltas of one pair of reports. *)
Definition auditDiffsOf (beforeLhr afterLhr : LighthouseReport.t)
  : result (built AuditDiff.t) :=
  afterAudits <- deref (LighthouseReport.audits afterLhr) ;;
  forEachM (auditDiffStep beforeLhr afterLhr) (Object_keys afterAudits) emptyObject.

(** The callback of [Object.keys(afterLhr.categories).forEach] in [main],
    which reads [afterLhr.categories[catId]] for a key of that very object:
    it is given the own entry [(catId, cat)]. *)
Definition categoryDiffStep (beforeLhr : LighthouseReport.t)
    (categoryDiffs : built CategoryDiff.t) (entry : string * Category.t)
  : result (built CategoryDiff.t) :=
  let '(catId, cat) := entry in
  beforeCats <- deref (LighthouseReport.categories beforeLhr) ;;
  let beforeScore :=
    match get beforeCats catId with
    | Entry c => Category.score c
    | Other _ => None
    end in
  match beforeScore, Category.score cat with
  | Some b, Some a =>
      Ok (assign catId (CategoryDiff.mk (compareNumbers b a true) (Category.title cat))
                 categoryDiffs)
  | _, _ => Ok categoryDiffs
  end.

(** Lines 520-530 of [main]: the category deltas of one pair of reports. *)
Definition categoryDiffsOf (beforeLhr afterLhr : LighthouseReport.t)
  : result (built CategoryDiff.t) :=
  afterCats <- deref (LighthouseReport.categories afterLhr) ;;
  forEachM (categoryDiffStep beforeLhr) (Object_entries afterCats) emptyObject.

(** [doc.steps || [{ lhr: doc.lhr || doc }]]. *)
Definition stepsOf (doc : Document) : list Step.t :=
  match doc with
  | DocSteps steps => steps
  | DocLhr lhr | DocBare lhr => [Step.mk None lhr]
  end.

(** What [main] has built so far: the [steps] array and the files written
    into the output directory, oldest first. *)
Record State : Type := mkState {
  steps : list StepSummary.t;
  files : list (string * Html)
}.

Definition stepFileName (stepPage : nat) : string :=
  "step-" ++ nat_digits stepPage ++ ".html".

(** The page [main] writes for the pair at position [i]. *)
Definition stepPageOf (i : nat) (beforeStep afterStep : Step.t) : result Html :=
  let beforeLhr := Step.lhr beforeStep in
  let afterLhr := Step.lhr afterStep in
  auditDiffs <- auditDiffsOf beforeLhr afterLhr ;;
  categoryDiffs <- categoryDiffsOf beforeLhr afterLhr ;;
  generateStepHTML
    ("Step " ++ nat_digits (i + 1) ++ ": " ++ opt_str_or (Step.name afterStep) EmptyString)
    beforeLhr afterLhr auditDiffs categoryDiffs.

(** The body of the [for] loop of [main] at index [i]. *)
Definition loopBody (beforeSteps afterSteps : list Step.t) (i : nat) (st : State)
  : State * result unit :=
  match nth_error beforeSteps i, nth_error afterSteps i with
  | Some beforeStep, Some afterStep =>
      let beforeLhr := Step.lhr beforeStep in
      let afterLhr := Step.lhr afterStep in
      match auditDiffsOf beforeLhr afterLhr with
      | Throw m => (st, Throw m)
      | Ok auditDiffs =>
          match categoryDiffsOf beforeLhr afterLhr with
          | Throw m => (st, Throw m)
          | Ok categoryDiffs =>
              let summary :=
                StepSummary.mk
                  (opt_str_or (Step.name afterStep) ("Step " ++ nat_digits (i + 1)))
                  categoryDiffs in
              let st1 := mkState (steps st ++ [summary])%list (files st) in
              let stepPage := i + 1 in
              match
                generateStepHTML
                  ("Step " ++ nat_digits stepPage ++ ": "
                   ++ opt_str_or (Step.name afterStep) EmptyString)
                  beforeLhr afterLhr auditDiffs categoryDiffs
              with
              | Throw m => (st1, Throw m)
              | Ok html =>
                  (mkState (steps st1) (files st1 ++ [(stepFileName stepPage, html)])%list,
                   Ok tt)
              end
          end
      end
  | _, _ => (st, TypeError)
  end.

(** [for (let i = ...; i < ...; i++)] over the indices [idx]. *)
Fixpoint forLoop (body : nat -> State -> State * result unit) (idx : list nat) (st : State)
  : State * result unit :=
  match idx with
  | [] => (st, Ok tt)
  | i :: idx' =>
      match body i st with
      | (st', Ok _) => forLoop body idx' st'
      | (st', Throw m) => (st', Throw m)
      end
  end.

(** [main] after the two documents are parsed and the output directory is
    made, up to the write of [index.html]. *)
Definition main (before after : Document) : State * result unit :=
  let beforeSteps := stepsOf before in
  let afterSteps := stepsOf after in
  let n := Nat.min (List.length beforeSteps) (List.length afterSteps) in
  match forLoop (loopBody beforeSteps afterSteps) (seq 0 n) (mkState [] []) with
  | (st, Throw m) => (st, Throw m)
  | (st, Ok _) =>
      match generateTimelineHTML (steps st) with
      | Throw m => (st, Throw m)
      | Ok html => (mkState (steps st) (files st ++ [("index.html", html)])%list, Ok tt)
      end
  end.

End CompareFlowResults.

(** ** [assertLighthouseFlowResultThresholds] of [lighthouse-helper.ts] *)

Module Flow.
(** The part of a category's [auditRefs] entry that the helper reads. *)
Record AuditRef : Type := mkAuditRef {
  weight : number
}.

Record CategoryData : Type := mkCategoryData {
  score : option number;
  title : string;
  auditRefs : option (list AuditRef)
}.

(** A step of a [FlowResult]: its name and [lhr.categories]. *)
Record Step : Type := mkStep {
  name : option string;
  categories : obj CategoryData
}.
End Flow.

(** [Partial<Record<string, number>>]: a listed category may hold [undefined]. *)
Definition Thresholds := obj (option number).

(** What the helper does, in order: console output and soft expectations.
    A soft expectation records its failure and lets the test go on. *)
Inductive Event : Type :=
| LogValidating (stepName : string)
| WarnNotFound (category stepName : string)
| WarnZeroWeight (category stepName : string)
| ExpectNotNull (score : nullable number)
| LogScore (stepName title category : string) (actualScore threshold : number)
| ExpectAtLeast (stepName title category : string) (actualScore threshold : number).

(** Whether a soft expectation holds; [None] for console output. *)
Definition expectation (e : Event) : option bool :=
  match e with
  | ExpectNotNull score =>
      Some match score with Null => false | _ => true end
  | ExpectAtLeast _ _ _ actualScore threshold => Some (num_ge actualScore threshold)
  | _ => None
  end.

(** The fields the helper reads of [categories[category]], which is a
    category or a member of [Object.prototype]. *)
Definition dataScore (categoryData : property Flow.CategoryData) : nullable number :=
  match categoryData with
  | Entry c => nullable_of_option (Flow.score c)
  | Other _ => Undefined
  end.

Definition dataTitle (categoryData : property Flow.CategoryData) : option string :=
  match categoryData with
  | Entry c => Some (Flow.title c)
  | Other _ => None
  end.

(** [categoryData.auditRefs?.every(ref => ref.weight === 0)], which is
    [undefined] when there is no [auditRefs]. *)
Definition allAuditsWeightZero (categoryData : property Flow.CategoryData) : option bool :=
  match categoryData with
  | Entry c =>
      option_map (forallb (fun ref => num_eq (Flow.weight ref) num_zero)) (Flow.auditRefs c)
  | Other _ => None
  end.

(** [(categoryData.score ?? 0) === 0]. *)
Definition scoreIsZero (categoryData : property Flow.CategoryData) : bool :=
  num_eq match dataScore categoryData with Val s => s | Null | Undefined => num_zero end
         num_zero.

(** The body of the inner loop, for one entry of [thresholds]. *)
Definition checkCategory (stepName : string) (categories : obj Flow.CategoryData)
    (entry : string * option number) : list Event :=
  let '(category, threshold) := entry in
  match threshold with
  | None => []
  | Some threshold =>
      let categoryData := get categories category in
      if negb (truthy categoryData) then [WarnNotFound category stepName]
      else if scoreIsZero categoryData
              && match allAuditsWeightZero categoryData with
                 | Some b => b
                 | None => false
                 end
      then [WarnZeroWeight category stepName]
      else
        let score := dataScore categoryData in
        let title := splice (dataTitle categoryData) in
        ExpectNotNull score
        :: match score with
           | Null => []
           | _ =>
               let actualScore := times100 score in
               [LogScore stepName title category actualScore threshold;
                ExpectAtLeast stepName title category actualScore threshold]
           end
  end.

(** The body of the outer loop, for one step. *)
Definition checkStep (thresholds : Thresholds) (step : Flow.Step) : list Event :=
  let stepName := opt_str_or (Flow.name step) "Unnamed step" in
  LogValidating stepName
  :: flat_map (checkCategory stepName (Flow.categories step)) (Object_entries thresholds).

Definition assertLighthouseFlowResultThresholds (flowResult : list Flow.Step)
    (thresholds : Thresholds) : list Event :=
  flat_map (checkStep thresholds) flowResult.

(** An entry is skipped when nothing is expected of it. *)
Definition skipped (events : list Event) : bool :=
  forallb (fun e => match expectation e with Some _ => false | None => true end) events.

(** ** Page selection in [connectToLighthouseFlow] of [lighthouse-helper.ts] *)

(** [s.includes(sub)]: [sub] occurs in [s] at some position. *)
Fixpoint includes (s sub : string) : bool :=
  if String.prefix sub s then true
  else match s with
       | EmptyString => false
       | String _ s' => includes s' sub
       end.

(** A page of the connected browser, as far as the helper reads it. *)
Module Page.
Record t : Type := mk {
  url : string;
  target : nat
}.
End Page.

(** [allPages.find((page) => page.url().includes(route)) || allPages[0]]:
    the page handed to [startFlow], [undefined] when the browser has no
    page. *)
Definition pickPage (route : string) (allPages : list Page.t) : option Page.t :=
  match find (fun page => includes (Page.url page) route) allPages with
  | Some page => Some page
  | None => nth_error allPages 0
  end.

(** ** The notions the statements use *)

(** "percent == round(((after-before)/before)*100, 1); when before == 0,
    percent == "0" regardless of after", rounding to one decimal being
    [toFixed(1)]. *)
Definition percentOf (Number_toString : number -> string) (before after : number) : string :=
  if num_eq before num_zero then "0"
  else toFixed Number_toString 1
         (num_mul (num_div (num_sub after before) before) num_hundred).

(** The two polarity modes of a delta. *)
Inductive Polarity : Type := scoreMode | numericMode.

Definition isScoreOf (mode : Polarity) : bool :=
  match mode with
  | scoreMode => true
  | numericMode => false
  end.

(** The entry [main] stores in [auditDiffs] for [id], when it stores one:
    both scores are numbers. *)
Definition auditDiffFor (Number_toString : number -> string)
    (beforeAudits afterAudits : obj Audit.t) (id : string) : option AuditDiff.t :=
  match scoreOrNull (get beforeAudits id), scoreOrNull (get afterAudits id) with
  | Some before, Some after =>
      Some (AuditDiff.mk
              (compareNumbers Number_toString before after false) id
              match numericValueOf (get beforeAudits id),
                    numericValueOf (get afterAudits id) with
              | Some numB, Some numA => Some (numericDelta Number_toString numB numA)
              | _, _ => None
              end)
  | _, _ => None
  end.

(** The score of the category [catId], [null] when there is none. *)
Definition categoryScore (categories : obj Category.t) (catId : string) : option number :=
  match get categories catId with
  | Entry c => Category.score c
  | Other _ => None
  end.

(** The entry [main] stores in [categoryDiffs] for [catId], when it stores
    one. *)
Definition categoryDiffFor (Number_toString : number -> string)
    (beforeCats afterCats : obj Category.t) (catId : string) : option CategoryDiff.t :=
  match lookup catId afterCats with
  | Some cat =>
      match categoryScore beforeCats catId, Category.score cat with
      | Some b, Some a =>
          Some (CategoryDiff.mk (compareNumbers Number_toString b a true) (Category.title cat))
      | _, _ => None
      end
  | None => None
  end.

(** Assigning the entries [entryFor] gives, key by key. *)
Definition storeEach {V} (entryFor : string -> option V) (ids : list string) (o : built V)
  : built V :=
  fold_left
    (fun acc id => match entryFor id with Some d => assign id d acc | None => acc end)
    ids o.

(** "carry numeric values and numeric units". *)
Definition hasNumericValueAndUnit (a : Audit.t) : bool :=
  match Audit.numericValue a, Audit.numericUnit a with
  | Some _, Some _ => true
  | _, _ => false
  end.

(** C3 as the specification words it, for one pair of reports: among the
    audits scored on both sides, the numeric delta is there exactly when both
    audits carry a numeric value and a numeric unit. *)
Definition numericDeltaExactlyWithValuesAndUnits (Number_toString : number -> string)
    (beforeLhr afterLhr : LighthouseReport.t) : Prop :=
  forall beforeAudits afterAudits auditDiffs id beforeAudit afterAudit sb sa,
    LighthouseReport.audits beforeLhr = Some beforeAudits ->
    LighthouseReport.audits afterLhr = Some afterAudits ->
    auditDiffsOf Number_toString beforeLhr afterLhr = Ok auditDiffs ->
    lookup id beforeAudits = Some beforeAudit ->
    lookup id afterAudits = Some afterAudit ->
    Audit.score beforeAudit = Val sb ->
    Audit.score afterAudit = Val sa ->
    ((exists d n, auditDiffAt auditDiffs id = StoredDiff d /\ AuditDiff.numeric d = Some n)
     <-> hasNumericValueAndUnit beforeAudit && hasNumericValueAndUnit afterAudit = true).

(** "every contributing check carries zero weight". *)
Definition everyWeightZero (categoryData : Flow.CategoryData) : Prop :=
  forall refs, Flow.auditRefs categoryData = Some refs ->
    Forall (fun ref => num_eq (Flow.weight ref) num_zero = true) refs.

(** C4 as the specification words it, for one step and one threshold: the
    check is skipped exactly when the category is absent from the step or
    every audit reference of the category has zero weight. *)
Definition skippedExactlyWhenAbsentOrWeightless (step : Flow.Step)
    (category : string) (threshold : number) : Prop :=
  let stepName := opt_str_or (Flow.name step) "Unnamed step" in
  skipped (checkCategory stepName (Flow.categories step) (category, Some threshold)) = true
  <-> (lookup category (Flow.categories step) = None
       \/ exists categoryData,
           lookup category (Flow.categories step) = Some categoryData
           /\ everyWeightZero categoryData).

(** "the title taken from the first step that defines a delta for that
    category". *)
Definition firstDefinedTitle (steps : list StepSummary.t) (cat : string) : option string :=
  match
    find (fun step =>
            match lookup cat (own (StepSummary.categoryDiffs step)) with
            | Some _ => true
            | None => false
            end) steps
  with
  | Some step =>
      option_map CategoryDiff.title (lookup cat (own (StepSummary.categoryDiffs step)))
  | None => None
  end.

(** C5 as the specification words it, for one sequence of steps. *)
Definition headerFromFirstDefiningStep (steps : list StepSummary.t) : Prop :=
  forall cat, In cat (allCategoriesOf steps) ->
    headerText steps cat = Ok (opt_str_or (firstDefinedTitle steps cat) cat).

(** An audit whose score is [null] or exactly 1. *)
Definition scoreNullOrOne (a : Audit.t) : Prop :=
  Audit.score a = Null
  \/ exists s, Audit.score a = Val s /\ num_eq s num_one = true.

(** Whether the cell of a step for a category is populated:
    [step.categoryDiffs[cat]] is truthy. *)
Definition hasDelta (step : StepSummary.t) (cat : string) : bool :=
  truthy (categoryDiffAt (StepSummary.categoryDiffs step) cat).

(** The file [main] writes for the pair at position [i] is the page of
    step [i] of the one document against step [i] of the other, named
    [step-<i+1>.html]. *)
Definition writtenForPair (Number_toString : number -> string)
    (Member_toString : string -> string)
    (beforeSteps afterSteps : list Step.t) (i : nat) (file : string * Html) : Prop :=
  exists beforeStep afterStep html,
    nth_error beforeSteps i = Some beforeStep
    /\ nth_error afterSteps i = Some afterStep
    /\ stepPageOf Number_toString Member_toString i beforeStep afterStep = Ok html
    /\ file = ("step-" ++ nat_digits (i + 1) ++ ".html", html).




(** The group an audit reference is filed under: [ref.group || 'Other']. *)
Definition groupKeyOf (ref : AuditRef.t) : string :=
  opt_str_or (AuditRef.group ref) "Other".

(** No audit reference of these categories is filed under the name of a
    member of [Object.prototype]. *)
Definition plainGroups (categories : list Category.t) : Prop :=
  forall cat ref,
    In cat categories -> In ref (Category.auditRefs cat) -> inherits (groupKeyOf ref) = false.


(** A usable title: one that is there and not blank. *)
Definition usableTitle (entry : CategoryGroup.t) : option string :=
  match CategoryGroup.title entry with
  | Some t => match trim t with EmptyString => None | t' => Some t' end
  | None => None
  end.

(** "hidden", in any letter case. *)
Definition isHidden (groupId : string) : bool := String.eqb (toLowerCase groupId) "hidden".

(** The own entry of the snapshot's group metadata for a group identifier. *)
Definition ownGroupEntry (lhr : LighthouseReport.t) (groupId : string)
  : option CategoryGroup.t :=
  match LighthouseReport.categoryGroups lhr with
  | Some groups => lookup groupId groups
  | None => None
  end.

(** The entry [main] pushes on [steps] for the pair at position [i]: the
    name of the after step, or [Step <i+1>], and the category deltas of the
    pair. *)
Definition summaryForPair (Number_toString : number -> string)
    (beforeSteps afterSteps : list Step.t) (i : nat) (summary : StepSummary.t) : Prop :=
  exists beforeStep afterStep,
    nth_error beforeSteps i = Some beforeStep
    /\ nth_error afterSteps i = Some afterStep
    /\ StepSummary.name summary
       = opt_str_or (Step.name afterStep) ("Step " ++ nat_digits (i + 1))
    /\ categoryDiffsOf Number_toString (Step.lhr beforeStep) (Step.lhr afterStep)
       = Ok (StepSummary.categoryDiffs summary).

(** The references of a group that the filter of [renderCategory] keeps. *)
Definition problemRefs (afterAudits : obj Audit.t) (refs : list AuditRef.t) : list AuditRef.t :=
  filter (fun ref => belowPerfect (get afterAudits (AuditRef.id ref))) refs.

(** Whether [lhrBefore.audits[ref.id]] is truthy for a kept reference: an
    audit of the before report, or a member of [Object.prototype]. *)
Definition hasBeforeAudit (beforeAudits : obj Audit.t) (ref : AuditRef.t) : bool :=
  truthy (get beforeAudits (AuditRef.id ref)).

(** Whether a category has an audit that scores below 1. *)
Definition categoryHasProblem (afterAudits : obj Audit.t) (cat : Category.t) : bool :=
  existsb (fun ref => belowPerfect (get afterAudits (AuditRef.id ref)))
          (Category.auditRefs cat).

(** The opposite trend. *)
Definition flipTrend (t : Trend) : Trend :=
  match t with
  | better => worse
  | worse => better
  | equal => equal
  end.

(** A number that compares with zero: anything but NaN. *)
Definition comparable (x : number) : bool :=
  num_eq x num_zero || num_lt x num_zero || num_gt x num_zero.

(** Array indices in ascending order. *)
Definition ascendingIndices (ks : list string) : Prop :=
  exists ns : list N,
    map arrayIndex ks = map Some ns /\ StronglySorted N.le ns.

(** ** Sample documents *)

(** A stand-in for [Number::toString] where a closed term is needed. *)
Definition sampleToString (x : number) : string :=
  match x with
  | S754_nan => "NaN"
  | S754_infinity false => "Infinity"
  | S754_infinity true => "-Infinity"
  | _ => "0"
  end.

(** A stand-in for the source text of a built-in member. *)
Definition sampleMemberToString (k : string) : string :=
  "function " ++ k ++ "() { [native code] }".

(** [n / d] for integer literals: the number a decimal literal denotes. *)
Definition ratio (n d : Z) : number := num_div (num_of_Z n) (num_of_Z d).

Definition lcpBefore : Audit.t :=
  Audit.mk "largest-contentful-paint" "Largest Contentful Paint" (Val (ratio 1 2))
           "numeric" (Some "4.0 s") (Some (num_of_Z 4000)) (Some "millisecond").

Definition lcpAfter : Audit.t :=
  Audit.mk "largest-contentful-paint" "Largest Contentful Paint" (Val (ratio 4 5))
           "numeric" (Some "2.5 s") (Some (num_of_Z 2500)) (Some "millisecond").

(** An audit with a numeric value and no unit. *)
Definition weightBefore : Audit.t :=
  Audit.mk "total-byte-weight" "Avoid enormous network payloads" (Val (ratio 1 2))
           "numeric" None (Some (num_of_Z 4000)) None.

Definition weightAfter : Audit.t :=
  Audit.mk "total-byte-weight" "Avoid enormous network payloads" (Val (ratio 3 5))
           "numeric" None (Some (num_of_Z 2500)) None.

Definition httpsAudit : Audit.t :=
  Audit.mk "is-on-https" "Uses HTTPS" (Val num_one) "binary" None None None.

Definition sampleRefs : list AuditRef.t :=
  [AuditRef.mk "largest-contentful-paint" (Some "metrics") (Some "LCP") None;
   AuditRef.mk "total-byte-weight" (Some "diagnostics") None None;
   AuditRef.mk "is-on-https" None None None].

(** U+00A0, the no-break space, in UTF-8. *)
Definition nbsp : string := String (ascii_of_nat 194) (String (ascii_of_nat 160) EmptyString).

Definition sampleGroups : obj CategoryGroup.t :=
  [("metrics", CategoryGroup.mk (Some "Metrics") None);
   ("hidden", CategoryGroup.mk (Some "  ") None);
   ("seo", CategoryGroup.mk (Some nbsp) None);
   ("budgets", CategoryGroup.mk (Some (nbsp ++ " Budgets " ++ nbsp)) None)].

Definition sampleBefore : LighthouseReport.t :=
  LighthouseReport.mk "12.0.0"
    (Some [("largest-contentful-paint", lcpBefore);
           ("total-byte-weight", weightBefore);
           ("is-on-https", httpsAudit)])
    (Some [("performance",
            Category.mk "performance" "Performance" (Some (ratio 7 10)) sampleRefs)])
    (Some sampleGroups).

Definition sampleAfter : LighthouseReport.t :=
  LighthouseReport.mk "12.0.0"
    (Some [("largest-contentful-paint", lcpAfter);
           ("total-byte-weight", weightAfter);
           ("is-on-https", httpsAudit)])
    (Some [("performance",
            Category.mk "performance" "Performance" (Some (ratio 19 20)) sampleRefs)])
    (Some sampleGroups).

Definition sampleAuditsOf (lhr : LighthouseReport.t) : obj Audit.t :=
  match LighthouseReport.audits lhr with
  | Some audits => audits
  | None => []
  end.

Definition sampleAuditDiffs : built AuditDiff.t :=
  match auditDiffsOf sampleToString sampleBefore sampleAfter with
  | Ok auditDiffs => auditDiffs
  | Throw _ => emptyObject
  end.

(** A category scored 0.5 whose only audit reference has zero weight. *)
Definition weightlessScored : Flow.CategoryData :=
  Flow.mkCategoryData (Some (ratio 1 2)) "SEO" (Some [Flow.mkAuditRef num_zero]).

Definition sampleFlowStep : Flow.Step :=
  Flow.mkStep (Some "Home") [("seo", weightlessScored)].

Definition performanceDiff : CategoryDiff.t :=
  CategoryDiff.mk (compareNumbers sampleToString (ratio 7 10) (ratio 19 20) true) "Performance".

(** Two steps; only the second has a delta for [performance]. *)
Definition lateCategorySteps : list StepSummary.t :=
  [StepSummary.mk "Login" emptyObject;
   StepSummary.mk "Dashboard" (mkBuilt [("performance", performanceDiff)] None)].

(** A before document of two steps and an after document of one. *)
Definition twoStepsBefore : Document :=
  DocSteps [Step.mk (Some "Home") sampleBefore; Step.mk (Some "Checkout") sampleBefore].

Definition oneStepAfter : Document :=
  DocSteps [Step.mk (Some "Home") sampleAfter].

Definition sampleRun : State :=
  fst (main sampleToString sampleMemberToString twoStepsBefore oneStepAfter).

(** A before report without its [audits] and [categories] mappings. *)
Definition emptyBefore : LighthouseReport.t :=
  LighthouseReport.mk "12.0.0" None None None.

(** A before report that has both mappings and knows none of the audits and
    categories of [sampleAfter]. *)
Definition unrelatedBefore : LighthouseReport.t :=
  LighthouseReport.mk "12.0.0" (Some []) (Some []) None.

(** Two steps on each side; the second before step lacks its mappings. *)
Definition brokenSecondBefore : Document :=
  DocSteps [Step.mk (Some "Home") sampleBefore; Step.mk (Some "Checkout") emptyBefore].

Definition twoStepsAfter : Document :=
  DocSteps [Step.mk (Some "Home") sampleAfter; Step.mk None sampleAfter].

Definition brokenRun : State :=
  fst (main sampleToString sampleMemberToString brokenSecondBefore twoStepsAfter).


Definition sampleCategoriesOf (lhr : LighthouseReport.t) : obj Category.t :=
  match LighthouseReport.categories lhr with
  | Some categories => categories
  | None => []
  end.

Definition sampleCategoryDiffs : built CategoryDiff.t :=
  match categoryDiffsOf sampleToString sampleBefore sampleAfter with
  | Ok categoryDiffs => categoryDiffs
  | Throw _ => emptyObject
  end.

Definition sampleStepPage : Html :=
  match generateStepHTML sampleToString sampleMemberToString "Step 1: Home"
                         sampleBefore sampleAfter
                         sampleAuditDiffs sampleCategoryDiffs with
  | Ok html => html
  | Throw _ => Text EmptyString
  end.

(** The run on two single-report documents. *)
Definition singleRun : State :=
  fst (main sampleToString sampleMemberToString (DocLhr sampleBefore) (DocBare sampleAfter)).

(** A report without group metadata. *)
Definition noGroups : LighthouseReport.t :=
  LighthouseReport.mk "12.0.0" (Some []) (Some []) None.

(** References whose groups are named [b], [10] and [2], in that order. *)
Definition numberedRefs : list AuditRef.t :=
  [AuditRef.mk "first" (Some "b") None None;
   AuditRef.mk "second" (Some "10") None None;
   AuditRef.mk "third" (Some "2") None None;
   AuditRef.mk "fourth" (Some "b") None None].

(** A reference filed under the name of a method every object has. *)
Definition constructorRefs : list AuditRef.t :=
  [AuditRef.mk "largest-contentful-paint" (Some "metrics") None None;
   AuditRef.mk "total-byte-weight" (Some "constructor") None None].

(** [sampleAfter] with that reference in its category. *)
Definition constructorAfter : LighthouseReport.t :=
  LighthouseReport.mk "12.0.0"
    (LighthouseReport.audits sampleAfter)
    (Some [("performance",
            Category.mk "performance" "Performance" (Some (ratio 19 20)) constructorRefs)])
    (Some sampleGroups).

(** A reference to an audit named like a method every object has; the after
    report has such an audit, the before report has none. *)
Definition toStringAudit : Audit.t :=
  Audit.mk "toString" "Serialises" (Val (ratio 1 2)) "binary" None None None.

Definition toStringAfter : LighthouseReport.t :=
  LighthouseReport.mk "12.0.0"
    (Some [("toString", toStringAudit)])
    (Some [("performance",
            Category.mk "performance" "Performance" (Some (ratio 19 20))
                        [AuditRef.mk "toString" None None None])])
    None.

(** A step summary whose only delta is keyed [toString], and one without
    any delta. *)
Definition toStringSteps : list StepSummary.t :=
  [StepSummary.mk "Login" (mkBuilt [("toString", performanceDiff)] None);
   StepSummary.mk "Dashboard" emptyObject].

(** Reports whose categories are keyed [__proto__] and [title]. *)
Definition protoBefore : LighthouseReport.t :=
  LighthouseReport.mk "12.0.0" (Some [])
    (Some [("__proto__", Category.mk "__proto__" "Proto" (Some (ratio 7 10)) [])])
    None.

Definition protoAfter : LighthouseReport.t :=
  LighthouseReport.mk "12.0.0" (Some [])
    (Some [("__proto__", Category.mk "__proto__" "Proto" (Some (ratio 19 20)) []);
           ("title", Category.mk "title" "Title" (Some (ratio 1 2)) [])])
    None.

Definition protoCategoryDiffs : built CategoryDiff.t :=
  match categoryDiffsOf sampleToString protoBefore protoAfter with
  | Ok categoryDiffs => categoryDiffs
  | Throw _ => emptyObject
  end.

(** * Properties *)

(** ** Objects and loops *)

Lemma lookup_obj_set_same {V} (k : string) (v : V) (o : obj V) :
  lookup k (obj_set k v o) = Some v.
Proof.
  induction o as [|[k' v'] o IH]; simpl.
  - now rewrite String.eqb_refl.
  - destruct (String.eqb k k') eqn:E; simpl.
    + now rewrite String.eqb_refl.
    + now rewrite E.
Qed.

Lemma lookup_obj_set_other {V} (k k0 : string) (v : V) (o : obj V) :
  k0 <> k -> lookup k0 (obj_set k v o) = lookup k0 o.
Proof.
  intros Hne.
  induction o as [|[k' v'] o IH]; simpl.
  - destruct (String.eqb k0 k) eqn:E; auto.
    apply String.eqb_eq in E. contradiction.
  - destruct (String.eqb k k') eqn:E; simpl.
    + apply String.eqb_eq in E. subst k'.
      destruct (String.eqb k0 k) eqn:E0; auto.
      apply String.eqb_eq in E0. contradiction.
    + destruct (String.eqb k0 k'); auto.
Qed.

Lemma lookup_obj_set {V} (k k0 : string) (v : V) (o : obj V) :
  lookup k0 (obj_set k v o) = if String.eqb k0 k then Some v else lookup k0 o.
Proof.
  destruct (String.eqb k0 k) eqn:E.
  - apply String.eqb_eq in E. subst. apply lookup_obj_set_same.
  - apply lookup_obj_set_other. intros ->. now rewrite String.eqb_refl in E.
Qed.

Lemma lookup_In {V} (k : string) (v : V) (o : obj V) :
  lookup k o = Some v -> In (k, v) o.
Proof.
  induction o as [|[k' v'] o IH]; simpl; [discriminate|].
  destruct (String.eqb k k') eqn:E.
  - apply String.eqb_eq in E. intros [= ->]. subst. now left.
  - intros H. right. auto.
Qed.

Lemma lookup_some_fst {V} (k : string) (o : obj V) :
  In k (map fst o) <-> exists v, lookup k o = Some v.
Proof.
  induction o as [|[k' v'] o IH]; simpl.
  - split; [contradiction | intros [v H]; discriminate H].
  - destruct (String.eqb k k') eqn:E.
    + apply String.eqb_eq in E. subst k'. split; [eauto | now left].
    + rewrite <- IH. split; [|tauto].
      intros [H | H]; [|assumption]. subst k'. now rewrite String.eqb_refl in E.
Qed.

Lemma existsb_eqb_In (k : string) (l : list string) :
  existsb (String.eqb k) l = true <-> In k l.
Proof.
  rewrite existsb_exists. split.
  - intros (x & Hx & E). apply String.eqb_eq in E. now subst.
  - intros H. exists k. split; [assumption | apply String.eqb_refl].
Qed.

Lemma existsb_eqb_false (k : string) (l : list string) :
  existsb (String.eqb k) l = false -> ~ In k l.
Proof.
  intros H Hin. apply existsb_eqb_In in Hin. congruence.
Qed.

Lemma dedupe_acc_ext (seen seen' l : list string) :
  (forall x, In x seen <-> In x seen') -> dedupe_acc seen l = dedupe_acc seen' l.
Proof.
  revert seen seen'. induction l as [|x l IH]; simpl; intros seen seen' H; [reflexivity|].
  assert (E : existsb (String.eqb x) seen = existsb (String.eqb x) seen').
  { destruct (existsb (String.eqb x) seen) eqn:E1, (existsb (String.eqb x) seen') eqn:E2;
      try reflexivity.
    - apply existsb_eqb_In, H, existsb_eqb_In in E1. congruence.
    - apply existsb_eqb_In, H, existsb_eqb_In in E2. congruence. }
  rewrite E. destruct (existsb (String.eqb x) seen').
  - now apply IH.
  - f_equal. apply IH. intros y. simpl. now rewrite H.
Qed.

Lemma dedupe_acc_spec (l : list string) :
  forall seen,
    NoDup (dedupe_acc seen l)
    /\ forall x, In x (dedupe_acc seen l) <-> In x l /\ ~ In x seen.
Proof.
  induction l as [|y l IH]; simpl; intros seen.
  - split; [constructor | intros x; tauto].
  - destruct (existsb (String.eqb y) seen) eqn:E.
    + destruct (IH seen) as [Hnd Hin]. split; [assumption|].
      intros x. rewrite Hin. apply existsb_eqb_In in E.
      split; [tauto|]. intros [[<- | Hx] Hn]; tauto.
    + destruct (IH (y :: seen)) as [Hnd Hin]. split.
      * constructor; [|assumption]. rewrite Hin. simpl. tauto.
      * intros x. simpl. rewrite Hin. simpl.
        assert (Hy : ~ In y seen) by now apply existsb_eqb_false.
        destruct (string_dec y x) as [->|Hne]; [tauto|]. tauto.
Qed.

Lemma dedupe_spec (l : list string) :
  NoDup (dedupe l) /\ forall x, In x (dedupe l) <-> In x l.
Proof.
  unfold dedupe. destruct (dedupe_acc_spec l []) as [Hnd Hin].
  split; [assumption|]. intros x. rewrite Hin. simpl. tauto.
Qed.

(** A list without repetition is its own list of first occurrences. *)
Lemma dedupe_acc_NoDup (l : list string) :
  forall seen, NoDup l -> (forall x, In x l -> ~ In x seen) -> dedupe_acc seen l = l.
Proof.
  induction l as [|y l IH]; simpl; intros seen Hnd Hseen; [reflexivity|].
  inversion Hnd as [|? ? Hy Hnd']; subst.
  destruct (existsb (String.eqb y) seen) eqn:E.
  - apply existsb_eqb_In in E. exfalso. apply (Hseen y); auto.
  - f_equal. apply IH; [assumption|].
    intros x Hx [<- | Hin]; [contradiction|]. apply (Hseen x); auto.
Qed.

Lemma dedupe_NoDup (l : list string) : NoDup l -> dedupe l = l.
Proof.
  intros H. apply dedupe_acc_NoDup; [assumption | intros x _ []].
Qed.

(** *** The order of the own keys *)

Lemma insertIndex_perm (x : N * string) (l : list (N * string)) :
  Permutation (insertIndex x l) (x :: l).
Proof.
  induction l as [|y l IH]; simpl; [reflexivity|].
  destruct (fst x <=? fst y)%N; [reflexivity|].
  rewrite IH. apply perm_swap.
Qed.

Lemma sortIndex_perm (l : list (N * string)) : Permutation (sortIndex l) l.
Proof.
  induction l as [|x l IH]; simpl; [reflexivity|].
  rewrite insertIndex_perm. now constructor.
Qed.

Lemma insertIndex_sorted (x : N * string) (l : list (N * string)) :
  StronglySorted (fun a b => (fst a <= fst b)%N) l ->
  StronglySorted (fun a b => (fst a <= fst b)%N) (insertIndex x l).
Proof.
  induction l as [|y l IH]; simpl; intros Hs.
  - constructor; constructor.
  - inversion Hs as [|? ? Hs' Hall]; subst.
    destruct (fst x <=? fst y)%N eqn:E.
    + apply N.leb_le in E. constructor; [assumption|].
      constructor; [assumption|].
      eapply Forall_impl; [|exact Hall]. intros a Ha. simpl in *. lia.
    + apply N.leb_gt in E. constructor; [now apply IH|].
      apply Forall_forall. intros a Ha.
      apply (Permutation_in _ (insertIndex_perm x l)) in Ha.
      destruct Ha as [<- | Ha]; [lia|].
      rewrite Forall_forall in Hall. now apply Hall.
Qed.

Lemma sortIndex_sorted (l : list (N * string)) :
  StronglySorted (fun a b => (fst a <= fst b)%N) (sortIndex l).
Proof.
  induction l as [|x l IH]; simpl; [constructor | now apply insertIndex_sorted].
Qed.

Lemma indexKeys_snd (ks : list string) :
  map snd (indexKeys ks) = filter isArrayIndex ks.
Proof.
  unfold indexKeys, isArrayIndex.
  induction ks as [|k ks IH]; simpl; [reflexivity|].
  destruct (arrayIndex k); simpl; now rewrite IH.
Qed.

Lemma indexKeys_fst (l : list (N * string)) (ks : list string) :
  (forall x, In x l -> In x (indexKeys ks)) ->
  map arrayIndex (map snd l) = map Some (map fst l).
Proof.
  intros H. induction l as [|[n k] l IH]; simpl; [reflexivity|].
  rewrite IH by (intros; apply H; now right). f_equal.
  specialize (H (n, k) (or_introl eq_refl)).
  unfold indexKeys in H. apply in_flat_map in H. destruct H as (k' & _ & Hk).
  destruct (arrayIndex k') as [n'|] eqn:E; [|contradiction].
  destruct Hk as [Hk | []]. inversion Hk; subst. exact E.
Qed.

Lemma filter_split_perm {A} (f : A -> bool) (l : list A) :
  Permutation (filter f l ++ filter (fun x => negb (f x)) l) l.
Proof.
  induction l as [|x l IH]; simpl; [reflexivity|].
  destruct (f x); simpl.
  - now constructor.
  - rewrite <- Permutation_middle. now constructor.
Qed.

Lemma propertyOrder_perm (ks : list string) : Permutation (propertyOrder ks) ks.
Proof.
  unfold propertyOrder.
  rewrite (Permutation_map snd (sortIndex_perm (indexKeys ks))), indexKeys_snd.
  apply filter_split_perm.
Qed.

(** Keys none of which is an array index keep the order of creation. *)
Lemma propertyOrder_plain (ks : list string) :
  Forall (fun k => isArrayIndex k = false) ks -> propertyOrder ks = ks.
Proof.
  intros H. unfold propertyOrder.
  assert (Hi : indexKeys ks = []).
  { unfold indexKeys. induction H as [|k ks Hk H IH]; [reflexivity|]. simpl.
    unfold isArrayIndex in Hk. destruct (arrayIndex k); [discriminate | exact IH]. }
  rewrite Hi. simpl.
  induction H as [|k ks Hk H IH]; [reflexivity|]. simpl. rewrite Hk. simpl.
  f_equal. apply IH.
  unfold indexKeys in *. simpl in Hi. unfold isArrayIndex in Hk.
  destruct (arrayIndex k); [discriminate | exact Hi].
Qed.

Lemma Object_keys_In {V} (k : string) (o : obj V) :
  In k (Object_keys o) <-> exists v, lookup k o = Some v.
Proof.
  unfold Object_keys. rewrite <- lookup_some_fst.
  rewrite <- (proj2 (dedupe_spec (map fst o)) k).
  split; apply Permutation_in; [|symmetry]; apply propertyOrder_perm.
Qed.

Lemma Object_keys_NoDup {V} (o : obj V) : NoDup (Object_keys o).
Proof.
  unfold Object_keys.
  apply (Permutation_NoDup (l := dedupe (map fst o))).
  - symmetry. apply propertyOrder_perm.
  - apply dedupe_spec.
Qed.

Lemma lookup_keys {V} (k : string) (v : V) (o : obj V) :
  lookup k o = Some v -> In k (Object_keys o).
Proof.
  intros H. apply Object_keys_In. eauto.
Qed.

Lemma lookup_none_keys {V} (k : string) (o : obj V) :
  lookup k o = None -> ~ In k (Object_keys o).
Proof.
  intros H Hin. apply Object_keys_In in Hin. destruct Hin as [v Hv]. congruence.
Qed.

Lemma Object_entries_fst {V} (o : obj V) : map fst (Object_entries o) = Object_keys o.
Proof.
  unfold Object_entries.
  assert (H : forall k, In k (Object_keys o) -> exists v, lookup k o = Some v)
    by (intros k; apply Object_keys_In).
  induction (Object_keys o) as [|k ks IH]; simpl; [reflexivity|].
  destruct (H k (or_introl eq_refl)) as [v ->]. simpl. f_equal.
  apply IH. intros; apply H; now right.
Qed.

Lemma Object_entries_In {V} (k : string) (v : V) (o : obj V) :
  In (k, v) (Object_entries o) <-> lookup k o = Some v.
Proof.
  unfold Object_entries. rewrite in_flat_map. split.
  - intros (k' & _ & H). destruct (lookup k' o) as [v'|] eqn:E; [|contradiction].
    destruct H as [H | []]. inversion H; subst. exact E.
  - intros H. exists k. split; [eapply lookup_keys; eauto|]. rewrite H. now left.
Qed.

Lemma Object_values_In {V} (v : V) (o : obj V) :
  In v (Object_values o) <-> exists k, lookup k o = Some v.
Proof.
  unfold Object_values. rewrite in_map_iff. split.
  - intros ([k v'] & Heq & Hin). simpl in Heq. subst v'.
    exists k. now apply Object_entries_In.
  - intros [k H]. exists (k, v). split; [reflexivity | now apply Object_entries_In].
Qed.

(** The reads. *)
Lemma get_entry {V} (o : obj V) (k : string) (v : V) :
  get o k = Entry v <-> lookup k o = Some v.
Proof.
  unfold get. destruct (lookup k o); split; congruence.
Qed.

Lemma get_other {V} (o : obj V) (k : string) (t : bool) :
  get o k = Other t <-> lookup k o = None /\ t = inherits k.
Proof.
  unfold get. destruct (lookup k o).
  - split; [discriminate | intros [H _]; discriminate H].
  - split; [intros [= <-]; auto | intros [_ ->]; reflexivity].
Qed.

(** A property of the accumulator that every round of a loop keeps holds
    when the loop returns. *)
Lemma forEachM_invariant {A S} (f : S -> A -> result S) (I : S -> Prop) (l : list A) :
  (forall s x s', In x l -> I s -> f s x = Ok s' -> I s') ->
  forall s s', I s -> forEachM f l s = Ok s' -> I s'.
Proof.
  induction l as [|x l IH]; simpl; intros Hstep s s' Hs H.
  - now inversion H; subst.
  - destruct (f s x) as [s1|m] eqn:E; simpl in H; [|discriminate].
    apply IH with (s := s1); eauto.
Qed.

(** A loop whose every round returns does return. *)
Lemma forEachM_total {A S} (f : S -> A -> result S) (l : list A) :
  (forall s x, In x l -> exists s', f s x = Ok s') ->
  forall s, exists s', forEachM f l s = Ok s'.
Proof.
  induction l as [|x l IH]; simpl; intros Hstep s.
  - now exists s.
  - destruct (Hstep s x) as [s1 E]; [now left|]. rewrite E. simpl.
    apply IH. intros; apply Hstep; now right.
Qed.

Lemma forEachM_pure {A S} (f : S -> A -> result S) (g : S -> A -> S) (l : list A) :
  (forall s x, In x l -> f s x = Ok (g s x)) ->
  forall s, forEachM f l s = Ok (fold_left g l s).
Proof.
  induction l as [|x l IH]; simpl; intros Hf s; [reflexivity|].
  rewrite Hf by now left. simpl. apply IH. intros; apply Hf; now right.
Qed.

Lemma mapM_pure {A B} (f : A -> result B) (g : A -> B) (l : list A) :
  (forall x, In x l -> f x = Ok (g x)) -> mapM f l = Ok (map g l).
Proof.
  induction l as [|x l IH]; simpl; intros Hf; [reflexivity|].
  rewrite Hf by now left. simpl. rewrite IH; [reflexivity|].
  intros; apply Hf; now right.
Qed.

Lemma filterM_pure {A} (f : A -> result bool) (g : A -> bool) (l : list A) :
  (forall x, In x l -> f x = Ok (g x)) -> filterM f l = Ok (filter g l).
Proof.
  induction l as [|x l IH]; simpl; intros Hf; [reflexivity|].
  rewrite Hf by now left. simpl. rewrite IH by (intros; apply Hf; now right).
  simpl. now destruct (g x).
Qed.

Lemma existsM_pure {A} (f : A -> result bool) (g : A -> bool) (l : list A) :
  (forall x, In x l -> f x = Ok (g x)) -> existsM f l = Ok (existsb g l).
Proof.
  induction l as [|x l IH]; simpl; intros Hf; [reflexivity|].
  rewrite Hf by now left. simpl. destruct (g x); [reflexivity|].
  apply IH. intros; apply Hf; now right.
Qed.

Lemma mapM_total {A B} (f : A -> result B) (l : list A) :
  (forall x, In x l -> exists y, f x = Ok y) -> exists ys, mapM f l = Ok ys.
Proof.
  induction l as [|x l IH]; simpl; intros Hf; [eexists; reflexivity|].
  destruct (Hf x) as [y ->]; [now left|]. simpl.
  destruct IH as [ys ->]; [intros; apply Hf; now right|]. simpl. eexists; reflexivity.
Qed.

Lemma mapM_length {A B} (f : A -> result B) (l : list A) (ys : list B) :
  mapM f l = Ok ys -> List.length ys = List.length l.
Proof.
  revert ys. induction l as [|x l IH]; simpl; intros ys H.
  - now inversion H.
  - destruct (f x); simpl in H; [|discriminate].
    destruct (mapM f l); simpl in H; [|discriminate].
    inversion H; subst. simpl. now rewrite (IH _ eq_refl).
Qed.

Lemma filterM_In {A} (f : A -> result bool) (l l' : list A) (x : A) :
  filterM f l = Ok l' -> In x l' -> f x = Ok true.
Proof.
  revert l'. induction l as [|y l IH]; simpl; intros l' H Hx.
  - inversion H; subst. contradiction.
  - destruct (f y) as [b|] eqn:Ey; simpl in H; [|discriminate].
    destruct (filterM f l) as [ys|]; simpl in H; [|discriminate].
    inversion H; subst l'; clear H.
    destruct b; [destruct Hx as [<- | Hx]|]; eauto.
Qed.

(** A filter that returns has asked every element. *)
Lemma filterM_ok_all {A} (f : A -> result bool) (l l' : list A) :
  filterM f l = Ok l' -> forall x, In x l -> exists b, f x = Ok b.
Proof.
  revert l'. induction l as [|y l IH]; simpl; intros l' H x Hx; [contradiction|].
  destruct (f y) as [b|] eqn:Ey; simpl in H; [|discriminate].
  destruct (filterM f l) as [ys|] eqn:El; simpl in H; [|discriminate].
  destruct Hx as [<- | Hx]; [eauto | eapply IH; eauto].
Qed.

(** *** Objects the program builds *)

Lemma own_assign {V} (k k0 : string) (v : V) (o : built V) :
  lookup k0 (own (assign k v o)) =
  if negb (String.eqb k "__proto__") && String.eqb k0 k then Some v
  else lookup k0 (own o).
Proof.
  unfold assign. destruct (String.eqb k "__proto__"); simpl; [reflexivity|].
  apply lookup_obj_set.
Qed.

Lemma proto_assign {V} (k : string) (v : V) (o : built V) :
  proto (assign k v o) = if String.eqb k "__proto__" then Some v else proto o.
Proof.
  unfold assign. now destruct (String.eqb k "__proto__").
Qed.

Lemma own_storeEach {V} (entryFor : string -> option V) (ids : list string) :
  forall (o : built V) (k : string),
    lookup k (own (storeEach entryFor ids o)) =
    if negb (String.eqb k "__proto__") && existsb (String.eqb k) ids
    then match entryFor k with Some d => Some d | None => lookup k (own o) end
    else lookup k (own o).
Proof.
  unfold storeEach.
  induction ids as [|id ids IH]; intros o k; cbn [fold_left existsb].
  - now rewrite andb_false_r.
  - rewrite IH. clear IH.
    destruct (String.eqb k "__proto__") eqn:Ep; cbn [negb andb].
    + destruct (entryFor id) as [d|]; [|reflexivity].
      rewrite own_assign.
      destruct (String.eqb id "__proto__") eqn:Ei; cbn [negb andb]; [reflexivity|].
      destruct (String.eqb k id) eqn:E; [|reflexivity].
      apply String.eqb_eq in E. subst id. congruence.
    + destruct (String.eqb k id) eqn:E; cbn [orb].
      * apply String.eqb_eq in E. subst id.
        destruct (entryFor k) as [d|] eqn:Ek.
        -- rewrite own_assign, Ep, String.eqb_refl. cbn [negb andb].
           now destruct (existsb (String.eqb k) ids).
        -- now destruct (existsb (String.eqb k) ids).
      * destruct (entryFor id) as [d|]; [|reflexivity].
        rewrite own_assign, E, andb_false_r. reflexivity.
Qed.

Lemma proto_storeEach {V} (entryFor : string -> option V) (ids : list string) :
  forall o : built V,
    proto (storeEach entryFor ids o) =
    if existsb (String.eqb "__proto__") ids
    then match entryFor "__proto__" with Some d => Some d | None => proto o end
    else proto o.
Proof.
  unfold storeEach.
  induction ids as [|id ids IH]; intros o; cbn [fold_left existsb]; [reflexivity|].
  rewrite IH. clear IH.
  destruct (String.eqb "__proto__" id) eqn:E; cbn [orb].
  - apply String.eqb_eq in E. subst id.
    destruct (entryFor "__proto__") as [d|] eqn:Ek.
    + now destruct (existsb (String.eqb "__proto__") ids).
    + now destruct (existsb (String.eqb "__proto__") ids).
  - destruct (entryFor id) as [d|]; [|reflexivity].
    rewrite proto_assign. rewrite String.eqb_sym in E. rewrite E. reflexivity.
Qed.

(** What was stored under a key is what a read of the key gives, the key
    [__proto__] included, and a read gives a stored delta for no other
    key. *)
Lemma auditDiffAt_storeEach (entryFor : string -> option AuditDiff.t) (ids : list string)
    (k : string) (d : AuditDiff.t) :
  auditDiffAt (storeEach entryFor ids emptyObject) k = StoredDiff d
  <-> In k ids /\ entryFor k = Some d.
Proof.
  unfold auditDiffAt. rewrite own_storeEach, proto_storeEach. cbn [emptyObject own proto lookup].
  rewrite <- existsb_eqb_In.
  destruct (String.eqb k "__proto__") eqn:Ep; cbn [negb andb].
  - apply String.eqb_eq in Ep. subst k.
    destruct (existsb (String.eqb "__proto__") ids).
    + destruct (entryFor "__proto__") as [p|].
      * split; [intros [= ->]; auto | intros [_ [= ->]]; reflexivity].
      * split; [discriminate | intros [_ H]; discriminate H].
    + split; [discriminate | intros [H _]; discriminate H].
  - destruct (existsb (String.eqb k) ids).
    + destruct (entryFor k) as [d'|].
      * split; [intros [= ->]; auto | intros [_ [= ->]]; reflexivity].
      * split; [|intros [_ H]; discriminate H].
        destruct (if existsb (String.eqb "__proto__") ids
                  then match entryFor "__proto__" with Some d0 => Some d0 | None => None end
                  else None) as [p|]; [|discriminate].
        destruct (deltaField (AuditDiff.delta p) k); [discriminate|].
        destruct (String.eqb k "id"); [discriminate|].
        destruct (String.eqb k "numeric"); [|discriminate].
        destruct (AuditDiff.numeric p); discriminate.
    + split; [|intros [H _]; discriminate H].
      destruct (if existsb (String.eqb "__proto__") ids
                then match entryFor "__proto__" with Some d0 => Some d0 | None => None end
                else None) as [p|]; [|discriminate].
      destruct (deltaField (AuditDiff.delta p) k); [discriminate|].
      destruct (String.eqb k "id"); [discriminate|].
      destruct (String.eqb k "numeric"); [|discriminate].
      destruct (AuditDiff.numeric p); discriminate.
Qed.

Lemma categoryDiffAt_storeEach (entryFor : string -> option CategoryDiff.t)
    (ids : list string) (k : string) (d : CategoryDiff.t) :
  categoryDiffAt (storeEach entryFor ids emptyObject) k = Entry d
  <-> In k ids /\ entryFor k = Some d.
Proof.
  unfold categoryDiffAt. rewrite own_storeEach, proto_storeEach.
  cbn [emptyObject own proto lookup].
  rewrite <- existsb_eqb_In.
  destruct (String.eqb k "__proto__") eqn:Ep; cbn [negb andb].
  - apply String.eqb_eq in Ep. subst k.
    destruct (existsb (String.eqb "__proto__") ids).
    + destruct (entryFor "__proto__") as [p|].
      * split; [intros [= ->]; auto | intros [_ [= ->]]; reflexivity].
      * split; [discriminate | intros [_ H]; discriminate H].
    + split; [discriminate | intros [H _]; discriminate H].
  - destruct (existsb (String.eqb k) ids).
    + destruct (entryFor k) as [d'|].
      * split; [intros [= ->]; auto | intros [_ [= ->]]; reflexivity].
      * split; [|intros [_ H]; discriminate H].
        destruct (if existsb (String.eqb "__proto__") ids
                  then match entryFor "__proto__" with Some d0 => Some d0 | None => None end
                  else None) as [p|]; [|discriminate].
        destruct (deltaField (CategoryDiff.delta p) k); [discriminate|].
        destruct (String.eqb k "title"); discriminate.
    + split; [|intros [H _]; discriminate H].
      destruct (if existsb (String.eqb "__proto__") ids
                then match entryFor "__proto__" with Some d0 => Some d0 | None => None end
                else None) as [p|]; [|discriminate].
      destruct (deltaField (CategoryDiff.delta p) k); [discriminate|].
      destruct (String.eqb k "title"); discriminate.
Qed.

(** Without a key [__proto__] the object keeps [Object.prototype]: a read
    gives the own entry, or what every object has. *)
Lemma categoryDiffAt_plain (categoryDiffs : built CategoryDiff.t) (k : string) :
  proto categoryDiffs = None ->
  categoryDiffAt categoryDiffs k
  = match lookup k (own categoryDiffs) with
    | Some d => Entry d
    | None => Other (inherits k)
    end.
Proof.
  intros H. unfold categoryDiffAt. now rewrite H.
Qed.

Section Properties.

(** The two functions of the language that the model is parametric in. *)
Variable Number_toString : number -> string.
Variable Member_toString : string -> string.

(** ** Rounding *)

(** [scaled_round f m e] is the integer nearest to [m * 2^e * 10^f], the
    larger one on a tie: [n <= m * 2^e * 10^f + 1/2 < n + 1]. *)
Lemma scaled_round_nearest (f : nat) (m : positive) (e : Z) :
  let n := scaled_round f m e in
  match e with
  | Zneg p =>
      (2 ^ (Zpos p + 1) * n <= 2 * (Zpos m * 10 ^ Z.of_nat f) + 2 ^ Zpos p
       < 2 ^ (Zpos p + 1) * (n + 1))%Z
  | _ => n = (Zpos m * 10 ^ Z.of_nat f * 2 ^ e)%Z
  end.
Proof.
  unfold scaled_round. destruct e as [|p|p]; try reflexivity.
  assert (Hd : (0 < 2 ^ (Zpos p + 1))%Z) by (apply Z.pow_pos_nonneg; lia).
  split.
  - now apply Z.mul_div_le.
  - now apply Z.mul_succ_div_gt.
Qed.

(** Below [10^21] a finite number is printed by [toFixed(f)] as the digits
    of that nearest integer, with its sign. *)
Lemma toFixed_finite (f : nat) (s : bool) (m : positive) (e : Z) :
  ge_1e21 m e = false ->
  toFixed Number_toString f (S754_finite s m e) =
  (if s then "-" else "") ++ fixed_digits f (scaled_round f m e).
Proof.
  intros H. unfold toFixed. now rewrite H.
Qed.

(** The scenarios of section 8 of the specification. *)
Example category_delta_scenario :
  compareNumbers Number_toString (ratio 7 10) (ratio 19 20) true =
  Delta.mk (ratio 7 10) (ratio 19 20) (num_sub (ratio 19 20) (ratio 7 10)) "35.7" better.
Proof. reflexivity. Qed.

Example numeric_metric_scenario :
  let d := numericDelta Number_toString (num_of_Z 4000) (num_of_Z 2500) in
  Delta.diff d = num_of_Z (-1500) /\ Delta.trend d = better /\ Delta.percent d = "-37.5".
Proof. repeat split. Qed.

Example zero_division_scenario (after : number) :
  Delta.percent (compareNumbers Number_toString num_zero after true) = "0".
Proof. reflexivity. Qed.

(** ** What the two delta loops compute *)

Lemma auditDiffStep_stores (beforeLhr afterLhr : LighthouseReport.t)
    (beforeAudits afterAudits : obj Audit.t) (s : built AuditDiff.t) (id : string) :
  LighthouseReport.audits beforeLhr = Some beforeAudits ->
  LighthouseReport.audits afterLhr = Some afterAudits ->
  auditDiffStep Number_toString beforeLhr afterLhr s id =
  Ok match auditDiffFor Number_toString beforeAudits afterAudits id with
     | Some d => assign id d s
     | None => s
     end.
Proof.
  intros Hb Ha. unfold auditDiffStep, auditOf, auditDiffFor. rewrite Hb, Ha. simpl.
  destruct (scoreOrNull (get beforeAudits id)); [|reflexivity].
  destruct (scoreOrNull (get afterAudits id)); reflexivity.
Qed.

Lemma auditDiffsOf_stores (beforeLhr afterLhr : LighthouseReport.t)
    (beforeAudits afterAudits : obj Audit.t) :
  LighthouseReport.audits beforeLhr = Some beforeAudits ->
  LighthouseReport.audits afterLhr = Some afterAudits ->
  auditDiffsOf Number_toString beforeLhr afterLhr =
  Ok (storeEach (auditDiffFor Number_toString beforeAudits afterAudits)
                (Object_keys afterAudits) emptyObject).
Proof.
  intros Hb Ha. unfold auditDiffsOf. rewrite Ha. simpl.
  apply forEachM_pure. intros s x _. now apply auditDiffStep_stores.
Qed.

Lemma categoryDiffStep_stores (beforeLhr : LighthouseReport.t)
    (beforeCats afterCats : obj Category.t) (s : built CategoryDiff.t)
    (catId : string) (cat : Category.t) :
  LighthouseReport.categories beforeLhr = Some beforeCats ->
  lookup catId afterCats = Some cat ->
  categoryDiffStep Number_toString beforeLhr s (catId, cat) =
  Ok match categoryDiffFor Number_toString beforeCats afterCats catId with
     | Some d => assign catId d s
     | None => s
     end.
Proof.
  intros Hb Hcat. unfold categoryDiffStep, categoryDiffFor, categoryScore.
  rewrite Hb, Hcat. simpl.
  destruct (get beforeCats catId) as [c|t]; [|reflexivity].
  destruct (Category.score c); [|reflexivity].
  destruct (Category.score cat); reflexivity.
Qed.

Lemma forEachM_entries (beforeLhr : LighthouseReport.t)
    (beforeCats afterCats : obj Category.t) (entries : list (string * Category.t)) :
  LighthouseReport.categories beforeLhr = Some beforeCats ->
  (forall k v, In (k, v) entries -> lookup k afterCats = Some v) ->
  forall s,
    forEachM (categoryDiffStep Number_toString beforeLhr) entries s =
    Ok (storeEach (categoryDiffFor Number_toString beforeCats afterCats)
                  (map fst entries) s).
Proof.
  intros Hb. induction entries as [|[k v] entries IH]; intros Hin s; [reflexivity|].
  cbn [forEachM map fst].
  rewrite (@categoryDiffStep_stores beforeLhr beforeCats afterCats s k v Hb)
    by (apply Hin; now left).
  cbn [bind]. rewrite IH by (intros; apply Hin; now right). reflexivity.
Qed.

Lemma categoryDiffsOf_stores (beforeLhr afterLhr : LighthouseReport.t)
    (beforeCats afterCats : obj Category.t) :
  LighthouseReport.categories beforeLhr = Some beforeCats ->
  LighthouseReport.categories afterLhr = Some afterCats ->
  categoryDiffsOf Number_toString beforeLhr afterLhr =
  Ok (storeEach (categoryDiffFor Number_toString beforeCats afterCats)
                (Object_keys afterCats) emptyObject).
Proof.
  intros Hb Ha. unfold categoryDiffsOf. rewrite Ha. simpl.
  rewrite forEachM_entries with (beforeCats := beforeCats) (afterCats := afterCats).
  - now rewrite Object_entries_fst.
  - exact Hb.
  - intros k v. apply Object_entries_In.
Qed.

(** The loops return with nothing stored when the after report has no
    audit, or no category, whatever the before report lacks; with one they
    read the mapping of the before report. *)
Lemma auditDiffsOf_cases (beforeLhr afterLhr : LighthouseReport.t)
    (afterAudits : obj Audit.t) :
  LighthouseReport.audits afterLhr = Some afterAudits ->
  LighthouseReport.audits beforeLhr = None ->
  auditDiffsOf Number_toString beforeLhr afterLhr
  = match Object_keys afterAudits with
    | [] => Ok emptyObject
    | _ => TypeError
    end.
Proof.
  intros Ha Hb. unfold auditDiffsOf. rewrite Ha. cbn [deref bind].
  destruct (Object_keys afterAudits) as [|k ks]; [reflexivity|].
  cbn [forEachM]. unfold auditDiffStep, auditOf. rewrite Hb. reflexivity.
Qed.

Lemma categoryDiffsOf_cases (beforeLhr afterLhr : LighthouseReport.t)
    (afterCats : obj Category.t) :
  LighthouseReport.categories afterLhr = Some afterCats ->
  LighthouseReport.categories beforeLhr = None ->
  categoryDiffsOf Number_toString beforeLhr afterLhr
  = match Object_keys afterCats with
    | [] => Ok emptyObject
    | _ => TypeError
    end.
Proof.
  intros Ha Hb. unfold categoryDiffsOf. rewrite Ha. cbn [deref bind].
  rewrite <- Object_entries_fst.
  destruct (Object_entries afterCats) as [|[k v] es]; [reflexivity|].
  cbn [forEachM map]. unfold categoryDiffStep. rewrite Hb. reflexivity.
Qed.

Lemma scoreOrNull_some (p : property Audit.t) (s : number) :
  scoreOrNull p = Some s <-> exists a, p = Entry a /\ Audit.score a = Val s.
Proof.
  unfold scoreOrNull, scoreOf. destruct p as [a|t].
  - destruct (Audit.score a) as [| |s'] eqn:E.
    + split; [discriminate | intros (a' & [= <-] & H); congruence].
    + split; [discriminate | intros (a' & [= <-] & H); congruence].
    + split; [intros [= <-]; eauto | intros (a' & [= <-] & H); congruence].
  - split; [discriminate | intros (a' & H & _); discriminate H].
Qed.

(** The delta stored for an audit is the one of the two scores of that
    audit, with the numeric delta of its two values when both are there. *)
Lemma auditDiffFor_spec (beforeAudits afterAudits : obj Audit.t) (id : string)
    (d : AuditDiff.t) :
  auditDiffFor Number_toString beforeAudits afterAudits id = Some d
  <-> exists b a sb sa,
        lookup id beforeAudits = Some b /\ lookup id afterAudits = Some a
        /\ Audit.score b = Val sb /\ Audit.score a = Val sa
        /\ d = AuditDiff.mk
                 (compareNumbers Number_toString sb sa false) id
                 match Audit.numericValue b, Audit.numericValue a with
                 | Some numB, Some numA => Some (numericDelta Number_toString numB numA)
                 | _, _ => None
                 end.
Proof.
  unfold auditDiffFor. split.
  - destruct (scoreOrNull (get beforeAudits id)) as [sb|] eqn:Eb; [|discriminate].
    destruct (scoreOrNull (get afterAudits id)) as [sa|] eqn:Ea; [|discriminate].
    apply scoreOrNull_some in Eb, Ea.
    destruct Eb as (b & Hb & Hsb). destruct Ea as (a & Ha & Hsa).
    rewrite Hb, Ha. cbn [numericValueOf]. intros [= <-].
    exists b, a, sb, sa. apply get_entry in Hb, Ha. auto.
  - intros (b & a & sb & sa & Hb & Ha & Hsb & Hsa & ->).
    apply get_entry in Hb, Ha. rewrite Hb, Ha.
    unfold scoreOrNull, scoreOf. rewrite Hsb, Hsa. reflexivity.
Qed.

Lemma categoryDiffFor_spec (beforeCats afterCats : obj Category.t) (catId : string)
    (d : CategoryDiff.t) :
  categoryDiffFor Number_toString beforeCats afterCats catId = Some d
  <-> exists b a sb sa,
        lookup catId beforeCats = Some b /\ lookup catId afterCats = Some a
        /\ Category.score b = Some sb /\ Category.score a = Some sa
        /\ d = CategoryDiff.mk (compareNumbers Number_toString sb sa true) (Category.title a).
Proof.
  unfold categoryDiffFor, categoryScore, get. split.
  - destruct (lookup catId afterCats) as [a|]; [|discriminate].
    destruct (lookup catId beforeCats) as [b|]; [|discriminate].
    destruct (Category.score b) as [sb|] eqn:Esb; [|discriminate].
    destruct (Category.score a) as [sa|] eqn:Esa; [|discriminate].
    intros [= <-]. exists b, a, sb, sa. auto.
  - intros (b & a & sb & sa & -> & -> & -> & -> & ->). reflexivity.
Qed.

(** What a run of the audit loop that returns has stored. *)
Lemma auditDiffsOf_entry (beforeLhr afterLhr : LighthouseReport.t)
    (auditDiffs : built AuditDiff.t) (id : string) (d : AuditDiff.t) :
  auditDiffsOf Number_toString beforeLhr afterLhr = Ok auditDiffs ->
  auditDiffAt auditDiffs id = StoredDiff d ->
  exists beforeAudits afterAudits,
    LighthouseReport.audits beforeLhr = Some beforeAudits
    /\ LighthouseReport.audits afterLhr = Some afterAudits
    /\ auditDiffFor Number_toString beforeAudits afterAudits id = Some d.
Proof.
  intros Hrun Hd.
  destruct (LighthouseReport.audits afterLhr) as [aA|] eqn:Ha.
  2:{ unfold auditDiffsOf in Hrun. rewrite Ha in Hrun. discriminate Hrun. }
  destruct (LighthouseReport.audits beforeLhr) as [bA|] eqn:Hb.
  - rewrite (auditDiffsOf_stores _ _ Hb Ha) in Hrun.
    inversion Hrun; subst auditDiffs; clear Hrun.
    apply auditDiffAt_storeEach in Hd. exists bA, aA. destruct Hd as [_ Hd]. auto.
  - rewrite (auditDiffsOf_cases _ _ Ha Hb) in Hrun.
    destruct (Object_keys aA); [|discriminate Hrun].
    inversion Hrun; subst auditDiffs. discriminate Hd.
Qed.

Lemma categoryDiffsOf_entry (beforeLhr afterLhr : LighthouseReport.t)
    (categoryDiffs : built CategoryDiff.t) (catId : string) (d : CategoryDiff.t) :
  categoryDiffsOf Number_toString beforeLhr afterLhr = Ok categoryDiffs ->
  categoryDiffAt categoryDiffs catId = Entry d ->
  exists beforeCats afterCats,
    LighthouseReport.categories beforeLhr = Some beforeCats
    /\ LighthouseReport.categories afterLhr = Some afterCats
    /\ categoryDiffFor Number_toString beforeCats afterCats catId = Some d.
Proof.
  intros Hrun Hd.
  destruct (LighthouseReport.categories afterLhr) as [aC|] eqn:Ha.
  2:{ unfold categoryDiffsOf in Hrun. rewrite Ha in Hrun. discriminate Hrun. }
  destruct (LighthouseReport.categories beforeLhr) as [bC|] eqn:Hb.
  - rewrite (categoryDiffsOf_stores _ _ Hb Ha) in Hrun.
    inversion Hrun; subst categoryDiffs; clear Hrun.
    apply categoryDiffAt_storeEach in Hd. exists bC, aC. destruct Hd as [_ Hd]. auto.
  - rewrite (categoryDiffsOf_cases _ _ Ha Hb) in Hrun.
    destruct (Object_keys aC); [|discriminate Hrun].
    inversion Hrun; subst categoryDiffs. discriminate Hd.
Qed.

(** An audit scored on both sides has its delta stored. *)
Lemma auditDiffsOf_stored (beforeLhr afterLhr : LighthouseReport.t)
    (beforeAudits afterAudits : obj Audit.t) (auditDiffs : built AuditDiff.t) :
  LighthouseReport.audits beforeLhr = Some beforeAudits ->
  LighthouseReport.audits afterLhr = Some afterAudits ->
  auditDiffsOf Number_toString beforeLhr afterLhr = Ok auditDiffs ->
  forall id d,
    auditDiffAt auditDiffs id = StoredDiff d
    <-> auditDiffFor Number_toString beforeAudits afterAudits id = Some d.
Proof.
  intros Hb Ha Hrun id d.
  rewrite (auditDiffsOf_stores _ _ Hb Ha) in Hrun.
  inversion Hrun; subst auditDiffs; clear Hrun.
  rewrite auditDiffAt_storeEach. split; [intros [_ H]; exact H|].
  intros H. split; [|assumption].
  apply auditDiffFor_spec in H. destruct H as (b & a & sb & sa & _ & Hka & _).
  eapply lookup_keys; eauto.
Qed.

Lemma categoryDiffsOf_stored (beforeLhr afterLhr : LighthouseReport.t)
    (beforeCats afterCats : obj Category.t) (categoryDiffs : built CategoryDiff.t) :
  LighthouseReport.categories beforeLhr = Some beforeCats ->
  LighthouseReport.categories afterLhr = Some afterCats ->
  categoryDiffsOf Number_toString beforeLhr afterLhr = Ok categoryDiffs ->
  forall catId d,
    categoryDiffAt categoryDiffs catId = Entry d
    <-> categoryDiffFor Number_toString beforeCats afterCats catId = Some d.
Proof.
  intros Hb Ha Hrun catId d.
  rewrite (categoryDiffsOf_stores _ _ Hb Ha) in Hrun.
  inversion Hrun; subst categoryDiffs; clear Hrun.
  rewrite categoryDiffAt_storeEach. split; [intros [_ H]; exact H|].
  intros H. split; [|assumption].
  apply categoryDiffFor_spec in H. destruct H as (b & a & sb & sa & _ & Hka & _).
  eapply lookup_keys; eauto.
Qed.

(** ** Percent (C1) *)

Lemma compareNumbers_percent (before after : number) (isScore : bool) :
  Delta.percent (compareNumbers Number_toString before after isScore)
  = percentOf Number_toString before after.
Proof.
  unfold percentOf, compareNumbers. simpl. now destruct (num_eq before num_zero).
Qed.

Lemma numericDelta_percent (numB numA : number) :
  Delta.percent (numericDelta Number_toString numB numA)
  = percentOf Number_toString numB numA.
Proof.
  unfold percentOf, numericDelta. simpl. now destruct (num_eq numB num_zero).
Qed.

(** C1.  Every delta the comparison produces -- by [compareNumbers], by the
    inline numeric delta of [main], and so the score delta of an audit, its
    numeric delta and the score delta of a category that [main] stores --
    has as [before] and [after] the two numbers compared and as [percent]
    the string [toFixed(1)] gives for [((after - before) / before) * 100]
    when [before] is not zero, and ["0"] when [before] is zero, whatever
    [after] is: 0.70 against 0.95 gives ["35.7"]. *)
Theorem C1_percent_of_every_delta :
  (forall before after isScore,
      let d := compareNumbers Number_toString before after isScore in
      Delta.before d = before /\ Delta.after d = after
      /\ Delta.percent d = percentOf Number_toString before after)
  /\ (forall numB numA,
      let d := numericDelta Number_toString numB numA in
      Delta.before d = numB /\ Delta.after d = numA
      /\ Delta.percent d = percentOf Number_toString numB numA)
  /\ (forall beforeLhr afterLhr auditDiffs id d,
      auditDiffsOf Number_toString beforeLhr afterLhr = Ok auditDiffs ->
      auditDiffAt auditDiffs id = StoredDiff d ->
      exists beforeAudits afterAudits b a sb sa,
        LighthouseReport.audits beforeLhr = Some beforeAudits
        /\ LighthouseReport.audits afterLhr = Some afterAudits
        /\ lookup id beforeAudits = Some b /\ lookup id afterAudits = Some a
        /\ Audit.score b = Val sb /\ Audit.score a = Val sa
        /\ Delta.before (AuditDiff.delta d) = sb
        /\ Delta.after (AuditDiff.delta d) = sa
        /\ Delta.percent (AuditDiff.delta d) = percentOf Number_toString sb sa
        /\ forall n, AuditDiff.numeric d = Some n ->
             exists numB numA,
               Audit.numericValue b = Some numB /\ Audit.numericValue a = Some numA
               /\ Delta.before n = numB /\ Delta.after n = numA
               /\ Delta.percent n = percentOf Number_toString numB numA)
  /\ (forall beforeLhr afterLhr categoryDiffs catId d,
      categoryDiffsOf Number_toString beforeLhr afterLhr = Ok categoryDiffs ->
      categoryDiffAt categoryDiffs catId = Entry d ->
      exists beforeCats afterCats b a sb sa,
        LighthouseReport.categories beforeLhr = Some beforeCats
        /\ LighthouseReport.categories afterLhr = Some afterCats
        /\ lookup catId beforeCats = Some b /\ lookup catId afterCats = Some a
        /\ Category.score b = Some sb /\ Category.score a = Some sa
        /\ Delta.before (CategoryDiff.delta d) = sb
        /\ Delta.after (CategoryDiff.delta d) = sa
        /\ Delta.percent (CategoryDiff.delta d) = percentOf Number_toString sb sa)
  /\ (forall before after,
      num_eq before num_zero = true -> percentOf Number_toString before after = "0")
  /\ (forall before after,
      num_eq before num_zero = false ->
      percentOf Number_toString before after
      = toFixed Number_toString 1
          (num_mul (num_div (num_sub after before) before) num_hundred))
  /\ percentOf Number_toString (ratio 7 10) (ratio 19 20) = "35.7"
  /\ percentOf Number_toString (num_of_Z 4000) (num_of_Z 2500) = "-37.5".
Proof.
  split; [|split; [|split; [|split; [|split; [|split; [|split]]]]]].
  - intros before after isScore d. subst d.
    split; [reflexivity|]. split; [reflexivity | apply compareNumbers_percent].
  - intros numB numA d. subst d.
    split; [reflexivity|]. split; [reflexivity | apply numericDelta_percent].
  - intros beforeLhr afterLhr auditDiffs id d Hrun Hd.
    destruct (auditDiffsOf_entry _ _ _ Hrun Hd) as (bA & aA & Hb & Ha & Hfor).
    apply auditDiffFor_spec in Hfor.
    destruct Hfor as (b & a & sb & sa & Hkb & Hka & Hsb & Hsa & ->).
    exists bA, aA, b, a, sb, sa. cbn [AuditDiff.delta AuditDiff.numeric].
    repeat (split; [assumption || reflexivity || apply compareNumbers_percent|]).
    intros n Hn.
    destruct (Audit.numericValue b) as [numB|]; [|discriminate Hn].
    destruct (Audit.numericValue a) as [numA|]; [|discriminate Hn].
    inversion Hn; subst n. exists numB, numA.
    repeat (split; [reflexivity|]). apply numericDelta_percent.
  - intros beforeLhr afterLhr categoryDiffs catId d Hrun Hd.
    destruct (categoryDiffsOf_entry _ _ _ Hrun Hd) as (bC & aC & Hb & Ha & Hfor).
    apply categoryDiffFor_spec in Hfor.
    destruct Hfor as (b & a & sb & sa & Hkb & Hka & Hsb & Hsa & ->).
    exists bC, aC, b, a, sb, sa. cbn [CategoryDiff.delta].
    repeat (split; [assumption || reflexivity|]). apply compareNumbers_percent.
  - intros before after E. unfold percentOf. now rewrite E.
  - intros before after E. unfold percentOf. now rewrite E.
  - reflexivity.
  - reflexivity.
Qed.

(** ** Trend (C2) *)

Lemma num_cases (diff : number) :
  (num_eq diff num_zero = true -> num_gt diff num_zero = false /\ num_lt diff num_zero = false)
  /\ (num_gt diff num_zero = true -> num_eq diff num_zero = false /\ num_lt diff num_zero = false)
  /\ (num_lt diff num_zero = true -> num_eq diff num_zero = false /\ num_gt diff num_zero = false).
Proof.
  destruct diff as [s|s| |s m e]; try destruct s; cbn; repeat split; congruence.
Qed.

(** C2.  The trend of a delta is a function of its [diff] and of the
    polarity mode alone: [equal] when [diff] is zero in either mode;
    [better] for a positive and [worse] for a negative [diff] in score mode;
    [better] for a negative and [worse] for a positive [diff] in
    numeric-metric mode.  The numeric delta written inline in [main] is
    classified in numeric-metric mode. *)
Theorem C2_trend_is_a_function_of_diff_and_mode :
  exists classify : number -> Polarity -> Trend,
    (forall before after mode,
        let d := compareNumbers Number_toString before after (isScoreOf mode) in
        Delta.diff d = num_sub after before
        /\ Delta.trend d = classify (Delta.diff d) mode)
    /\ (forall numB numA,
        let d := numericDelta Number_toString numB numA in
        Delta.diff d = num_sub numA numB
        /\ Delta.trend d = classify (Delta.diff d) numericMode)
    /\ (forall diff mode, num_eq diff num_zero = true -> classify diff mode = equal)
    /\ (forall diff, num_gt diff num_zero = true -> classify diff scoreMode = better)
    /\ (forall diff, num_lt diff num_zero = true -> classify diff scoreMode = worse)
    /\ (forall diff, num_lt diff num_zero = true -> classify diff numericMode = better)
    /\ (forall diff, num_gt diff num_zero = true -> classify diff numericMode = worse).
Proof.
  exists (fun diff mode =>
            if num_eq diff num_zero then equal
            else if (if isScoreOf mode then num_gt diff num_zero else num_lt diff num_zero)
                 then better
                 else worse).
  repeat split.
  - intros diff mode E. now rewrite E.
  - intros diff H. destruct (num_cases diff) as (_ & Hgt & _).
    destruct (Hgt H) as [E _]. simpl. now rewrite E, H.
  - intros diff H. destruct (num_cases diff) as (_ & _ & Hlt).
    destruct (Hlt H) as [E G]. simpl. now rewrite E, G.
  - intros diff H. destruct (num_cases diff) as (_ & _ & Hlt).
    destruct (Hlt H) as [E _]. simpl. now rewrite E, H.
  - intros diff H. destruct (num_cases diff) as (_ & Hgt & _).
    destruct (Hgt H) as [E L]. simpl. now rewrite E, L.
Qed.

(** ** The numeric delta (C3) *)

(** The score delta of an audit is built by [compareNumbers(before, after)]
    with [isScore] left at its default [false]: its trend is classified in
    numeric-metric mode. *)
Remark audit_score_delta_polarity
    (beforeLhr afterLhr : LighthouseReport.t) (beforeAudits afterAudits : obj Audit.t)
    (auditDiffs : built AuditDiff.t) (id : string) (beforeAudit afterAudit : Audit.t)
    (sb sa : number) :
  LighthouseReport.audits beforeLhr = Some beforeAudits ->
  LighthouseReport.audits afterLhr = Some afterAudits ->
  auditDiffsOf Number_toString beforeLhr afterLhr = Ok auditDiffs ->
  lookup id beforeAudits = Some beforeAudit ->
  lookup id afterAudits = Some afterAudit ->
  Audit.score beforeAudit = Val sb ->
  Audit.score afterAudit = Val sa ->
  exists d,
    auditDiffAt auditDiffs id = StoredDiff d
    /\ AuditDiff.delta d = compareNumbers Number_toString sb sa false
    /\ AuditDiff.numeric d =
       match Audit.numericValue beforeAudit, Audit.numericValue afterAudit with
       | Some numB, Some numA => Some (numericDelta Number_toString numB numA)
       | _, _ => None
       end.
Proof.
  intros Hb Ha Hrun Hkb Hka Hsb Hsa.
  exists (AuditDiff.mk
            (compareNumbers Number_toString sb sa false) id
            match Audit.numericValue beforeAudit, Audit.numericValue afterAudit with
            | Some numB, Some numA => Some (numericDelta Number_toString numB numA)
            | _, _ => None
            end).
  split; [|split; reflexivity].
  apply (auditDiffsOf_stored _ _ Hb Ha Hrun).
  apply auditDiffFor_spec. exists beforeAudit, afterAudit, sb, sa. auto.
Qed.

(** C3, amended.  For an audit of [after.audits] whose before and after
    scores are both numbers, [main] stores a delta, and that delta carries a
    numeric delta exactly when both audits have a numeric value, whatever
    their units; the numeric delta is then the one of the two values, with
    [diff = after - before] and lower-is-better polarity. *)
Theorem C3_numeric_delta_exactly_with_numeric_values
    (beforeLhr afterLhr : LighthouseReport.t) (beforeAudits afterAudits : obj Audit.t)
    (auditDiffs : built AuditDiff.t) (id : string) (beforeAudit afterAudit : Audit.t)
    (sb sa : number) :
  LighthouseReport.audits beforeLhr = Some beforeAudits ->
  LighthouseReport.audits afterLhr = Some afterAudits ->
  auditDiffsOf Number_toString beforeLhr afterLhr = Ok auditDiffs ->
  lookup id beforeAudits = Some beforeAudit ->
  lookup id afterAudits = Some afterAudit ->
  Audit.score beforeAudit = Val sb ->
  Audit.score afterAudit = Val sa ->
  exists d,
    auditDiffAt auditDiffs id = StoredDiff d
    /\ AuditDiff.numeric d =
       match Audit.numericValue beforeAudit, Audit.numericValue afterAudit with
       | Some numB, Some numA => Some (numericDelta Number_toString numB numA)
       | _, _ => None
       end
    /\ forall n, AuditDiff.numeric d = Some n ->
         Delta.diff n = num_sub (Delta.after n) (Delta.before n)
         /\ Some (Delta.before n) = Audit.numericValue beforeAudit
         /\ Some (Delta.after n) = Audit.numericValue afterAudit
         /\ Delta.trend n =
            if num_eq (Delta.diff n) num_zero then equal
            else if num_lt (Delta.diff n) num_zero then better else worse.
Proof.
  intros Hb Ha Hrun Hkb Hka Hsb Hsa.
  destruct (audit_score_delta_polarity _ _ _ Hb Ha Hrun Hkb Hka Hsb Hsa)
    as (d & Hd & _ & Hnum).
  exists d. split; [assumption|]. split; [assumption|].
  rewrite Hnum.
  destruct (Audit.numericValue beforeAudit) as [numB|];
    [destruct (Audit.numericValue afterAudit) as [numA|]|];
    intros n Hn; inversion Hn; subst n.
  simpl. auto.
Qed.

(** ** Which deltas exist, and their polarity *)

(** X1.  The score delta [main] stores for an audit is classified with
    lower-is-better polarity ([compareNumbers] is called without [isScore]):
    an audit whose score rises gets the trend [worse], one whose score falls
    gets [better]. *)
Theorem audit_score_rise_is_stored_as_worse
    (beforeLhr afterLhr : LighthouseReport.t) (beforeAudits afterAudits : obj Audit.t)
    (auditDiffs : built AuditDiff.t) (id : string) (beforeAudit afterAudit : Audit.t)
    (sb sa : number) :
  LighthouseReport.audits beforeLhr = Some beforeAudits ->
  LighthouseReport.audits afterLhr = Some afterAudits ->
  auditDiffsOf Number_toString beforeLhr afterLhr = Ok auditDiffs ->
  lookup id beforeAudits = Some beforeAudit ->
  lookup id afterAudits = Some afterAudit ->
  Audit.score beforeAudit = Val sb ->
  Audit.score afterAudit = Val sa ->
  exists d,
    auditDiffAt auditDiffs id = StoredDiff d
    /\ Delta.before (AuditDiff.delta d) = sb
    /\ Delta.after (AuditDiff.delta d) = sa
    /\ Delta.diff (AuditDiff.delta d) = num_sub sa sb
    /\ (num_gt (num_sub sa sb) num_zero = true -> Delta.trend (AuditDiff.delta d) = worse)
    /\ (num_lt (num_sub sa sb) num_zero = true -> Delta.trend (AuditDiff.delta d) = better)
    /\ (num_eq (num_sub sa sb) num_zero = true -> Delta.trend (AuditDiff.delta d) = equal).
Proof.
  intros Hb Ha Hrun Hkb Hka Hsb Hsa.
  destruct (audit_score_delta_polarity _ _ _ Hb Ha Hrun Hkb Hka Hsb Hsa)
    as (d & Hd & Hdelta & _).
  exists d. split; [assumption|]. rewrite Hdelta. unfold compareNumbers. simpl.
  repeat split.
  - intros H. destruct (num_cases (num_sub sa sb)) as (_ & Hgt & _).
    destruct (Hgt H) as [E L]. now rewrite E, L.
  - intros H. destruct (num_cases (num_sub sa sb)) as (_ & _ & Hlt).
    destruct (Hlt H) as [E _]. now rewrite E, H.
  - intros H. now rewrite H.
Qed.

(** X3.  With the audit mappings of both reports in place, [auditDiffs] has
    an entry for an identifier exactly when the identifier is in both
    mappings with a score that is a number on both sides; the entry carries
    its own key as [id]. *)
Theorem auditDiffs_entries
    (beforeLhr afterLhr : LighthouseReport.t) (beforeAudits afterAudits : obj Audit.t)
    (auditDiffs : built AuditDiff.t) :
  LighthouseReport.audits beforeLhr = Some beforeAudits ->
  LighthouseReport.audits afterLhr = Some afterAudits ->
  auditDiffsOf Number_toString beforeLhr afterLhr = Ok auditDiffs ->
  (forall id,
      (exists d, auditDiffAt auditDiffs id = StoredDiff d)
      <-> (exists b a sb sa,
              lookup id beforeAudits = Some b /\ lookup id afterAudits = Some a
              /\ Audit.score b = Val sb /\ Audit.score a = Val sa))
  /\ (forall id d, auditDiffAt auditDiffs id = StoredDiff d -> AuditDiff.id d = id).
Proof.
  intros Hb Ha Hrun. split.
  - intros id. split.
    + intros [d Hd].
      apply (auditDiffsOf_stored _ _ Hb Ha Hrun), auditDiffFor_spec in Hd.
      destruct Hd as (b & a & sb & sa & H1 & H2 & H3 & H4 & _).
      exists b, a, sb, sa. auto.
    + intros (b & a & sb & sa & H1 & H2 & H3 & H4).
      eexists. apply (auditDiffsOf_stored _ _ Hb Ha Hrun).
      apply auditDiffFor_spec. exists b, a, sb, sa. eauto.
  - intros id d Hd.
    apply (auditDiffsOf_stored _ _ Hb Ha Hrun), auditDiffFor_spec in Hd.
    destruct Hd as (b & a & sb & sa & _ & _ & _ & _ & ->). reflexivity.
Qed.

(** X4.  With the category mappings of both reports in place,
    [categoryDiffs] has an entry for a category exactly when the category is
    in both mappings with a score that is not [null] on both sides; the
    entry has the title of the after category, the two scores as [before]
    and [after], and higher-is-better polarity: a rising score is [better]. *)
Theorem categoryDiffs_entries
    (beforeLhr afterLhr : LighthouseReport.t) (beforeCats afterCats : obj Category.t)
    (categoryDiffs : built CategoryDiff.t) :
  LighthouseReport.categories beforeLhr = Some beforeCats ->
  LighthouseReport.categories afterLhr = Some afterCats ->
  categoryDiffsOf Number_toString beforeLhr afterLhr = Ok categoryDiffs ->
  forall catId,
    ((exists d, categoryDiffAt categoryDiffs catId = Entry d)
     <-> (exists b a sb sa,
             lookup catId beforeCats = Some b /\ lookup catId afterCats = Some a
             /\ Category.score b = Some sb /\ Category.score a = Some sa))
    /\ (forall d b a sb sa,
          categoryDiffAt categoryDiffs catId = Entry d ->
          lookup catId beforeCats = Some b -> lookup catId afterCats = Some a ->
          Category.score b = Some sb -> Category.score a = Some sa ->
          CategoryDiff.title d = Category.title a
          /\ Delta.before (CategoryDiff.delta d) = sb
          /\ Delta.after (CategoryDiff.delta d) = sa
          /\ (num_gt (num_sub sa sb) num_zero = true ->
              Delta.trend (CategoryDiff.delta d) = better)
          /\ (num_lt (num_sub sa sb) num_zero = true ->
              Delta.trend (CategoryDiff.delta d) = worse)).
Proof.
  intros Hb Ha Hrun catId. split.
  - split.
    + intros [d Hd].
      apply (categoryDiffsOf_stored _ _ Hb Ha Hrun), categoryDiffFor_spec in Hd.
      destruct Hd as (b & a & sb & sa & H1 & H2 & H3 & H4 & _).
      exists b, a, sb, sa. auto.
    + intros (b & a & sb & sa & H1 & H2 & H3 & H4).
      eexists. apply (categoryDiffsOf_stored _ _ Hb Ha Hrun).
      apply categoryDiffFor_spec. exists b, a, sb, sa. eauto.
  - intros d b a sb sa Hd Hkb Hka Hsb Hsa.
    apply (categoryDiffsOf_stored _ _ Hb Ha Hrun), categoryDiffFor_spec in Hd.
    destruct Hd as (b' & a' & sb' & sa' & H1 & H2 & H3 & H4 & ->).
    assert (b' = b) by congruence. assert (a' = a) by congruence. subst b' a'.
    assert (sb' = sb) by congruence. assert (sa' = sa) by congruence. subst sb' sa'.
    simpl. repeat split.
    + intros H. destruct (num_cases (num_sub sa sb)) as (_ & Hgt & _).
      destruct (Hgt H) as [E _]. now rewrite E, H.
    + intros H. destruct (num_cases (num_sub sa sb)) as (_ & _ & Hlt).
      destruct (Hlt H) as [E G]. now rewrite E, G.
Qed.

(** ** Thresholds (C4) *)

Lemma forallb_weight_zero (refs : list Flow.AuditRef) :
  forallb (fun ref => num_eq (Flow.weight ref) num_zero) refs = true
  <-> Forall (fun ref => num_eq (Flow.weight ref) num_zero = true) refs.
Proof.
  rewrite forallb_forall, Forall_forall. reflexivity.
Qed.

(** What the helper does with a category the step has. *)
Lemma checkCategory_own (stepName : string) (categories : obj Flow.CategoryData)
    (category : string) (threshold : number) (cd : Flow.CategoryData) :
  lookup category categories = Some cd ->
  checkCategory stepName categories (category, Some threshold)
  = if num_eq match Flow.score cd with Some s => s | None => num_zero end num_zero
       && match Flow.auditRefs cd with
          | Some refs => forallb (fun ref => num_eq (Flow.weight ref) num_zero) refs
          | None => false
          end
    then [WarnZeroWeight category stepName]
    else ExpectNotNull (nullable_of_option (Flow.score cd))
         :: match Flow.score cd with
            | Some s =>
                [LogScore stepName (Flow.title cd) category (num_mul s num_hundred) threshold;
                 ExpectAtLeast stepName (Flow.title cd) category
                               (num_mul s num_hundred) threshold]
            | None => []
            end.
Proof.
  intros Hcat. unfold checkCategory.
  rewrite (proj2 (get_entry categories category cd) Hcat).
  cbn [truthy negb]. unfold scoreIsZero, allAuditsWeightZero, dataScore, dataTitle.
  destruct (Flow.score cd) as [s|]; destruct (Flow.auditRefs cd) as [refs|]; reflexivity.
Qed.

(** What it does with a category the step lacks. *)
Lemma checkCategory_missing (stepName : string) (categories : obj Flow.CategoryData)
    (category : string) (threshold : number) :
  lookup category categories = None ->
  checkCategory stepName categories (category, Some threshold)
  = if inherits category
    then [ExpectNotNull Undefined;
          LogScore stepName "undefined" category NaN threshold;
          ExpectAtLeast stepName "undefined" category NaN threshold]
    else [WarnNotFound category stepName].
Proof.
  intros Hcat. unfold checkCategory, get. rewrite Hcat.
  destruct (inherits category); reflexivity.
Qed.

(** C4, amended.  An entry of [thresholds] that holds [undefined] does
    nothing.  Otherwise, for a category that the step has or whose
    identifier names no member of [Object.prototype], the check is skipped
    exactly when the category is absent from the step, or its score is
    [null] or zero and it has audit references that all carry zero weight.
    In every other case a soft expectation that the score is not [null] is
    made, and when the score is a number a soft expectation that the score
    times 100 is at least the threshold follows it, and only then.  Soft
    expectations do not stop the run: the events of every step and entry are
    part of it. *)
Theorem C4_threshold_check_skipped_or_performed
    (stepName : string) (categories : obj Flow.CategoryData)
    (category : string) (threshold : number) :
  (lookup category categories = None -> inherits category = false) ->
  let events := checkCategory stepName categories (category, Some threshold) in
  checkCategory stepName categories (category, None) = []
  /\ (skipped events = true
      <-> (lookup category categories = None
           \/ exists categoryData,
               lookup category categories = Some categoryData
               /\ (Flow.score categoryData = None
                   \/ exists s, Flow.score categoryData = Some s
                                /\ num_eq s num_zero = true)
               /\ exists refs,
                   Flow.auditRefs categoryData = Some refs
                   /\ Forall (fun ref => num_eq (Flow.weight ref) num_zero = true) refs))
  /\ (skipped events = false ->
      exists categoryData,
        lookup category categories = Some categoryData
        /\ In (ExpectNotNull (nullable_of_option (Flow.score categoryData))) events
        /\ expectation (ExpectNotNull (nullable_of_option (Flow.score categoryData)))
           = Some match Flow.score categoryData with Some _ => true | None => false end
        /\ (forall s, Flow.score categoryData = Some s ->
              In (ExpectAtLeast stepName (Flow.title categoryData) category
                                (num_mul s num_hundred) threshold) events
              /\ expectation (ExpectAtLeast stepName (Flow.title categoryData) category
                                            (num_mul s num_hundred) threshold)
                 = Some (num_ge (num_mul s num_hundred) threshold))
        /\ (Flow.score categoryData = None ->
              forall n t c a th, ~ In (ExpectAtLeast n t c a th) events))
  /\ (forall (flowResult : list Flow.Step) (thresholds : Thresholds) (step : Flow.Step)
             (entry : string * option number),
        In step flowResult -> In entry (Object_entries thresholds) ->
        incl (checkCategory (opt_str_or (Flow.name step) "Unnamed step")
                            (Flow.categories step) entry)
             (assertLighthouseFlowResultThresholds flowResult thresholds)).
Proof.
  intros Hplain events. split; [reflexivity|]. split; [|split].
  - subst events.
    destruct (lookup category categories) as [cd|] eqn:Hcat.
    + rewrite (checkCategory_own _ _ _ _ Hcat).
      destruct (Flow.auditRefs cd) as [refs|] eqn:Hrefs.
      * destruct (num_eq match Flow.score cd with Some s => s | None => num_zero end num_zero)
          eqn:Hz; cbn [andb].
        -- destruct (forallb (fun ref => num_eq (Flow.weight ref) num_zero) refs) eqn:Hall.
           ++ split; [intros _|reflexivity]. right. exists cd. split; [reflexivity|]. split.
              ** destruct (Flow.score cd) as [s|]; [right; now exists s | now left].
              ** exists refs. split; [exact Hrefs|]. now apply forallb_weight_zero.
           ++ split; [simpl; discriminate|].
              intros [H | (cd' & Hcd & _ & refs' & Hr & Hall')]; [discriminate|].
              inversion Hcd; subst cd'. rewrite Hrefs in Hr. inversion Hr; subst refs'.
              apply forallb_weight_zero in Hall'. congruence.
        -- split; [simpl; discriminate|].
           intros [H | (cd' & Hcd & Hs & _)]; [discriminate|].
           inversion Hcd; subst cd'.
           destruct Hs as [Hs | (s & Hs & Hs0)]; rewrite Hs in Hz.
           ++ discriminate Hz.
           ++ congruence.
      * rewrite andb_false_r. split; [simpl; discriminate|].
        intros [H | (cd' & Hcd & _ & refs' & Hr & _)]; [discriminate|].
        inversion Hcd; subst cd'. congruence.
    + rewrite (checkCategory_missing _ _ _ _ Hcat), (Hplain eq_refl).
      split; [intros _; now left | reflexivity].
  - subst events.
    destruct (lookup category categories) as [cd|] eqn:Hcat.
    2:{ rewrite (checkCategory_missing _ _ _ _ Hcat), (Hplain eq_refl). simpl. discriminate. }
    rewrite (checkCategory_own _ _ _ _ Hcat).
    destruct (_ && _); [simpl; discriminate|].
    intros _. exists cd. split; [reflexivity|]. split; [now left|]. split; [|split].
    + now destruct (Flow.score cd).
    + intros s Hs. rewrite Hs. simpl. auto.
    + intros Hs. rewrite Hs. intros n t c a th [H | []]. discriminate H.
  - intros flowResult thresholds step entry Hstep Hentry e He.
    unfold assertLighthouseFlowResultThresholds. apply in_flat_map.
    exists step. split; [assumption|]. unfold checkStep. right.
    apply in_flat_map. exists entry. split; assumption.
Qed.

(** ** What the threshold helper expects *)

Lemma num_ge_NaN (threshold : number) : num_ge NaN threshold = false.
Proof. now destruct threshold as [?|?| |? ? ?]. Qed.

(** X12.  Every soft expectation the helper makes belongs to a step of the
    flow result and to an entry of [thresholds] for which
    [categories[category]] is truthy on that step: a category of the step,
    or a member of [Object.prototype] when the step has no such category.
    It is either the not-null expectation on the score read from it or the
    comparison of that score times 100 with the entry's threshold.  For a
    category of the step these are the category's score and title; for an
    inherited member the score is [undefined]: the not-null expectation
    holds and the comparison, of NaN with the threshold, fails.  With no
    threshold, or no step, nothing is expected at all, and one validation
    line is logged per step. *)
Theorem expectations_come_from_listed_present_categories
    (flowResult : list Flow.Step) (thresholds : Thresholds) :
  (forall e,
      In e (assertLighthouseFlowResultThresholds flowResult thresholds) ->
      expectation e <> None ->
      exists step category threshold,
        In step flowResult
        /\ In (category, Some threshold) (Object_entries thresholds)
        /\ truthy (get (Flow.categories step) category) = true
        /\ ((exists categoryData,
               lookup category (Flow.categories step) = Some categoryData
               /\ (e = ExpectNotNull (nullable_of_option (Flow.score categoryData))
                   \/ exists s,
                       Flow.score categoryData = Some s
                       /\ e = ExpectAtLeast (opt_str_or (Flow.name step) "Unnamed step")
                                            (Flow.title categoryData) category
                                            (num_mul s num_hundred) threshold))
            \/ (lookup category (Flow.categories step) = None
                /\ inherits category = true
                /\ (e = ExpectNotNull Undefined
                    \/ e = ExpectAtLeast (opt_str_or (Flow.name step) "Unnamed step")
                                         "undefined" category NaN threshold))))
  /\ (forall step category threshold,
        In step flowResult ->
        In (category, Some threshold) (Object_entries thresholds) ->
        lookup category (Flow.categories step) = None ->
        inherits category = true ->
        let stepName := opt_str_or (Flow.name step) "Unnamed step" in
        In (ExpectNotNull Undefined)
           (assertLighthouseFlowResultThresholds flowResult thresholds)
        /\ In (ExpectAtLeast stepName "undefined" category NaN threshold)
              (assertLighthouseFlowResultThresholds flowResult thresholds)
        /\ expectation (ExpectNotNull Undefined) = Some true
        /\ expectation (ExpectAtLeast stepName "undefined" category NaN threshold)
           = Some false)
  /\ assertLighthouseFlowResultThresholds [sampleFlowStep] [("constructor", Some (num_of_Z 90))]
     = [LogValidating "Home";
        ExpectNotNull Undefined;
        LogScore "Home" "undefined" "constructor" NaN (num_of_Z 90);
        ExpectAtLeast "Home" "undefined" "constructor" NaN (num_of_Z 90)]
  /\ skipped (assertLighthouseFlowResultThresholds flowResult []) = true
  /\ assertLighthouseFlowResultThresholds [] thresholds = []
  /\ List.length (filter (fun e => match e with LogValidating _ => true | _ => false end)
                         (assertLighthouseFlowResultThresholds flowResult thresholds))
     = List.length flowResult.
Proof.
  split; [|split; [|split; [reflexivity|split; [|split]]]].
  - intros e Hin Hexp. unfold assertLighthouseFlowResultThresholds in Hin.
    apply in_flat_map in Hin. destruct Hin as (step & Hstep & Hin).
    unfold checkStep in Hin. destruct Hin as [<- | Hin]; [now contradiction Hexp|].
    apply in_flat_map in Hin. destruct Hin as ([category threshold] & Hentry & Hin).
    destruct threshold as [threshold|]; [|contradiction].
    exists step, category, threshold. split; [assumption|]. split; [assumption|].
    destruct (lookup category (Flow.categories step)) as [cd|] eqn:Hcat.
    + rewrite (checkCategory_own _ _ _ _ Hcat) in Hin.
      split; [unfold get; now rewrite Hcat|]. left. exists cd. split; [reflexivity|].
      destruct (_ && _).
      { destruct Hin as [<- | []]. now contradiction Hexp. }
      destruct Hin as [<- | Hin]; [now left|]. right.
      destruct (Flow.score cd) as [s|]; [|contradiction].
      destruct Hin as [<- | [<- | []]]; [now contradiction Hexp|].
      exists s. auto.
    + rewrite (checkCategory_missing _ _ _ _ Hcat) in Hin.
      unfold get. rewrite Hcat. cbn [truthy].
      destruct (inherits category).
      * split; [reflexivity|]. right. split; [reflexivity|]. split; [reflexivity|].
        destruct Hin as [<- | [<- | [<- | []]]]; [now left | now contradiction Hexp | now right].
      * destruct Hin as [<- | []]. now contradiction Hexp.
  - intros step category threshold Hstep Hentry Hcat Hinh stepName.
    assert (Hincl : incl (checkCategory stepName (Flow.categories step)
                                        (category, Some threshold))
                         (assertLighthouseFlowResultThresholds flowResult thresholds)).
    { intros e He. unfold assertLighthouseFlowResultThresholds. apply in_flat_map.
      exists step. split; [assumption|]. unfold checkStep. right.
      apply in_flat_map. exists (category, Some threshold). split; assumption. }
    rewrite (checkCategory_missing _ _ _ _ Hcat), Hinh in Hincl.
    split; [apply Hincl; simpl; auto|]. split; [apply Hincl; simpl; auto|].
    split; [reflexivity|]. cbn [expectation]. now rewrite num_ge_NaN.
  - unfold assertLighthouseFlowResultThresholds.
    induction flowResult as [|step l IH]; [reflexivity|]. simpl. exact IH.
  - reflexivity.
  - unfold assertLighthouseFlowResultThresholds.
    induction flowResult as [|step l IH]; [reflexivity|].
    simpl. rewrite filter_app, length_app, IH. f_equal.
    assert (H : forall stepName cats entries,
               filter (fun e => match e with LogValidating _ => true | _ => false end)
                      (flat_map (checkCategory stepName cats) entries) = []).
    { intros stepName cats entries. induction entries as [|[c t] entries IHe]; [reflexivity|].
      cbn [flat_map]. rewrite filter_app, IHe, app_nil_r.
      destruct t as [t|]; [|reflexivity].
      destruct (lookup c cats) as [cd|] eqn:Hcat.
      - rewrite (checkCategory_own _ _ _ _ Hcat).
        destruct (_ && _); [reflexivity|]. now destruct (Flow.score cd).
      - rewrite (checkCategory_missing _ _ _ _ Hcat). now destruct (inherits c). }
    now rewrite H.
Qed.

(** ** Column headers (C5) *)

Lemma headerRowOf_cons (step0 : StepSummary.t) (rest : list StepSummary.t) :
  headerRowOf (step0 :: rest) =
  Ok (el "th" [style "min-width:120px;"] [Text "Step"]
      :: map (fun cat =>
                el "th" []
                   [Text match categoryDiffAt (StepSummary.categoryDiffs step0) cat with
                         | Entry d => str_or (CategoryDiff.title d) cat
                         | Other _ => cat
                         end])
             (allCategoriesOf (step0 :: rest))).
Proof.
  unfold headerRowOf.
  rewrite mapM_pure with
    (g := fun cat =>
            el "th" []
               [Text match categoryDiffAt (StepSummary.categoryDiffs step0) cat with
                     | Entry d => str_or (CategoryDiff.title d) cat
                     | Other _ => cat
                     end]); [reflexivity|].
  intros cat _. reflexivity.
Qed.

(** C5, amended.  Each column header of the index page shows the title the
    first step of the sequence gives the category in its deltas, when that
    step has a delta for it and the title is not empty, and the raw category
    identifier otherwise; with no step there is no category column. *)
Theorem C5_header_from_the_first_step (step0 : StepSummary.t) (rest : list StepSummary.t) :
  headerRowOf (step0 :: rest) =
  Ok (el "th" [style "min-width:120px;"] [Text "Step"]
      :: map (fun cat =>
                el "th" []
                   [Text match categoryDiffAt (StepSummary.categoryDiffs step0) cat with
                         | Entry d => str_or (CategoryDiff.title d) cat
                         | Other _ => cat
                         end])
             (allCategoriesOf (step0 :: rest)))
  /\ headerRowOf [] = Ok [el "th" [style "min-width:120px;"] [Text "Step"]].
Proof.
  split; [apply headerRowOf_cons | reflexivity].
Qed.

(** ** The problem list (C6) *)

Lemma num_eq_not_lt (x y : number) : num_eq x y = true -> num_lt x y = false.
Proof.
  unfold num_eq, num_lt, SFeqb, SFltb.
  destruct (SFcompare x y) as [[]|]; congruence.
Qed.

(** C6.  An audit whose after score is [null] or exactly 1 is never an item
    of a problem list: [renderDiffAudit] renders nothing for it whatever the
    before audit and the delta are, the group filter does not select its
    reference, and the item rendered for its reference, should it be
    selected, is empty. *)
Theorem C6_null_or_perfect_audit_never_listed
    (lhrBefore lhrAfter : LighthouseReport.t) (auditDiffs : built AuditDiff.t)
    (ref : AuditRef.t) (afterAudit : Audit.t) :
  auditOf lhrAfter (AuditRef.id ref) = Ok (Entry afterAudit) ->
  scoreNullOrOne afterAudit ->
  (forall beforeAudit diff,
      renderDiffAudit Number_toString ref beforeAudit (Entry afterAudit) diff = [])
  /\ (forall refs failedRefs,
      filterM (isFailedRef lhrAfter) refs = Ok failedRefs -> ~ In ref failedRefs)
  /\ (forall items,
      renderFailedRef Number_toString lhrBefore lhrAfter auditDiffs ref = Ok items ->
      items = []).
Proof.
  intros Hafter Hscore.
  assert (Hrender : forall beforeAudit diff,
             renderDiffAudit Number_toString ref beforeAudit (Entry afterAudit) diff = []).
  { intros b d. unfold renderDiffAudit, scoreOf.
    destruct Hscore as [-> | (s & -> & ->)]; reflexivity. }
  split; [exact Hrender|]. split.
  - intros refs failedRefs Hfilter Hin.
    pose proof (filterM_In _ _ _ Hfilter Hin) as Hsel.
    unfold isFailedRef in Hsel. rewrite Hafter in Hsel. simpl in Hsel.
    unfold belowPerfect, scoreOf in Hsel. cbn [truthy andb] in Hsel.
    destruct Hscore as [Hs | (s & Hs & H1)]; rewrite Hs in Hsel.
    + discriminate.
    + rewrite (num_eq_not_lt _ _ H1) in Hsel. discriminate.
  - intros items. unfold renderFailedRef. rewrite Hafter.
    destruct (auditOf lhrBefore (AuditRef.id ref)) as [b|]; cbn [bind];
      [|discriminate].
    destruct (negb (truthy b) || negb (truthy (Entry afterAudit)));
      intros H; inversion H; auto.
Qed.

(** ** The driver (C7) *)

Lemma loopBody_ok (beforeSteps afterSteps : list Step.t) (i : nat) (st st' : State) :
  loopBody Number_toString Member_toString beforeSteps afterSteps i st = (st', Ok tt) ->
  exists file summary,
    writtenForPair Number_toString Member_toString beforeSteps afterSteps i file
    /\ steps st' = (steps st ++ [summary])%list
    /\ files st' = (files st ++ [file])%list.
Proof.
  unfold loopBody, writtenForPair.
  destruct (nth_error beforeSteps i) as [b|]; [|discriminate].
  destruct (nth_error afterSteps i) as [a|]; [|discriminate].
  destruct (auditDiffsOf Number_toString (Step.lhr b) (Step.lhr a)) as [ad|] eqn:Ead;
    [|discriminate].
  destruct (categoryDiffsOf Number_toString (Step.lhr b) (Step.lhr a)) as [cd|] eqn:Ecd;
    [|discriminate].
  cbv zeta.
  destruct (generateStepHTML _ _ _ _ _ _ _) as [html|] eqn:Ehtml; [|discriminate].
  intros H. inversion H; subst st'; clear H. cbn [steps files].
  eexists. eexists. split; [|split; reflexivity].
  exists b, a, html. repeat split.
  unfold stepPageOf. rewrite Ead, Ecd. cbn [bind]. exact Ehtml.
Qed.


Lemma forLoop_ok (beforeSteps afterSteps : list Step.t) (len : nat) :
  forall (start : nat) (st st' : State),
    forLoop (loopBody Number_toString Member_toString beforeSteps afterSteps)
            (seq start len) st = (st', Ok tt) ->
    exists pages,
      files st' = (files st ++ pages)%list
      /\ Forall2 (writtenForPair Number_toString Member_toString beforeSteps afterSteps)
                 (seq start len) pages
      /\ List.length (steps st') = List.length (steps st) + len.
Proof.
  induction len as [|len IH]; simpl; intros start st st' H.
  - inversion H; subst st'. exists []. rewrite app_nil_r.
    split; [reflexivity|]. split; [constructor | lia].
  - destruct (loopBody Number_toString Member_toString beforeSteps afterSteps start st)
      as [st1 [[]|m]] eqn:E; [|discriminate].
    apply loopBody_ok in E. destruct E as (file & summary & Hfile & Hsteps & Hfiles).
    apply IH in H. destruct H as (pages & Hp & Hall & Hlen).
    exists (file :: pages). split; [|split].
    + rewrite Hp, Hfiles, <- app_assoc. reflexivity.
    + now constructor.
    + rewrite Hlen, Hsteps, length_app. simpl. lia.
Qed.


Lemma headerRowOf_total (steps0 : list StepSummary.t) :
  exists cells, headerRowOf steps0 = Ok cells.
Proof.
  destruct steps0 as [|step0 rest].
  - eexists. reflexivity.
  - eexists. apply headerRowOf_cons.
Qed.

Lemma generateTimelineHTML_total (steps0 : list StepSummary.t) :
  exists html, generateTimelineHTML Number_toString steps0 = Ok html.
Proof.
  unfold generateTimelineHTML.
  destruct (headerRowOf_total steps0) as [cells ->]. simpl. eexists. reflexivity.
Qed.

(** The pages of the pairs [start], [start + 1], ... are named
    [step-<start+1>.html], [step-<start+2>.html], ... *)
Lemma written_names (beforeSteps afterSteps : list Step.t) (len : nat) :
  forall (start : nat) (pages : list (string * Html)),
    Forall2 (writtenForPair Number_toString Member_toString beforeSteps afterSteps)
            (seq start len) pages ->
    map fst pages
    = map (fun k => "step-" ++ nat_digits k ++ ".html") (seq (start + 1) len).
Proof.
  induction len as [|len IH]; simpl; intros start pages H; inversion H; subst; [reflexivity|].
  simpl. f_equal.
  - destruct H2 as (b & a & html & _ & _ & _ & ->). reflexivity.
  - replace (S (start + 1)) with (S start + 1) by lia. now apply IH.
Qed.

Lemma main_ok (before after : Document) (st : State) :
  main Number_toString Member_toString before after = (st, Ok tt) ->
  exists pages index,
    files st = (pages ++ [("index.html", index)])%list
    /\ Forall2 (writtenForPair Number_toString Member_toString (stepsOf before) (stepsOf after))
               (seq 0 (Nat.min (List.length (stepsOf before)) (List.length (stepsOf after))))
               pages
    /\ generateTimelineHTML Number_toString (steps st) = Ok index
    /\ List.length (steps st)
       = Nat.min (List.length (stepsOf before)) (List.length (stepsOf after)).
Proof.
  unfold main.
  destruct (forLoop _ _ _) as [st1 [[]|m]] eqn:Eloop; [|discriminate].
  apply forLoop_ok in Eloop. destruct Eloop as (pages & Hfiles & Hall & Hlen).
  destruct (generateTimelineHTML Number_toString (steps st1)) as [index|] eqn:Eindex;
    [|discriminate].
  intros H. inversion H; subst st; clear H. simpl.
  exists pages, index. simpl in Hfiles. rewrite Hfiles. auto.
Qed.


(** ** Links of the index page (C10) *)

Lemma hrefs_Elem (tag : string) (attrs : list (string * string)) (children : list Html) :
  hrefs (Elem tag attrs children) =
  ((if String.eqb tag "a"
    then match lookup "href" attrs with Some u => [u] | None => [] end
    else [])
   ++ flat_map hrefs children)%list.
Proof.
  reflexivity.
Qed.

Lemma hrefs_categoryCell (step : StepSummary.t) (i : nat) (cat : string) :
  hrefs (categoryCell Number_toString step i cat) =
  if hasDelta step cat then [stepFileName i] else [].
Proof.
  unfold categoryCell, hasDelta.
  destruct (truthy (categoryDiffAt (StepSummary.categoryDiffs step) cat)); reflexivity.
Qed.

Lemma hrefs_cells (step : StepSummary.t) (i : nat) (cats : list string) :
  flat_map hrefs (map (categoryCell Number_toString step i) cats) =
  map (fun _ => stepFileName i) (filter (hasDelta step) cats).
Proof.
  induction cats as [|cat cats IH]; simpl; [reflexivity|].
  rewrite IH, hrefs_categoryCell. now destruct (hasDelta step cat).
Qed.

Lemma hrefs_timelineRow (cats : list string) (step : StepSummary.t) (i : nat) :
  hrefs (timelineRow Number_toString cats step i) =
  stepFileName (i + 1) :: map (fun _ => stepFileName i) (filter (hasDelta step) cats).
Proof.
  unfold timelineRow, el. rewrite hrefs_Elem.
  change (String.eqb "tr" "a") with false. cbv iota.
  rewrite app_nil_l. cbn [flat_map]. rewrite hrefs_cells. reflexivity.
Qed.

Lemma headerRow_no_links (steps0 : list StepSummary.t) (cells : list Html) :
  headerRowOf steps0 = Ok cells -> flat_map hrefs cells = [].
Proof.
  destruct steps0 as [|step0 rest].
  - intros H. inversion H. reflexivity.
  - rewrite headerRowOf_cons. intros H. inversion H; subst cells; clear H.
    cbn [flat_map]. change (hrefs (el "th" [style "min-width:120px;"] [Text "Step"])) with (@nil string).
    rewrite app_nil_l.
    induction (allCategoriesOf (step0 :: rest)) as [|cat cats IH]; [reflexivity|].
    cbn [map flat_map]. rewrite IH. reflexivity.
Qed.

Lemma hrefs_index (steps0 : list StepSummary.t) (index : Html) :
  generateTimelineHTML Number_toString steps0 = Ok index ->
  hrefs index = flat_map hrefs (timelineRows Number_toString steps0).
Proof.
  unfold generateTimelineHTML.
  destruct (headerRowOf steps0) as [cells|] eqn:E; [|discriminate].
  apply headerRow_no_links in E.
  cbn [bind]. intros H. inversion H; subst index; clear H.
  unfold el. repeat (rewrite hrefs_Elem; cbn [flat_map String.eqb Ascii.eqb Bool.eqb app lookup]).
  rewrite E. cbn [app]. rewrite !app_nil_r.
  change (hrefs renderLegend) with (@nil string). reflexivity.
Qed.

Lemma nth_error_mapi_from {A B} (f : A -> nat -> B) (l : list A) :
  forall k i, nth_error (mapi_from k f l) i = option_map (fun x => f x (k + i)) (nth_error l i).
Proof.
  induction l as [|x l IH]; intros k i; destruct i; simpl; try reflexivity.
  - now rewrite Nat.add_0_r.
  - rewrite IH. now rewrite Nat.add_succ_r.
Qed.

Lemma length_append (s t : string) :
  String.length (s ++ t) = String.length s + String.length t.
Proof.
  induction s as [|c s IH]; simpl; [reflexivity|]. now rewrite IH.
Qed.

Lemma append_cancel_r (s1 s2 t : string) : s1 ++ t = s2 ++ t -> s1 = s2.
Proof.
  revert s2. induction s1 as [|c s1 IH]; intros [|c2 s2] H; simpl in H.
  - reflexivity.
  - apply (f_equal String.length) in H. simpl in H. rewrite length_append in H. lia.
  - apply (f_equal String.length) in H. simpl in H. rewrite length_append in H. lia.
  - inversion H. f_equal. now apply IH.
Qed.

Lemma nat_digits_inj (a b : nat) : nat_digits a = nat_digits b -> a = b.
Proof.
  unfold nat_digits. intros H.
  apply (f_equal NilEmpty.uint_of_string) in H.
  rewrite !NilEmpty.usu in H. inversion H as [H'].
  apply (f_equal Nat.of_uint) in H'.
  now rewrite !Unsigned.of_to in H'.
Qed.

Lemma stepFileName_inj (a b : nat) : stepFileName a = stepFileName b -> a = b.
Proof.
  unfold stepFileName. intros H. simpl in H. inversion H as [H'].
  apply append_cancel_r in H'. now apply nat_digits_inj.
Qed.

(** C10.  In the index page of a run that returns, the row of the step at
    position [i] links its step cell to [step-<i+1>.html] and every populated
    category cell to [step-<i>.html], one step behind, while the files
    written are [step-1.html] to [step-<n>.html] and [index.html]: no file
    [step-0.html] is ever written, so the populated category cells of the
    first row point at a file that does not exist. *)
Theorem C10_category_cells_link_one_step_behind (before after : Document) (st : State) :
  main Number_toString Member_toString before after = (st, Ok tt) ->
  let n := Nat.min (List.length (stepsOf before)) (List.length (stepsOf after)) in
  let cats := allCategoriesOf (steps st) in
  exists pages index,
    files st = (pages ++ [("index.html", index)])%list
    /\ map fst pages = map stepFileName (seq 1 n)
    /\ List.length (steps st) = n
    /\ generateTimelineHTML Number_toString (steps st) = Ok index
    /\ hrefs index = flat_map hrefs (timelineRows Number_toString (steps st))
    /\ (forall i step,
          nth_error (steps st) i = Some step ->
          nth_error (timelineRows Number_toString (steps st)) i
          = Some (timelineRow Number_toString cats step i)
          /\ hrefs (timelineRow Number_toString cats step i)
             = stepFileName (i + 1)
               :: map (fun _ => stepFileName i) (filter (hasDelta step) cats))
    /\ ~ In (stepFileName 0) (map fst (files st))
    /\ forall i, stepFileName i <> stepFileName (i + 1).
Proof.
  intros Hrun n cats. apply main_ok in Hrun.
  destruct Hrun as (pages & index & Hfiles & Hall & Hindex & Hlen).
  pose proof (@written_names (stepsOf before) (stepsOf after) n 0 pages Hall) as Hnames.
  change (map (fun k => "step-" ++ nat_digits k ++ ".html") (seq (0 + 1) n))
    with (map stepFileName (seq 1 n)) in Hnames.
  exists pages, index. repeat split; try assumption.
  - now apply hrefs_index.
  - unfold timelineRows, mapi. rewrite nth_error_mapi_from, H. reflexivity.
  - apply hrefs_timelineRow.
  - rewrite Hfiles, map_app, in_app_iff. intros [Hin | Hin].
    + rewrite Hnames in Hin. apply in_map_iff in Hin.
      destruct Hin as (k & Hk & Hseq). apply stepFileName_inj in Hk.
      apply in_seq in Hseq. lia.
    + simpl in Hin. destruct Hin as [Hin | []]. discriminate Hin.
  - intros i Hi. apply stepFileName_inj in Hi. lia.
Qed.


(** ** Grouping of audit references *)

Lemma fst_obj_set {V} (k : string) (v : V) (o : obj V) :
  map fst (obj_set k v o) =
  if existsb (String.eqb k) (map fst o) then map fst o else (map fst o ++ [k])%list.
Proof.
  induction o as [|[k' v'] o IH]; simpl; [reflexivity|].
  destruct (String.eqb k k') eqn:E; simpl.
  - apply String.eqb_eq in E. now subst.
  - rewrite IH. now destruct (existsb (String.eqb k) (map fst o)).
Qed.

Lemma lookup_none_fst {V} (k : string) (o : obj V) :
  lookup k o = None <-> existsb (String.eqb k) (map fst o) = false.
Proof.
  split.
  - intros H. destruct (existsb (String.eqb k) (map fst o)) eqn:E; [|reflexivity].
    apply existsb_eqb_In, lookup_some_fst in E. destruct E as [v E]. congruence.
  - intros H. destruct (lookup k o) as [v|] eqn:E; [|reflexivity].
    assert (In k (map fst o)) by (apply lookup_some_fst; eauto).
    apply existsb_eqb_In in H0. congruence.
Qed.

Lemma obj_set_twice {V} (k : string) (v v' : V) (o : obj V) :
  obj_set k v' (obj_set k v o) = obj_set k v' o.
Proof.
  induction o as [|[k0 v0] o IH]; simpl.
  - now rewrite String.eqb_refl.
  - destruct (String.eqb k k0) eqn:E; simpl.
    + now rewrite String.eqb_refl.
    + now rewrite E, IH.
Qed.

(** One turn of the loop: a further reference of a group, the first
    reference of a group, or the name of a member of [Object.prototype]. *)
Lemma groupStep_cases (groups : obj (list AuditRef.t)) (ref : AuditRef.t) :
  groupStep groups ref =
  match lookup (groupKeyOf ref) groups with
  | Some refs => Ok (obj_set (groupKeyOf ref) (refs ++ [ref])%list groups)
  | None =>
      if inherits (groupKeyOf ref) then TypeError
      else Ok (obj_set (groupKeyOf ref) [ref] groups)
  end.
Proof.
  unfold groupStep. fold (groupKeyOf ref).
  destruct (lookup (groupKeyOf ref) groups) as [refs|] eqn:E.
  - assert (Hg : get groups (groupKeyOf ref) = Entry refs) by now apply get_entry.
    rewrite Hg. cbn [truthy]. now rewrite Hg.
  - assert (Hg : get groups (groupKeyOf ref) = Other (inherits (groupKeyOf ref)))
      by (unfold get; now rewrite E).
    rewrite Hg. cbn [truthy]. destruct (inherits (groupKeyOf ref)) eqn:Ei.
    + now rewrite Hg.
    + assert (Hn : get (obj_set (groupKeyOf ref) [] groups) (groupKeyOf ref) = Entry [])
        by apply get_entry, lookup_obj_set_same.
      rewrite Hn. cbn [app]. now rewrite obj_set_twice.
Qed.

Lemma groups_throw (refs : list AuditRef.t) :
  forall acc : obj (list AuditRef.t),
    (forall g, In g (map fst acc) -> inherits g = false) ->
    existsb (fun ref => inherits (groupKeyOf ref)) refs = true ->
    forEachM groupStep refs acc = TypeError.
Proof.
  induction refs as [|ref refs IH]; intros acc Hacc Hex; [discriminate Hex|].
  cbn [existsb] in Hex. cbn [forEachM]. rewrite groupStep_cases.
  destruct (lookup (groupKeyOf ref) acc) as [l|] eqn:El.
  - assert (Hk : inherits (groupKeyOf ref) = false)
      by (apply Hacc, lookup_some_fst; eauto).
    rewrite Hk in Hex. cbn [bind orb] in *. apply IH; [|exact Hex].
    intros g. rewrite fst_obj_set.
    assert (E : existsb (String.eqb (groupKeyOf ref)) (map fst acc) = true)
      by (apply existsb_eqb_In, lookup_some_fst; eauto).
    rewrite E. apply Hacc.
  - destruct (inherits (groupKeyOf ref)) eqn:Hk; [reflexivity|].
    cbn [bind orb] in *. apply IH; [|exact Hex].
    intros g. rewrite fst_obj_set.
    destruct (existsb (String.eqb (groupKeyOf ref)) (map fst acc)); [apply Hacc|].
    rewrite in_app_iff. intros [Hg | [<- | []]]; [now apply Hacc | exact Hk].
Qed.

Lemma groups_fold (refs : list AuditRef.t) :
  forall acc : obj (list AuditRef.t),
    existsb (fun ref => inherits (groupKeyOf ref)) refs = false ->
    exists groups,
      forEachM groupStep refs acc = Ok groups
      /\ (forall g,
            lookup g groups =
            match lookup g acc, filter (fun ref => String.eqb (groupKeyOf ref) g) refs with
            | None, [] => None
            | None, l => Some l
            | Some l0, l => Some (l0 ++ l)%list
            end)
      /\ map fst groups
         = (map fst acc ++ dedupe_acc (map fst acc) (map groupKeyOf refs))%list.
Proof.
  induction refs as [|ref refs IH]; intros acc Hex;
    cbn [forEachM filter map dedupe_acc existsb] in *.
  - exists acc. split; [reflexivity|]. split.
    + intros g. destruct (lookup g acc) as [l0|]; [now rewrite app_nil_r | reflexivity].
    + now rewrite app_nil_r.
  - apply orb_false_iff in Hex. destruct Hex as [Hk Hex].
    rewrite groupStep_cases, Hk.
    set (acc' := match lookup (groupKeyOf ref) acc with
                 | Some l => obj_set (groupKeyOf ref) (l ++ [ref])%list acc
                 | None => obj_set (groupKeyOf ref) [ref] acc
                 end).
    assert (Hstep : match lookup (groupKeyOf ref) acc with
                    | Some l => Ok (obj_set (groupKeyOf ref) (l ++ [ref])%list acc)
                    | None => Ok (obj_set (groupKeyOf ref) [ref] acc)
                    end = Ok acc')
      by (subst acc'; now destruct (lookup (groupKeyOf ref) acc)).
    rewrite Hstep. cbn [bind].
    destruct (IH acc' Hex) as (groups & Hrun & Hlook & Hkeys).
    exists groups. split; [exact Hrun|]. split.
    + intros g. rewrite Hlook. subst acc'.
      destruct (String.eqb (groupKeyOf ref) g) eqn:E.
      * apply String.eqb_eq in E. subst g.
        destruct (lookup (groupKeyOf ref) acc) as [l0|];
          rewrite lookup_obj_set_same; simpl; [now rewrite <- app_assoc | reflexivity].
      * assert (Hne : g <> groupKeyOf ref)
          by (intros ->; now rewrite String.eqb_refl in E).
        destruct (lookup (groupKeyOf ref) acc) as [l0|];
          now rewrite lookup_obj_set_other by exact Hne.
    + etransitivity; [exact Hkeys|]. subst acc'.
      destruct (existsb (String.eqb (groupKeyOf ref)) (map fst acc)) eqn:E.
      * pose proof E as E'. apply existsb_eqb_In, lookup_some_fst in E'.
        destruct E' as [l0 ->]. rewrite fst_obj_set, E. reflexivity.
      * pose proof E as E'. apply lookup_none_fst in E'. rewrite E'.
        rewrite fst_obj_set, E, <- app_assoc. simpl. f_equal. f_equal.
        apply dedupe_acc_ext. intros x. rewrite in_app_iff. simpl.
        split; [intros [H | [H | []]]; auto | intros [H | H]; auto].
Qed.

(** The two outcomes of [groupAuditRefsByGroup]. *)
Lemma groupAuditRefsByGroup_cases (auditRefs : list AuditRef.t) :
  if existsb (fun ref => inherits (groupKeyOf ref)) auditRefs
  then groupAuditRefsByGroup auditRefs = TypeError
  else exists groups,
      groupAuditRefsByGroup auditRefs = Ok groups
      /\ (forall g,
            lookup g groups =
            match filter (fun ref => String.eqb (groupKeyOf ref) g) auditRefs with
            | [] => None
            | refs => Some refs
            end)
      /\ Object_keys groups = propertyOrder (dedupe (map groupKeyOf auditRefs)).
Proof.
  destruct (existsb (fun ref => inherits (groupKeyOf ref)) auditRefs) eqn:E.
  - apply groups_throw; [intros g []|exact E].
  - destruct (groups_fold auditRefs [] E) as (groups & Hrun & Hlook & Hkeys).
    exists groups. split; [exact Hrun|]. split; [exact Hlook|].
    unfold Object_keys. rewrite Hkeys. cbn [map app].
    fold (dedupe (map groupKeyOf auditRefs)).
    now rewrite (dedupe_NoDup (proj1 (dedupe_spec (map groupKeyOf auditRefs)))).
Qed.

Lemma existsb_inherits_false (auditRefs : list AuditRef.t) :
  existsb (fun ref => inherits (groupKeyOf ref)) auditRefs = false
  <-> forall ref, In ref auditRefs -> inherits (groupKeyOf ref) = false.
Proof.
  split.
  - intros H ref Hin. destruct (inherits (groupKeyOf ref)) eqn:E; [|reflexivity].
    assert (existsb (fun ref => inherits (groupKeyOf ref)) auditRefs = true)
      by (apply existsb_exists; eauto).
    congruence.
  - intros H. destruct (existsb _ auditRefs) eqn:E; [|reflexivity].
    apply existsb_exists in E. destruct E as (ref & Hin & Hk).
    rewrite (H ref Hin) in Hk. discriminate Hk.
Qed.

Lemma groupAuditRefsByGroup_ok (auditRefs : list AuditRef.t) :
  is_ok (groupAuditRefsByGroup auditRefs) = true
  <-> forall ref, In ref auditRefs -> inherits (groupKeyOf ref) = false.
Proof.
  rewrite <- existsb_inherits_false.
  pose proof (groupAuditRefsByGroup_cases auditRefs) as H.
  destruct (existsb _ auditRefs).
  - rewrite H. split; discriminate.
  - destruct H as (groups & -> & _). split; reflexivity.
Qed.

(** What a grouping that returns holds. *)
Lemma groupAuditRefsByGroup_groups (auditRefs : list AuditRef.t)
    (groups : obj (list AuditRef.t)) :
  groupAuditRefsByGroup auditRefs = Ok groups ->
  (forall ref, In ref auditRefs -> inherits (groupKeyOf ref) = false)
  /\ (forall g,
        lookup g groups =
        match filter (fun ref => String.eqb (groupKeyOf ref) g) auditRefs with
        | [] => None
        | refs => Some refs
        end)
  /\ Object_keys groups = propertyOrder (dedupe (map groupKeyOf auditRefs)).
Proof.
  intros Hrun. split.
  - apply groupAuditRefsByGroup_ok. now rewrite Hrun.
  - pose proof (groupAuditRefsByGroup_cases auditRefs) as H.
    destruct (existsb _ auditRefs).
    + rewrite H in Hrun. discriminate Hrun.
    + destruct H as (groups' & Hrun' & H). rewrite Hrun in Hrun'.
      inversion Hrun'; subst groups'. exact H.
Qed.

Lemma groupKeyOf_nonempty (ref : AuditRef.t) : groupKeyOf ref <> EmptyString.
Proof.
  unfold groupKeyOf, opt_str_or, str_or.
  destruct (AuditRef.group ref) as [[|c s]|]; discriminate.
Qed.

(** The entries of a grouping that returns: each group is the references
    filed under its key, and it has one. *)
Lemma group_entry (auditRefs : list AuditRef.t) (groups : obj (list AuditRef.t))
    (g : string) (refs : list AuditRef.t) :
  groupAuditRefsByGroup auditRefs = Ok groups ->
  In (g, refs) (Object_entries groups) ->
  refs = filter (fun ref => String.eqb (groupKeyOf ref) g) auditRefs
  /\ refs <> []
  /\ g <> EmptyString
  /\ inherits g = false.
Proof.
  intros Hrun Hin. apply Object_entries_In in Hin.
  destruct (groupAuditRefsByGroup_groups _ Hrun) as (Hplain & Hlook & _).
  rewrite Hlook in Hin.
  destruct (filter (fun ref => String.eqb (groupKeyOf ref) g) auditRefs) as [|r l] eqn:Ef;
    [discriminate|].
  inversion Hin; subst refs. split; [reflexivity|]. split; [discriminate|].
  assert (Hr : In r (filter (fun ref => String.eqb (groupKeyOf ref) g) auditRefs))
    by (rewrite Ef; now left).
  apply filter_In in Hr. destruct Hr as [Hr Hg]. apply String.eqb_eq in Hg. subst g.
  split; [apply groupKeyOf_nonempty | now apply Hplain].
Qed.

Lemma sorted_fst (l : list (N * string)) :
  StronglySorted (fun a b => (fst a <= fst b)%N) l -> StronglySorted N.le (map fst l).
Proof.
  induction 1 as [|a l Hs IH Hall]; simpl; constructor; [assumption|].
  rewrite Forall_forall in *. intros n Hn. apply in_map_iff in Hn.
  destruct Hn as (b & <- & Hb). now apply Hall.
Qed.

(** The keys of an object come as the array indices among them, ascending,
    followed by the others as created. *)
Lemma propertyOrder_shape (ks : list string) :
  exists indices,
    propertyOrder ks
    = (indices ++ filter (fun k => negb (isArrayIndex k)) ks)%list
    /\ ascendingIndices indices
    /\ Permutation indices (filter isArrayIndex ks).
Proof.
  exists (map snd (sortIndex (indexKeys ks))). split; [reflexivity|]. split.
  - exists (map fst (sortIndex (indexKeys ks))). split.
    + apply indexKeys_fst with (ks := ks). intros x Hx.
      eapply Permutation_in; [apply sortIndex_perm | exact Hx].
    + apply sorted_fst, sortIndex_sorted.
  - rewrite <- indexKeys_snd. apply Permutation_map, sortIndex_perm.
Qed.

(** X2.  [groupAuditRefsByGroup] raises exactly when some reference is
    filed under the name of a member of [Object.prototype].  Otherwise it
    partitions the references: the group under a key holds exactly the
    references filed under that key ([ref.group || 'Other'], so a missing or
    empty group name goes to ["Other"]), in their original order; no group
    is empty and no key is.  The keys are distinct; they are listed with the
    array indices among them first, in ascending order, and then the other
    keys in the order in which they first occur: groups named [b], [10] and
    [2] are listed as [2], [10], [b]. *)
Theorem groupAuditRefsByGroup_partitions (auditRefs : list AuditRef.t) :
  (groupAuditRefsByGroup auditRefs = TypeError
   <-> exists ref, In ref auditRefs /\ inherits (groupKeyOf ref) = true)
  /\ ((forall ref, In ref auditRefs -> inherits (groupKeyOf ref) = false)
      <-> exists groups, groupAuditRefsByGroup auditRefs = Ok groups)
  /\ (forall groups,
      groupAuditRefsByGroup auditRefs = Ok groups ->
      (forall g,
          lookup g groups =
          match filter (fun ref => String.eqb (groupKeyOf ref) g) auditRefs with
          | [] => None
          | refs => Some refs
          end)
      /\ Object_keys groups = propertyOrder (dedupe (map groupKeyOf auditRefs))
      /\ (exists indices,
            Object_keys groups
            = (indices
               ++ filter (fun k => negb (isArrayIndex k))
                         (dedupe (map groupKeyOf auditRefs)))%list
            /\ ascendingIndices indices
            /\ Permutation indices
                 (filter isArrayIndex (dedupe (map groupKeyOf auditRefs))))
      /\ NoDup (Object_keys groups)
      /\ (forall g refs,
            In (g, refs) (Object_entries groups) -> refs <> [] /\ g <> EmptyString)
      /\ (forall ref, In ref auditRefs <->
            exists g refs, lookup g groups = Some refs /\ In ref refs))
  /\ (exists groups,
        groupAuditRefsByGroup numberedRefs = Ok groups
        /\ Object_keys groups = ["2"; "10"; "b"])
  /\ groupAuditRefsByGroup constructorRefs = TypeError.
Proof.
  pose proof (groupAuditRefsByGroup_cases auditRefs) as Hcases.
  split; [|split; [|split; [|split]]];
    [| | |eexists; split; reflexivity|reflexivity].
  - destruct (existsb (fun ref => inherits (groupKeyOf ref)) auditRefs) eqn:E.
    + split; [intros _|intros _; exact Hcases].
      apply existsb_exists in E. exact E.
    + destruct Hcases as (groups & Hrun & _). rewrite Hrun.
      split; [discriminate|]. intros (ref & Hin & Hk).
      rewrite (proj1 (existsb_inherits_false auditRefs) E ref Hin) in Hk. discriminate Hk.
  - rewrite <- groupAuditRefsByGroup_ok.
    destruct (groupAuditRefsByGroup auditRefs) as [groups|m].
    + split; [eauto | reflexivity].
    + split; [discriminate | intros [groups H]; discriminate H].
  - intros groups Hrun.
    destruct (groupAuditRefsByGroup_groups _ Hrun) as (Hplain & Hlook & Hkeys).
    split; [exact Hlook|]. split; [exact Hkeys|]. split; [|split; [|split]].
    + rewrite Hkeys. apply propertyOrder_shape.
    + apply Object_keys_NoDup.
    + intros g refs Hin.
      destruct (group_entry _ _ _ Hrun Hin) as (_ & H1 & H2 & _). auto.
    + intros ref. split.
      * intros Hin. exists (groupKeyOf ref).
        assert (Hf : In ref (filter (fun r => String.eqb (groupKeyOf r) (groupKeyOf ref))
                                    auditRefs))
          by (apply filter_In; split; [assumption | apply String.eqb_refl]).
        rewrite Hlook.
        destruct (filter (fun r => String.eqb (groupKeyOf r) (groupKeyOf ref)) auditRefs)
          as [|r l]; [contradiction|].
        eexists. split; [reflexivity | exact Hf].
      * intros (g & refs & Hl & Hin). rewrite Hlook in Hl.
        destruct (filter (fun r => String.eqb (groupKeyOf r) g) auditRefs) as [|r l] eqn:Ef;
          [discriminate|].
        inversion Hl; subst refs. rewrite <- Ef in Hin. now apply filter_In in Hin.
Qed.

(** ** Missing data (C8) *)

Lemma isFailedRef_pure (lhrAfter : LighthouseReport.t) (afterAudits : obj Audit.t)
    (ref : AuditRef.t) :
  LighthouseReport.audits lhrAfter = Some afterAudits ->
  isFailedRef lhrAfter ref = Ok (belowPerfect (get afterAudits (AuditRef.id ref))).
Proof.
  intros Ha. unfold isFailedRef, auditOf. now rewrite Ha.
Qed.

Lemma renderFailedRef_pure (lhrBefore lhrAfter : LighthouseReport.t)
    (beforeAudits afterAudits : obj Audit.t) (auditDiffs : built AuditDiff.t)
    (ref : AuditRef.t) :
  LighthouseReport.audits lhrBefore = Some beforeAudits ->
  LighthouseReport.audits lhrAfter = Some afterAudits ->
  renderFailedRef Number_toString lhrBefore lhrAfter auditDiffs ref =
  Ok (if negb (truthy (get beforeAudits (AuditRef.id ref)))
         || negb (truthy (get afterAudits (AuditRef.id ref)))
      then []
      else renderDiffAudit Number_toString ref
             (get beforeAudits (AuditRef.id ref)) (get afterAudits (AuditRef.id ref))
             (auditDiffAt auditDiffs (AuditRef.id ref))).
Proof.
  intros Hb Ha. unfold renderFailedRef, auditOf. rewrite Hb, Ha. cbn [deref bind].
  now destruct (negb _ || negb _).
Qed.




Lemma hasProblems_pure (lhrAfter : LighthouseReport.t) (afterAudits : obj Audit.t)
    (cat : Category.t) (groups : obj (list AuditRef.t)) :
  LighthouseReport.audits lhrAfter = Some afterAudits ->
  groupAuditRefsByGroup (Category.auditRefs cat) = Ok groups ->
  hasProblems lhrAfter cat =
  Ok (existsb (existsb (fun ref => belowPerfect (get afterAudits (AuditRef.id ref))))
              (Object_values groups)).
Proof.
  intros Ha Hg. unfold hasProblems. rewrite Hg. cbn [bind]. apply existsM_pure.
  intros refs _. apply existsM_pure. intros ref _. now apply isFailedRef_pure.
Qed.




(** A page that is built had every category of the after report grouped. *)
Lemma generateStepHTML_plain (stepName : string) (lhrBefore lhrAfter : LighthouseReport.t)
    (afterCats : obj Category.t)
    (auditDiffs : built AuditDiff.t) (categoryDiffs : built CategoryDiff.t) :
  LighthouseReport.categories lhrAfter = Some afterCats ->
  is_ok (generateStepHTML Number_toString Member_toString stepName lhrBefore lhrAfter
                          auditDiffs categoryDiffs) = true ->
  plainGroups (Object_values afterCats).
Proof.
  intros Hc. unfold generateStepHTML. rewrite Hc. cbn [deref bind].
  destruct (filterM (hasProblems lhrAfter) (Object_values afterCats))
    as [catsWithProblems|] eqn:Ef; [|discriminate].
  intros _ cat ref Hcat Href.
  destruct (filterM_ok_all _ _ Ef cat Hcat) as [b Hb].
  unfold hasProblems in Hb.
  destruct (groupAuditRefsByGroup (Category.auditRefs cat)) as [groups|] eqn:Hg;
    [|discriminate Hb].
  assert (Hok : is_ok (groupAuditRefsByGroup (Category.auditRefs cat)) = true)
    by now rewrite Hg.
  exact (proj1 (groupAuditRefsByGroup_ok _) Hok ref Href).
Qed.



(** ** When a step page cannot be built *)



(** ** Pairing and files (C7) *)


(** ** Group names (C9) *)

Lemma fallback_other (groupId : string) :
  groupId <> "metrics" -> groupId <> "diagnostics" -> groupId <> "hidden" ->
  groupId <> "Other" -> lookup groupId fallback = None.
Proof.
  intros H1 H2 H3 H4. unfold fallback, lookup.
  apply String.eqb_neq in H1, H2, H3, H4. now rewrite H1, H2, H3, H4.
Qed.

(** The names of the members of [Object.prototype] are neither "hidden" in
    some letter case nor keys of the dictionary. *)
Lemma inherited_not_in_fallback (groupId : string) :
  inherits groupId = true ->
  isHidden groupId = false /\ lookup groupId fallback = None.
Proof.
  intros H. apply existsb_eqb_In in H. unfold objectPrototype in H. simpl in H.
  repeat (destruct H as [<- | H]; [split; reflexivity|]). contradiction.
Qed.

Lemma groupEntry_own (lhr : LighthouseReport.t) (groupId : string) (entry : CategoryGroup.t) :
  ownGroupEntry lhr groupId = Some entry -> groupEntry lhr groupId = Entry entry.
Proof.
  unfold ownGroupEntry, groupEntry.
  destruct (LighthouseReport.categoryGroups lhr) as [groups|]; [|discriminate].
  apply get_entry.
Qed.

Lemma groupEntry_none (lhr : LighthouseReport.t) (groupId : string) :
  ownGroupEntry lhr groupId = None ->
  groupEntry lhr groupId
  = Other match LighthouseReport.categoryGroups lhr with
          | Some _ => inherits groupId
          | None => false
          end.
Proof.
  unfold ownGroupEntry, groupEntry, get.
  destruct (LighthouseReport.categoryGroups lhr) as [groups|]; [|reflexivity].
  now intros ->.
Qed.


(** X18.  The name [getFriendlyGroupName] resolves, case by case.  With
    an entry for the identifier in the snapshot's group metadata: the
    trimmed title of the entry when that is usable, white space outside
    ASCII being trimmed too; without a usable title ["Insights"] for the
    identifier "hidden" in any letter case, and the identifier itself
    otherwise.  With no entry, for an identifier that is not the name of a
    member of [Object.prototype]: ["Insights"] for "hidden" in any letter
    case, the dictionary value for [metrics], [diagnostics] and [Other], and
    the raw identifier for every other identifier.  With no entry, for the
    name of such a member: the identifier when the snapshot has group
    metadata, which the member is found in, and the member itself when it
    has none.  On the sample report, whose groups [seo] and [hidden] have
    blank titles and whose group [budgets] has a title between no-break
    spaces: ["seo"], ["Insights"] and ["Budgets"]. *)
Theorem getFriendlyGroupName_resolution (groupId : string) (lhr : LighthouseReport.t) :
  (forall entry t,
      ownGroupEntry lhr groupId = Some entry -> usableTitle entry = Some t ->
      getFriendlyGroupName groupId lhr = Name t
      /\ exists raw, CategoryGroup.title entry = Some raw /\ t = trim raw)
  /\ (forall entry,
      ownGroupEntry lhr groupId = Some entry -> usableTitle entry = None ->
      getFriendlyGroupName groupId lhr
      = Name (if isHidden groupId then "Insights" else groupId))
  /\ (ownGroupEntry lhr groupId = None ->
      inherits groupId = false ->
      (isHidden groupId = true -> getFriendlyGroupName groupId lhr = Name "Insights")
      /\ (groupId = "metrics" -> getFriendlyGroupName groupId lhr = Name "Metrics")
      /\ (groupId = "diagnostics" -> getFriendlyGroupName groupId lhr = Name "Diagnostics")
      /\ (groupId = "Other" -> getFriendlyGroupName groupId lhr = Name "Other")
      /\ (isHidden groupId = false ->
          groupId <> "metrics" -> groupId <> "diagnostics" -> groupId <> "Other" ->
          getFriendlyGroupName groupId lhr = Name groupId))
  /\ (ownGroupEntry lhr groupId = None ->
      inherits groupId = true ->
      getFriendlyGroupName groupId lhr
      = match LighthouseReport.categoryGroups lhr with
        | Some _ => Name groupId
        | None => Member groupId
        end)
  /\ getFriendlyGroupName "metrics" sampleAfter = Name "Metrics"
  /\ getFriendlyGroupName "budgets" sampleAfter = Name "Budgets"
  /\ getFriendlyGroupName "seo" sampleAfter = Name "seo"
  /\ getFriendlyGroupName "Hidden" sampleAfter = Name "Insights"
  /\ getFriendlyGroupName "HIDDEN" noGroups = Name "Insights"
  /\ getFriendlyGroupName "pwa" noGroups = Name "pwa".
Proof.
  split; [|split; [|split; [|split]]].
  - intros entry t He Ht. unfold getFriendlyGroupName.
    rewrite (groupEntry_own _ _ He). cbn [truthy]. unfold usableTitle in Ht.
    destruct (CategoryGroup.title entry) as [raw|]; [|discriminate].
    cbn [option_map]. destruct (trim raw) as [|c s] eqn:Etrim; [discriminate|].
    inversion Ht; subst t. rewrite andb_false_r. cbn [opt_str_or str_or].
    split; [reflexivity|]. exists raw. split; [reflexivity|]. now rewrite Etrim.
  - intros entry He Ht. unfold getFriendlyGroupName, isHidden.
    rewrite (groupEntry_own _ _ He). cbn [truthy]. unfold usableTitle in Ht.
    destruct (CategoryGroup.title entry) as [raw|]; cbn [option_map].
    + destruct (trim raw) as [|c s]; [|discriminate].
      rewrite andb_true_r. now destruct (String.eqb (toLowerCase groupId) "hidden").
    + rewrite andb_true_r. now destruct (String.eqb (toLowerCase groupId) "hidden").
  - intros He Hinh. unfold getFriendlyGroupName, isHidden.
    rewrite (groupEntry_none _ _ He), Hinh.
    replace (truthy (Other match LighthouseReport.categoryGroups lhr with
                            | Some _ => false
                            | None => false
                            end : property CategoryGroup.t)) with false
      by now destruct (LighthouseReport.categoryGroups lhr).
    repeat split.
    + intros ->. reflexivity.
    + intros ->. reflexivity.
    + intros ->. reflexivity.
    + intros ->. reflexivity.
    + intros Hh H1 H2 H4. rewrite Hh. unfold get.
      rewrite fallback_other, Hinh; auto.
      intros ->. discriminate Hh.
  - intros He Hinh. destruct (inherited_not_in_fallback _ Hinh) as [Hh Hf].
    unfold isHidden in Hh. unfold getFriendlyGroupName.
    rewrite (groupEntry_none _ _ He), Hh.
    destruct (LighthouseReport.categoryGroups lhr); cbn [truthy].
    + rewrite Hinh. reflexivity.
    + unfold get. now rewrite Hf, Hinh.
  - repeat split.
Qed.

(** ** Group headings *)

Lemma getFriendlyGroupName_nonempty (groupId : string) (lhr : LighthouseReport.t) :
  groupId <> EmptyString -> getFriendlyGroupName groupId lhr <> Name EmptyString.
Proof.
  intros Hne. unfold getFriendlyGroupName.
  destruct (truthy (groupEntry lhr groupId)).
  - destruct (groupEntry lhr groupId) as [entry|t]; cbn [opt_str_or].
    + destruct (CategoryGroup.title entry) as [raw|]; cbn [option_map].
      * destruct (trim raw) as [|c s].
        -- rewrite andb_true_r.
           destruct (String.eqb (toLowerCase groupId) "hidden"); [discriminate|].
           cbn [opt_str_or str_or]. congruence.
        -- rewrite andb_false_r. discriminate.
      * rewrite andb_true_r.
        destruct (String.eqb (toLowerCase groupId) "hidden"); [discriminate|].
        cbn [opt_str_or]. congruence.
    + rewrite andb_true_r.
      destruct (String.eqb (toLowerCase groupId) "hidden"); [discriminate|].
      cbn [opt_str_or]. congruence.
  - destruct (String.eqb (toLowerCase groupId) "hidden"); [discriminate|].
    unfold get, fallback, lookup.
    repeat match goal with
           | |- context [String.eqb ?a ?b] => destruct (String.eqb a b); [discriminate|]
           end.
    destruct (inherits groupId); [discriminate | congruence].
Qed.

(** A group identifier that is not the name of a member of
    [Object.prototype] resolves to a name. *)
Lemma getFriendlyGroupName_plain (groupId : string) (lhr : LighthouseReport.t) :
  inherits groupId = false -> exists s, getFriendlyGroupName groupId lhr = Name s.
Proof.
  intros Hinh. unfold getFriendlyGroupName.
  destruct (truthy (groupEntry lhr groupId)).
  - destruct (_ && _); eexists; reflexivity.
  - destruct (String.eqb (toLowerCase groupId) "hidden"); [eexists; reflexivity|].
    unfold get. rewrite Hinh. destruct (lookup groupId fallback); eexists; reflexivity.
Qed.

(** X11.  The heading of every group of a grouping that returns is a
    non-empty name: references without a group name are filed under
    ["Other"], so no group key is empty, and [getFriendlyGroupName] never
    answers a non-empty identifier with the empty name, whatever the group
    metadata of the report holds. *)
Theorem group_headings_are_never_blank (auditRefs : list AuditRef.t)
    (lhr : LighthouseReport.t) :
  (forall groups groupId refs,
      groupAuditRefsByGroup auditRefs = Ok groups ->
      In (groupId, refs) (Object_entries groups) ->
      exists s, getFriendlyGroupName groupId lhr = Name s /\ s <> EmptyString)
  /\ (forall groupId,
        groupId <> EmptyString -> getFriendlyGroupName groupId lhr <> Name EmptyString)
  /\ getFriendlyGroupName "Other" lhr
     = Name match ownGroupEntry lhr "Other" with
            | Some entry => match usableTitle entry with Some t => t | None => "Other" end
            | None => "Other"
            end.
Proof.
  split; [|split].
  - intros groups groupId refs Hrun Hin.
    destruct (group_entry _ _ _ Hrun Hin) as (_ & _ & Hne & Hinh).
    destruct (@getFriendlyGroupName_plain groupId lhr Hinh) as [s Hs].
    exists s. split; [exact Hs|]. intros ->.
    now apply (@getFriendlyGroupName_nonempty groupId lhr Hne).
  - intros groupId Hne. now apply getFriendlyGroupName_nonempty.
  - destruct (ownGroupEntry lhr "Other") as [entry|] eqn:He.
    + unfold getFriendlyGroupName. rewrite (groupEntry_own _ _ He). cbn [truthy].
      unfold usableTitle.
      destruct (CategoryGroup.title entry) as [raw|]; [|reflexivity].
      cbn [option_map]. now destruct (trim raw).
    + unfold getFriendlyGroupName. rewrite (groupEntry_none _ _ He).
      now destruct (LighthouseReport.categoryGroups lhr).
Qed.

(** ** Page selection *)

Lemma prefix_append (sub s : string) :
  String.prefix sub s = true <-> exists b, s = sub ++ b.
Proof.
  revert s. induction sub as [|c sub IH]; intros s; simpl.
  - split; [intros _; now exists s | intros _; now destruct s].
  - destruct s as [|c' s]; simpl; [split; [discriminate | intros [b H]; discriminate H]|].
    destruct (ascii_dec c c') as [->|Hne].
    + rewrite IH. split; intros [b H]; exists b; [now rewrite H | now inversion H].
    + split; [discriminate | intros [b H]; inversion H; congruence].
Qed.

Lemma includes_unfold (s sub : string) :
  includes s sub =
  if String.prefix sub s then true
  else match s with
       | EmptyString => false
       | String _ s' => includes s' sub
       end.
Proof.
  destruct s; reflexivity.
Qed.

Lemma includes_occurs (s sub : string) :
  includes s sub = true <-> exists a b, s = a ++ sub ++ b.
Proof.
  induction s as [|c s IH]; rewrite includes_unfold.
  - destruct (String.prefix sub EmptyString) eqn:E.
    + split; [intros _|reflexivity].
      apply prefix_append in E. destruct E as [b E].
      exists EmptyString, b. exact E.
    + split; [discriminate|].
      intros (a & b & H). destruct a as [|c a]; [|discriminate H].
      simpl in H.
      assert (String.prefix sub EmptyString = true) by (apply prefix_append; now exists b).
      congruence.
  - destruct (String.prefix sub (String c s)) eqn:E.
    + split; [intros _|reflexivity].
      apply prefix_append in E. destruct E as [b E].
      exists EmptyString, b. exact E.
    + rewrite IH. split.
      * intros (a & b & H). exists (String c a), b. simpl. now rewrite H.
      * intros (a & b & H). destruct a as [|c' a].
        -- simpl in H.
           assert (String.prefix sub (String c s) = true)
             by (apply prefix_append; now exists b).
           congruence.
        -- inversion H. now exists a, b.
Qed.

(** X13.  The page [connectToLighthouseFlow] starts the flow on is the
    first page whose URL contains the route, and the first page of the
    browser when no URL does; it is always one of the browser's pages, and
    there is none exactly when the browser has no page.  An empty route is
    contained in every URL, so it selects the first page. *)
Theorem pickPage_first_match_or_first_page (route : string) (allPages : list Page.t) :
  (forall page, pickPage route allPages = Some page -> In page allPages)
  /\ (pickPage route allPages = None <-> allPages = [])
  /\ (forall page,
        pickPage route allPages = Some page ->
        includes (Page.url page) route = true ->
        exists earlier later,
          allPages = (earlier ++ page :: later)%list
          /\ Forall (fun p => includes (Page.url p) route = false) earlier)
  /\ (forall page,
        pickPage route allPages = Some page ->
        includes (Page.url page) route = false ->
        nth_error allPages 0 = Some page
        /\ Forall (fun p => includes (Page.url p) route = false) allPages)
  /\ (forall p, In p allPages -> includes (Page.url p) route = true ->
        exists page, pickPage route allPages = Some page
                     /\ includes (Page.url page) route = true)
  /\ pickPage EmptyString allPages = nth_error allPages 0.
Proof.
  unfold pickPage.
  assert (Hfind : forall l page,
             find (fun p => includes (Page.url p) route) l = Some page ->
             exists earlier later,
               l = (earlier ++ page :: later)%list
               /\ Forall (fun p => includes (Page.url p) route = false) earlier).
  { induction l as [|q l IH]; simpl; intros page H; [discriminate|].
    destruct (includes (Page.url q) route) eqn:E.
    - inversion H; subst. exists [], l. split; [reflexivity | constructor].
    - destruct (IH _ H) as (earlier & later & -> & Hall).
      exists (q :: earlier), later. split; [reflexivity | now constructor]. }
  assert (Hnone : find (fun p => includes (Page.url p) route) allPages = None ->
                  Forall (fun p => includes (Page.url p) route = false) allPages).
  { intros H. apply Forall_forall. intros p Hp.
    apply (find_none _ _ H p Hp). }
  repeat split.
  - intros page H.
    destruct (find _ allPages) as [q|] eqn:E.
    + inversion H; subst. now apply find_some in E.
    + now apply nth_error_In in H.
  - destruct (find _ allPages) as [q|] eqn:E; [discriminate|].
    destruct allPages; [reflexivity | discriminate].
  - intros ->. reflexivity.
  - intros page H Hinc.
    destruct (find _ allPages) as [q|] eqn:E.
    + inversion H; subst. now apply Hfind.
    + destruct allPages as [|q l]; [discriminate|]. simpl in H. inversion H; subst.
      exists [], l. split; [reflexivity | constructor].
  - destruct (find _ allPages) as [q|] eqn:E; [|assumption].
    inversion H; subst. apply find_some in E. destruct E as [_ E]. congruence.
  - destruct (find _ allPages) as [q|] eqn:E; [|now apply Hnone].
    inversion H; subst. apply find_some in E. destruct E as [_ E]. congruence.
  - intros p Hp Hinc.
    destruct (find _ allPages) as [q|] eqn:E.
    + exists q. split; [reflexivity|]. now apply find_some in E.
    + pose proof (find_none _ _ E p Hp) as Hn. simpl in Hn. congruence.
  - destruct allPages as [|q l]; [reflexivity|]. simpl.
    now destruct (Page.url q).
Qed.


(** ** A run that raises, and the rows of a run that returns *)

Lemma loopBody_throw (beforeSteps afterSteps : list Step.t) (i : nat) (st st' : State)
    (m : string) :
  i < Nat.min (List.length beforeSteps) (List.length afterSteps) ->
  loopBody Number_toString Member_toString beforeSteps afterSteps i st = (st', Throw m) ->
  files st' = files st
  /\ exists beforeStep afterStep,
       nth_error beforeSteps i = Some beforeStep
       /\ nth_error afterSteps i = Some afterStep
       /\ is_ok (stepPageOf Number_toString Member_toString i beforeStep afterStep) = false.
Proof.
  intros Hi. unfold loopBody.
  destruct (nth_error beforeSteps i) as [b|] eqn:Hb.
  2:{ apply nth_error_None in Hb. lia. }
  destruct (nth_error afterSteps i) as [a|] eqn:Ha.
  2:{ apply nth_error_None in Ha. lia. }
  destruct (auditDiffsOf Number_toString (Step.lhr b) (Step.lhr a)) as [ad|] eqn:Ead.
  - destruct (categoryDiffsOf Number_toString (Step.lhr b) (Step.lhr a)) as [cd|] eqn:Ecd.
    + cbv zeta.
      destruct (generateStepHTML _ _ _ _ _ _ _) as [html|] eqn:Ehtml; [discriminate|].
      intros H. inversion H; subst st' m; clear H. split; [reflexivity|].
      exists b, a. split; [reflexivity|]. split; [reflexivity|].
      unfold stepPageOf. rewrite Ead, Ecd. cbn [bind]. now rewrite Ehtml.
    + intros H. inversion H; subst. split; [reflexivity|].
      exists b, a. split; [reflexivity|]. split; [reflexivity|].
      unfold stepPageOf. now rewrite Ead, Ecd.
  - intros H. inversion H; subst. split; [reflexivity|].
    exists b, a. split; [reflexivity|]. split; [reflexivity|].
    unfold stepPageOf. now rewrite Ead.
Qed.

Lemma forLoop_throw (beforeSteps afterSteps : list Step.t) (len : nat) :
  forall (start : nat) (st st' : State) (m : string),
    start + len <= Nat.min (List.length beforeSteps) (List.length afterSteps) ->
    forLoop (loopBody Number_toString Member_toString beforeSteps afterSteps) (seq start len) st
    = (st', Throw m) ->
    exists done pages,
      done < len
      /\ files st' = (files st ++ pages)%list
      /\ Forall2 (writtenForPair Number_toString Member_toString beforeSteps afterSteps) (seq start done) pages
      /\ exists beforeStep afterStep,
           nth_error beforeSteps (start + done) = Some beforeStep
           /\ nth_error afterSteps (start + done) = Some afterStep
           /\ is_ok (stepPageOf Number_toString Member_toString (start + done) beforeStep afterStep) = false.
Proof.
  induction len as [|len IH]; simpl; intros start st st' m Hlen H; [discriminate|].
  destruct (loopBody Number_toString Member_toString beforeSteps afterSteps start st) as [st1 [[]|m1]] eqn:E.
  - apply loopBody_ok in E. destruct E as (file & summary & Hfile & _ & Hfiles).
    apply IH in H; [|lia].
    destruct H as (done & pages & Hd & Hp & Hall & b & a & Hb & Ha & Hfail).
    exists (S done), (file :: pages). split; [lia|]. split; [|split].
    + rewrite Hp, Hfiles, <- app_assoc. reflexivity.
    + simpl. now constructor.
    + exists b, a. replace (start + S done) with (S start + done) by lia. auto.
  - inversion H; subst st1 m1; clear H.
    apply loopBody_throw in E; [|lia]. destruct E as (Hfiles & b & a & Hb & Ha & Hfail).
    exists 0, []. split; [lia|]. split; [now rewrite app_nil_r|]. split; [constructor|].
    exists b, a. rewrite Nat.add_0_r. auto.
Qed.

(** X6.  A run of [main] raises only inside the loop, at the first aligned
    pair whose page cannot be built: the pages of the pairs before it are
    on disk as [step-1.html] onwards, and neither a later page nor
    [index.html] is written. *)
Theorem main_raises_at_first_failing_pair (before after : Document) (st : State)
    (m : string) :
  main Number_toString Member_toString before after = (st, Throw m) ->
  exists done,
    done < Nat.min (List.length (stepsOf before)) (List.length (stepsOf after))
    /\ Forall2 (writtenForPair Number_toString Member_toString (stepsOf before) (stepsOf after))
               (seq 0 done) (files st)
    /\ map fst (files st) = map stepFileName (seq 1 done)
    /\ ~ In "index.html" (map fst (files st))
    /\ exists beforeStep afterStep,
         nth_error (stepsOf before) done = Some beforeStep
         /\ nth_error (stepsOf after) done = Some afterStep
         /\ is_ok (stepPageOf Number_toString Member_toString done beforeStep afterStep) = false.
Proof.
  unfold main.
  destruct (forLoop _ _ _) as [st1 [[]|m1]] eqn:Eloop.
  - destruct (generateTimelineHTML_total (steps st1)) as [index ->]. discriminate.
  - intros H. inversion H; subst st1 m1; clear H.
    apply forLoop_throw in Eloop; [|simpl; lia].
    destruct Eloop as (done & pages & Hd & Hp & Hall & b & a & Hb & Ha & Hfail).
    simpl in Hp. subst pages. exists done. split; [assumption|]. split; [assumption|].
    pose proof (@written_names (stepsOf before) (stepsOf after) done 0 (files st) Hall)
      as Hnames.
    change (map (fun k => "step-" ++ nat_digits k ++ ".html") (seq (0 + 1) done))
      with (map stepFileName (seq 1 done)) in Hnames.
    split; [exact Hnames|]. split.
    + rewrite Hnames. intros Hin. apply in_map_iff in Hin.
      destruct Hin as (k & Hk & _). discriminate Hk.
    + exists b, a. auto.
Qed.

Lemma loopBody_summary (beforeSteps afterSteps : list Step.t) (i : nat) (st st' : State) :
  loopBody Number_toString Member_toString beforeSteps afterSteps i st = (st', Ok tt) ->
  exists summary,
    summaryForPair Number_toString beforeSteps afterSteps i summary
    /\ steps st' = (steps st ++ [summary])%list.
Proof.
  unfold loopBody, summaryForPair.
  destruct (nth_error beforeSteps i) as [b|]; [|discriminate].
  destruct (nth_error afterSteps i) as [a|]; [|discriminate].
  destruct (auditDiffsOf Number_toString (Step.lhr b) (Step.lhr a)) as [ad|]; [|discriminate].
  destruct (categoryDiffsOf Number_toString (Step.lhr b) (Step.lhr a)) as [cd|] eqn:Ecd;
    [|discriminate].
  cbv zeta.
  destruct (generateStepHTML _ _ _ _ _ _ _) as [html|]; [|discriminate].
  intros H. inversion H; subst st'; clear H. simpl.
  eexists. split; [|reflexivity].
  exists b, a. simpl. auto.
Qed.

Lemma forLoop_summaries (beforeSteps afterSteps : list Step.t) (len : nat) :
  forall (start : nat) (st st' : State),
    forLoop (loopBody Number_toString Member_toString beforeSteps afterSteps) (seq start len) st = (st', Ok tt) ->
    exists summaries,
      steps st' = (steps st ++ summaries)%list
      /\ Forall2 (summaryForPair Number_toString beforeSteps afterSteps)
                 (seq start len) summaries.
Proof.
  induction len as [|len IH]; simpl; intros start st st' H.
  - inversion H; subst st'. exists []. rewrite app_nil_r. split; [reflexivity | constructor].
  - destruct (loopBody Number_toString Member_toString beforeSteps afterSteps start st) as [st1 [[]|m]] eqn:E;
      [|discriminate].
    apply loopBody_summary in E. destruct E as (summary & Hsum & Hsteps).
    apply IH in H. destruct H as (summaries & Hs & Hall).
    exists (summary :: summaries). split.
    + rewrite Hs, Hsteps, <- app_assoc. reflexivity.
    + now constructor.
Qed.

(** X10.  The rows of the index page of a run that returns are the aligned
    pairs in order: row [i] carries the name of the after step, or
    [Step <i+1>] when that is missing or empty, and the category deltas of
    pair [i].  The name is never empty, so the label fallback [Step <i>] of
    [generateTimelineHTML] is never taken on a run of [main]. *)
Theorem main_index_rows (before after : Document) (st : State) :
  main Number_toString Member_toString before after = (st, Ok tt) ->
  Forall2 (summaryForPair Number_toString (stepsOf before) (stepsOf after))
          (seq 0 (Nat.min (List.length (stepsOf before)) (List.length (stepsOf after))))
          (steps st)
  /\ forall i summary,
       nth_error (steps st) i = Some summary ->
       StepSummary.name summary <> EmptyString
       /\ str_or (StepSummary.name summary) ("Step " ++ nat_digits i)
          = StepSummary.name summary.
Proof.
  unfold main.
  destruct (forLoop _ _ _) as [st1 [[]|m1]] eqn:Eloop; [|discriminate].
  apply forLoop_summaries in Eloop. destruct Eloop as (summaries & Hs & Hall).
  simpl in Hs. subst summaries.
  destruct (generateTimelineHTML Number_toString (steps st1)); [|discriminate].
  intros H. inversion H; subst st; clear H. simpl. split; [exact Hall|].
  intros i summary Hnth.
  assert (Hne : StepSummary.name summary <> EmptyString).
  { apply nth_error_In in Hnth.
    revert Hnth Hall. generalize (steps st1) at 1 2.
    generalize (seq 0 (Nat.min (List.length (stepsOf before)) (List.length (stepsOf after)))).
    intros idx l Hin Hall. induction Hall as [|k s idx l Hk Hall IH]; [contradiction|].
    destruct Hin as [<- | Hin]; [|now apply IH].
    destruct Hk as (bStep & aStep & _ & _ & Hname & _). rewrite Hname.
    unfold opt_str_or, str_or. destruct (Step.name aStep) as [[|c n]|]; discriminate. }
  split; [exact Hne|].
  unfold str_or. destruct (StepSummary.name summary); [contradiction | reflexivity].
Qed.


(** ** The shape of the index table *)

Lemma length_mapi_from {A B} (f : A -> nat -> B) (l : list A) :
  forall k, List.length (mapi_from k f l) = List.length l.
Proof.
  induction l as [|x l IH]; intros k; simpl; [reflexivity | now rewrite IH].
Qed.

Lemma In_mapi_from {A B} (f : A -> nat -> B) (l : list A) (y : B) :
  forall k, In y (mapi_from k f l) -> exists x i, In x l /\ y = f x i.
Proof.
  induction l as [|x l IH]; intros k; simpl; [contradiction|].
  intros [<- | H].
  - exists x, k. auto.
  - destruct (IH _ H) as (x' & i & Hx & ->). exists x', i. auto.
Qed.

(** X7.  [generateTimelineHTML] never raises, not even for no step at all,
    and its table is rectangular: one row per step, and in the header row
    and in every row one cell for the step followed by one cell per category
    of [allCategories].  [allCategories] lists without repetition exactly
    the categories for which some step has a delta.  The cell of a step for
    a category is the placeholder [-] exactly when [step.categoryDiffs[cat]]
    is falsy, and a populated cell with a link otherwise: a delta of the
    step is truthy, and where the step has none the read is truthy exactly
    for a category named like a member of [Object.prototype], unless a delta
    was stored under [__proto__]. *)
Theorem timeline_table_is_rectangular (steps0 : list StepSummary.t) :
  let cats := allCategoriesOf steps0 in
  (exists index headerRow,
      generateTimelineHTML Number_toString steps0 = Ok index
      /\ headerRowOf steps0 = Ok headerRow
      /\ List.length headerRow = 1 + List.length cats)
  /\ List.length (timelineRows Number_toString steps0) = List.length steps0
  /\ (forall row, In row (timelineRows Number_toString steps0) ->
        exists cells, row = el "tr" [] cells /\ List.length cells = 1 + List.length cats)
  /\ NoDup cats
  /\ (forall cat,
        In cat cats
        <-> exists step d,
              In step steps0 /\ lookup cat (own (StepSummary.categoryDiffs step)) = Some d)
  /\ (forall step i cat,
        categoryCell Number_toString step i cat = el "td" [] [Text "-"]
        <-> hasDelta step cat = false)
  /\ (forall step i cat,
        hasDelta step cat = true ->
        exists attrs linkAttrs kids,
          categoryCell Number_toString step i cat
          = el "td" attrs
               [el "a" (("href", "step-" ++ nat_digits i ++ ".html") :: linkAttrs) kids])
  /\ (forall step cat d,
        lookup cat (own (StepSummary.categoryDiffs step)) = Some d ->
        hasDelta step cat = true)
  /\ (forall step cat,
        lookup cat (own (StepSummary.categoryDiffs step)) = None ->
        proto (StepSummary.categoryDiffs step) = None ->
        hasDelta step cat = inherits cat)
  /\ hasDelta (StepSummary.mk "Dashboard" emptyObject) "toString" = true
  /\ hasDelta (StepSummary.mk "Dashboard" emptyObject) "performance" = false.
Proof.
  intros cats.
  split; [|split; [|split; [|split; [|split; [|split; [|split; [|split;
    [|split; [|split; reflexivity]]]]]]]]].
  - destruct (generateTimelineHTML_total steps0) as [index Hindex].
    destruct (headerRowOf_total steps0) as [headerRow Hheader].
    exists index, headerRow. split; [assumption|]. split; [assumption|].
    unfold headerRowOf in Hheader.
    destruct (mapM _ (allCategoriesOf steps0)) as [cells|] eqn:E; [|discriminate].
    simpl in Hheader. inversion Hheader; subst headerRow. simpl.
    f_equal. now apply mapM_length in E.
  - unfold timelineRows, mapi. apply length_mapi_from.
  - intros row Hrow. unfold timelineRows, mapi in Hrow.
    apply In_mapi_from in Hrow. destruct Hrow as (step & i & _ & ->).
    unfold timelineRow. eexists. split; [reflexivity|]. simpl. now rewrite length_map.
  - apply dedupe_spec.
  - intros cat. subst cats. unfold allCategoriesOf.
    destruct (dedupe_spec
                (flat_map (fun step => Object_keys (own (StepSummary.categoryDiffs step)))
                          steps0))
      as [_ Hin].
    rewrite Hin, in_flat_map.
    split.
    + intros (step & Hstep & H). apply Object_keys_In in H. destruct H as [d H].
      exists step, d. auto.
    + intros (step & d & Hstep & H). exists step. split; [assumption|].
      eapply lookup_keys; eauto.
  - intros step i cat. unfold categoryCell, hasDelta.
    destruct (truthy (categoryDiffAt (StepSummary.categoryDiffs step) cat)); cbn [negb].
    + split; discriminate.
    + split; reflexivity.
  - intros step i cat H. unfold categoryCell. unfold hasDelta in H. rewrite H. cbn [negb].
    eexists. eexists. eexists. reflexivity.
  - intros step cat d H. unfold hasDelta, categoryDiffAt. now rewrite H.
  - intros step cat H Hp. unfold hasDelta, categoryDiffAt. now rewrite H, Hp.
Qed.

(** ** The body of a step page *)

Lemma num_lt_not_eq (x y : number) : num_lt x y = true -> num_eq x y = false.
Proof.
  unfold num_eq, num_lt, SFeqb, SFltb.
  destruct (SFcompare x y) as [[]|]; congruence.
Qed.

(** An audit that the filter keeps is rendered as exactly one list item. *)
Lemma renderDiffAudit_one_item (ref : AuditRef.t) (beforeAudit afterAudit : property Audit.t)
    (diff : AnyDiff) :
  belowPerfect afterAudit = true ->
  exists attrs kids,
    renderDiffAudit Number_toString ref beforeAudit afterAudit diff = [el "li" attrs kids].
Proof.
  unfold belowPerfect, renderDiffAudit.
  destruct (scoreOf afterAudit) as [| |s]; rewrite ?andb_false_r; try discriminate.
  intros H. apply andb_prop in H. destruct H as [_ H]. rewrite (num_lt_not_eq _ _ H).
  destruct (numericValueOf beforeAudit), (numericValueOf afterAudit), (hasDiff diff);
    eexists; eexists; reflexivity.
Qed.

Lemma belowPerfect_truthy (afterAudit : property Audit.t) :
  belowPerfect afterAudit = true -> truthy afterAudit = true.
Proof.
  unfold belowPerfect. intros H. now apply andb_prop in H.
Qed.

Lemma items_length (lhrBefore lhrAfter : LighthouseReport.t)
    (beforeAudits afterAudits : obj Audit.t) (auditDiffs : built AuditDiff.t)
    (failed : list AuditRef.t) (items : list fragment) :
  LighthouseReport.audits lhrBefore = Some beforeAudits ->
  LighthouseReport.audits lhrAfter = Some afterAudits ->
  Forall (fun ref => belowPerfect (get afterAudits (AuditRef.id ref)) = true) failed ->
  mapM (renderFailedRef Number_toString lhrBefore lhrAfter auditDiffs) failed = Ok items ->
  List.length (List.concat items) = List.length (filter (hasBeforeAudit beforeAudits) failed)
  /\ Forall (fun item => exists attrs kids, item = el "li" attrs kids) (List.concat items).
Proof.
  intros Hb Ha. revert items.
  induction failed as [|ref failed IH]; simpl; intros items Hall H.
  - inversion H; subst. simpl. split; [reflexivity | constructor].
  - rewrite renderFailedRef_pure with (beforeAudits := beforeAudits)
                                     (afterAudits := afterAudits) in H by assumption.
    cbn [bind] in H.
    destruct (mapM _ failed) as [rest|] eqn:E; cbn [bind] in H; [|discriminate].
    inversion H; subst items; clear H.
    inversion Hall as [|? ? Hp Hall']; subst.
    destruct (IH rest Hall' eq_refl) as [Hlen Hli].
    cbn [List.concat]. rewrite length_app, Hlen. unfold hasBeforeAudit at 2.
    rewrite (belowPerfect_truthy _ Hp). cbn [negb]. rewrite orb_false_r.
    destruct (truthy (get beforeAudits (AuditRef.id ref))); cbn [negb].
    + destruct (@renderDiffAudit_one_item ref (get beforeAudits (AuditRef.id ref))
                  (get afterAudits (AuditRef.id ref))
                  (auditDiffAt auditDiffs (AuditRef.id ref)) Hp)
        as (attrs & kids & ->).
      split; [reflexivity|]. cbn [app]. constructor; [eauto | assumption].
    + split; [reflexivity | assumption].
Qed.

(** X9.  A group of a category is rendered only when the filter keeps one of
    its references.  Its heading then shows the number of kept references,
    while its list holds one item for each kept reference for which
    [lhrBefore.audits[ref.id]] is truthy, that is, which has an audit in the
    before report or is named like a member of [Object.prototype]: the
    count can exceed the number of items listed. *)
Theorem group_count_and_items (lhrBefore lhrAfter : LighthouseReport.t)
    (beforeAudits afterAudits : obj Audit.t) (auditDiffs : built AuditDiff.t)
    (groupId : string) (refs : list AuditRef.t) :
  LighthouseReport.audits lhrBefore = Some beforeAudits ->
  LighthouseReport.audits lhrAfter = Some afterAudits ->
  let failed := problemRefs afterAudits refs in
  (failed = [] ->
   renderGroup Number_toString Member_toString lhrBefore lhrAfter auditDiffs (groupId, refs)
   = Ok [])
  /\ (failed <> [] ->
      exists items,
        renderGroup Number_toString Member_toString lhrBefore lhrAfter auditDiffs
                    (groupId, refs)
        = Ok [el "div" [class "audit-section"]
                 [el "h3" []
                     [Text (nameText Member_toString (getFriendlyGroupName groupId lhrAfter));
                      el "span" [class "count"]
                         [Text ("(" ++ nat_digits (List.length failed) ++ ")")]];
                  el "ul" [class "audit-list"] (auditHeaderRow :: items)]]
        /\ List.length items = List.length (filter (hasBeforeAudit beforeAudits) failed)
        /\ List.length items <= List.length failed
        /\ Forall (fun item => exists attrs kids, item = el "li" attrs kids) items)
  /\ (forall ref,
        hasBeforeAudit beforeAudits ref
        = match lookup (AuditRef.id ref) beforeAudits with
          | Some _ => true
          | None => inherits (AuditRef.id ref)
          end)
  /\ hasBeforeAudit [] (AuditRef.mk "toString" None None None) = true
  /\ hasBeforeAudit [] (AuditRef.mk "is-on-https" None None None) = false.
Proof.
  intros Hb Ha failed. unfold renderGroup.
  rewrite filterM_pure with
    (g := fun ref => belowPerfect (get afterAudits (AuditRef.id ref)))
    by (intros; now apply isFailedRef_pure).
  cbn [bind]. fold (problemRefs afterAudits refs). fold failed.
  split; [|split; [|split; [|split; reflexivity]]].
  - intros ->. reflexivity.
  - intros Hne. destruct failed as [|r rest] eqn:Ef; [contradiction|].
    destruct (mapM_total (renderFailedRef Number_toString lhrBefore lhrAfter auditDiffs)
                (r :: rest)) as [items Hitems].
    { intros x _. eexists. eapply renderFailedRef_pure; eassumption. }
    rewrite Hitems. cbn [bind].
    assert (Hall : Forall (fun ref => belowPerfect (get afterAudits (AuditRef.id ref)) = true)
                          (r :: rest)).
    { rewrite <- Ef. subst failed. unfold problemRefs. apply Forall_forall.
      intros x Hx. now apply filter_In in Hx. }
    destruct (@items_length lhrBefore lhrAfter beforeAudits afterAudits auditDiffs
                (r :: rest) items Hb Ha Hall Hitems) as [Hlen Hli].
    exists (List.concat items). split; [reflexivity|]. split; [exact Hlen|].
    split; [|exact Hli]. rewrite Hlen. apply filter_length_le.
  - intros ref. unfold hasBeforeAudit, get.
    now destruct (lookup (AuditRef.id ref) beforeAudits).
Qed.

Lemma renderGroup_at_most_one (lhrBefore lhrAfter : LighthouseReport.t)
    (beforeAudits afterAudits : obj Audit.t) (auditDiffs : built AuditDiff.t)
    (entry : string * list AuditRef.t) :
  LighthouseReport.audits lhrBefore = Some beforeAudits ->
  LighthouseReport.audits lhrAfter = Some afterAudits ->
  exists html,
    renderGroup Number_toString Member_toString lhrBefore lhrAfter auditDiffs entry = Ok html
    /\ (html = [] <-> problemRefs afterAudits (snd entry) = []).
Proof.
  intros Hb Ha. destruct entry as [groupId refs]. unfold renderGroup.
  rewrite filterM_pure with
    (g := fun ref => belowPerfect (get afterAudits (AuditRef.id ref)))
    by (intros; now apply isFailedRef_pure).
  cbn [bind snd]. fold (problemRefs afterAudits refs).
  destruct (problemRefs afterAudits refs) as [|r rest].
  - exists []. split; [reflexivity | split; reflexivity].
  - destruct (mapM_total (renderFailedRef Number_toString lhrBefore lhrAfter auditDiffs)
                (r :: rest)) as [items ->].
    { intros x _. eexists. eapply renderFailedRef_pure; eassumption. }
    cbn [bind]. eexists. split; [reflexivity|]. split; discriminate.
Qed.

Lemma mapM_groups (lhrBefore lhrAfter : LighthouseReport.t)
    (beforeAudits afterAudits : obj Audit.t) (auditDiffs : built AuditDiff.t)
    (entries : list (string * list AuditRef.t)) :
  LighthouseReport.audits lhrBefore = Some beforeAudits ->
  LighthouseReport.audits lhrAfter = Some afterAudits ->
  exists groupHtml,
    mapM (renderGroup Number_toString Member_toString lhrBefore lhrAfter auditDiffs) entries
    = Ok groupHtml
    /\ (List.concat groupHtml = []
        <-> existsb (existsb (fun ref => belowPerfect (get afterAudits (AuditRef.id ref))))
                    (map snd entries) = false).
Proof.
  intros Hb Ha. induction entries as [|entry entries IH]; simpl.
  - exists []. split; [reflexivity|]. simpl. split; reflexivity.
  - destruct (@renderGroup_at_most_one lhrBefore lhrAfter beforeAudits afterAudits
                auditDiffs entry Hb Ha) as (html & -> & Hhtml).
    destruct IH as (rest & -> & Hrest). simpl.
    eexists. split; [reflexivity|]. simpl.
    assert (Hp : problemRefs afterAudits (snd entry) = []
                 <-> existsb (fun ref => belowPerfect (get afterAudits (AuditRef.id ref)))
                             (snd entry) = false).
    { unfold problemRefs. generalize (snd entry). intros l.
      induction l as [|x l IHl]; simpl; [split; reflexivity|].
      destruct (belowPerfect (get afterAudits (AuditRef.id x))); simpl.
      - split; discriminate.
      - exact IHl. }
    rewrite orb_false_iff, <- Hp, <- Hrest, <- Hhtml.
    split.
    + intros H. apply app_eq_nil in H. exact H.
    + intros [-> ->]. reflexivity.
Qed.

(** Some group has a reference with a property exactly when some reference
    has it. *)
Lemma groups_existsb (P : AuditRef.t -> bool) (refs : list AuditRef.t)
    (groups : obj (list AuditRef.t)) :
  groupAuditRefsByGroup refs = Ok groups ->
  existsb (existsb P) (Object_values groups) = existsb P refs.
Proof.
  intros Hrun. destruct (groupAuditRefsByGroup_groups _ Hrun) as (_ & Hlook & _).
  destruct (existsb P refs) eqn:E.
  - apply existsb_exists in E. destruct E as (ref & Hin & HP).
    apply existsb_exists.
    specialize (Hlook (groupKeyOf ref)).
    assert (Hf : In ref (filter (fun r => String.eqb (groupKeyOf r) (groupKeyOf ref)) refs))
      by (apply filter_In; split; [assumption | apply String.eqb_refl]).
    destruct (filter (fun r => String.eqb (groupKeyOf r) (groupKeyOf ref)) refs) as [|r l] eqn:Ef;
      [contradiction|].
    exists (r :: l). split.
    + apply Object_values_In. eauto.
    + apply existsb_exists. exists ref. auto.
  - destruct (existsb (existsb P) (Object_values groups)) eqn:E'; [|reflexivity].
    apply existsb_exists in E'. destruct E' as (l & Hl & HP).
    apply existsb_exists in HP. destruct HP as (ref & Hin & HP).
    apply Object_values_In in Hl. destruct Hl as [g Hg]. rewrite Hlook in Hg.
    destruct (filter (fun r => String.eqb (groupKeyOf r) g) refs) as [|r l'] eqn:Ef;
      [discriminate|].
    inversion Hg; subst l. rewrite <- Ef in Hin. apply filter_In in Hin.
    assert (existsb P refs = true)
      by (apply existsb_exists; exists ref; split; [apply Hin | exact HP]).
    congruence.
Qed.

Lemma renderCategory_section (category : Category.t) (lhrBefore lhrAfter : LighthouseReport.t)
    (beforeAudits afterAudits : obj Audit.t)
    (auditDiffs : built AuditDiff.t) (categoryDiffs : built CategoryDiff.t) :
  LighthouseReport.audits lhrBefore = Some beforeAudits ->
  LighthouseReport.audits lhrAfter = Some afterAudits ->
  (forall ref, In ref (Category.auditRefs category) -> inherits (groupKeyOf ref) = false) ->
  (categoryHasProblem afterAudits category = false ->
   renderCategory Number_toString Member_toString category lhrBefore lhrAfter
                  auditDiffs categoryDiffs = Ok [])
  /\ (categoryHasProblem afterAudits category = true ->
      exists attrs kids,
        renderCategory Number_toString Member_toString category lhrBefore lhrAfter
                       auditDiffs categoryDiffs
        = Ok [el "section" attrs kids]).
Proof.
  intros Hb Ha Hplain. unfold renderCategory, categoryHasProblem.
  apply groupAuditRefsByGroup_ok in Hplain.
  destruct (groupAuditRefsByGroup (Category.auditRefs category)) as [groups|] eqn:Hg;
    [|discriminate Hplain].
  cbn [bind].
  destruct (@mapM_groups lhrBefore lhrAfter beforeAudits afterAudits auditDiffs
              (Object_entries groups) Hb Ha)
    as (groupHtml & -> & Hnil).
  change (map snd (Object_entries groups)) with (Object_values groups) in Hnil.
  rewrite (groups_existsb _ _ Hg) in Hnil. cbn [bind]. split.
  - intros H. apply Hnil in H. now rewrite H.
  - intros H. destruct (List.concat groupHtml) as [|x l].
    + rewrite (proj1 Hnil eq_refl) in H. discriminate H.
    + eexists. eexists. reflexivity.
Qed.

Lemma mapM_singletons {A} (f : A -> result fragment) (Q : Html -> Prop) (l : list A)
    (ys : list fragment) :
  (forall x, In x l -> exists e, f x = Ok [e] /\ Q e) ->
  mapM f l = Ok ys ->
  List.length (List.concat ys) = List.length l /\ Forall Q (List.concat ys).
Proof.
  revert ys. induction l as [|x l IH]; simpl; intros ys Hf H.
  - inversion H; subst. simpl. split; [reflexivity | constructor].
  - destruct (Hf x (or_introl eq_refl)) as (e & He & HQ). rewrite He in H. simpl in H.
    destruct (mapM f l) as [rest|]; simpl in H; [|discriminate].
    inversion H; subst ys; clear H.
    destruct (IH rest) as [Hlen HQs]; [intros; apply Hf; now right | reflexivity|].
    simpl. split; [now rewrite Hlen | now constructor].
Qed.

(** X8.  A step page shows, after the back link, the title and the legend,
    a summary strip with one card for every category of the after report,
    whether or not it has a problem, and then exactly one section for each
    category that has an audit scoring below 1, in the order of the
    mapping; a category without such an audit gets no section.  No audit
    reference of a page that was built is filed under the name of a member
    of [Object.prototype]. *)
Theorem step_page_strip_and_sections (stepName : string)
    (lhrBefore lhrAfter : LighthouseReport.t)
    (beforeAudits afterAudits : obj Audit.t) (afterCats : obj Category.t)
    (auditDiffs : built AuditDiff.t) (categoryDiffs : built CategoryDiff.t) (html : Html) :
  LighthouseReport.audits lhrBefore = Some beforeAudits ->
  LighthouseReport.audits lhrAfter = Some afterAudits ->
  LighthouseReport.categories lhrAfter = Some afterCats ->
  generateStepHTML Number_toString Member_toString stepName lhrBefore lhrAfter
                   auditDiffs categoryDiffs = Ok html ->
  exists head back title sections,
    html = el "html" []
              [head;
               el "body" []
                  (back :: title :: renderLegend
                   :: el "div" [class "cat-summary"]
                         (map (categorySummaryCard Number_toString categoryDiffs)
                              (Object_values afterCats))
                   :: sections)]
    /\ List.length sections
       = List.length (filter (categoryHasProblem afterAudits) (Object_values afterCats))
    /\ Forall (fun s => exists attrs kids, s = el "section" attrs kids) sections
    /\ plainGroups (Object_values afterCats)
    /\ (forall cat,
          (forall ref, In ref (Category.auditRefs cat) -> inherits (groupKeyOf ref) = false) ->
          categoryHasProblem afterAudits cat = false ->
          renderCategory Number_toString Member_toString cat lhrBefore lhrAfter
                         auditDiffs categoryDiffs = Ok []).
Proof.
  intros Hb Ha Hc Hpage.
  assert (Hplain : plainGroups (Object_values afterCats)).
  { eapply generateStepHTML_plain; [exact Hc|]. now rewrite Hpage. }
  revert Hpage. unfold generateStepHTML. rewrite Hc. cbn [bind deref].
  rewrite filterM_pure with (g := categoryHasProblem afterAudits).
  2:{ intros cat Hcat.
      assert (Hok : is_ok (groupAuditRefsByGroup (Category.auditRefs cat)) = true)
        by (apply groupAuditRefsByGroup_ok; intros ref Href; exact (Hplain cat ref Hcat Href)).
      destruct (groupAuditRefsByGroup (Category.auditRefs cat)) as [groups|] eqn:Hg;
        [|discriminate Hok].
      rewrite (@hasProblems_pure lhrAfter afterAudits cat groups Ha Hg).
      unfold categoryHasProblem. now rewrite (groups_existsb _ _ Hg). }
  cbn [bind].
  destruct (mapM _ (filter (categoryHasProblem afterAudits) (Object_values afterCats)))
    as [body|] eqn:Ebody; [|discriminate].
  cbn [bind]. intros H. inversion H; subst html; clear H.
  assert (Hsec : forall cat,
             In cat (filter (categoryHasProblem afterAudits) (Object_values afterCats)) ->
             exists e,
               renderCategory Number_toString Member_toString cat lhrBefore lhrAfter
                              auditDiffs categoryDiffs
               = Ok [e]
               /\ exists attrs kids, e = el "section" attrs kids).
  { intros cat Hin. apply filter_In in Hin. destruct Hin as [Hcat Hp].
    destruct (proj2 (@renderCategory_section cat lhrBefore lhrAfter beforeAudits afterAudits
                       auditDiffs categoryDiffs Hb Ha
                       (fun ref Href => Hplain cat ref Hcat Href)) Hp)
      as (attrs & kids & Heq).
    eexists. split; [exact Heq|]. eauto. }
  destruct (@mapM_singletons Category.t
              (fun cat => renderCategory Number_toString Member_toString cat
                                         lhrBefore lhrAfter auditDiffs categoryDiffs)
              (fun s => exists attrs kids, s = el "section" attrs kids)
              (filter (categoryHasProblem afterAudits) (Object_values afterCats))
              body Hsec Ebody) as [Hlen Hall].
  eexists. eexists. eexists. exists (List.concat body).
  split; [reflexivity|]. split; [exact Hlen|]. split; [exact Hall|].
  split; [exact Hplain|].
  intros cat Hcatplain Hcat.
  now apply (proj1 (@renderCategory_section cat lhrBefore lhrAfter beforeAudits afterAudits
                      auditDiffs categoryDiffs Hb Ha Hcatplain)).
Qed.

(** ** Swapping the two sides, and the two polarities *)

Lemma binary_round_sign (m : positive) (e : Z) :
  binary_round prec emax true m e = SFopp (binary_round prec emax false m e).
Proof.
  unfold binary_round, binary_round_aux.
  destruct (shl_align m e (fexp prec emax (Zpos (digits2_pos m) + e))) as [mz ez].
  destruct (shr_fexp prec emax (Zpos mz) ez loc_Exact) as [mrs' e'].
  destruct (shr_fexp prec emax
              (round_nearest_even (shr_m mrs') (loc_of_shr_record mrs')) e' loc_Exact)
    as [mrs'' e''].
  destruct (shr_m mrs''); try reflexivity.
  destruct (Z.leb e'' (emax - prec)); reflexivity.
Qed.

Lemma binary_normalize_opp (z e : Z) :
  binary_normalize prec emax (- z) e false
  = match z with
    | Z0 => S754_zero false
    | _ => SFopp (binary_normalize prec emax z e false)
    end.
Proof.
  destruct z as [|p|p]; simpl; [reflexivity| |].
  - apply binary_round_sign.
  - rewrite binary_round_sign.
    destruct (binary_round prec emax false p e) as [s|s| |s m' e']; try destruct s; reflexivity.
Qed.

Lemma sign_of_opp (d : number) :
  num_eq (SFopp d) num_zero = num_eq d num_zero
  /\ num_lt (SFopp d) num_zero = num_gt d num_zero
  /\ num_gt (SFopp d) num_zero = num_lt d num_zero.
Proof.
  destruct d as [s|s| |s m e]; try destruct s; repeat split.
Qed.

(** The difference taken the other way round has the opposite sign. *)
Lemma num_sub_swap (x y : number) :
  num_eq (num_sub y x) num_zero = num_eq (num_sub x y) num_zero
  /\ num_lt (num_sub y x) num_zero = num_gt (num_sub x y) num_zero
  /\ num_gt (num_sub y x) num_zero = num_lt (num_sub x y) num_zero.
Proof.
  destruct x as [sx|sx| |sx mx ex], y as [sy|sy| |sy my ey];
    try (destruct sx, sy; repeat split; fail);
    try (destruct sx; repeat split; fail);
    try (destruct sy; repeat split; fail);
    try (repeat split; fail).
  unfold num_sub, SFsub. rewrite (Z.min_comm ey ex).
  set (a := cond_Zopp sx (Zpos (fst (shl_align mx ex (Z.min ex ey))))).
  set (b := cond_Zopp sy (Zpos (fst (shl_align my ey (Z.min ex ey))))).
  replace (b - a)%Z with (- (a - b))%Z by lia.
  rewrite binary_normalize_opp.
  destruct (a - b)%Z eqn:E.
  - repeat split.
  - apply sign_of_opp.
  - apply sign_of_opp.
Qed.

(** X14.  Comparing the two numbers the other way round, or classifying the
    same difference with the other polarity, gives the opposite trend
    ([equal] stays [equal]) whenever the difference is not NaN; a NaN
    difference is [worse] whichever way and mode. *)
Theorem trend_flips_on_swap_and_on_polarity (before after : number) (isScore : bool) :
  let d := compareNumbers Number_toString before after isScore in
  (comparable (Delta.diff d) = true ->
   Delta.trend (compareNumbers Number_toString after before isScore)
   = flipTrend (Delta.trend d)
   /\ Delta.trend (compareNumbers Number_toString before after (negb isScore))
      = flipTrend (Delta.trend d))
  /\ (comparable (Delta.diff d) = false ->
      Delta.trend d = worse
      /\ Delta.trend (compareNumbers Number_toString after before isScore) = worse
      /\ Delta.trend (compareNumbers Number_toString before after (negb isScore)) = worse).
Proof.
  unfold compareNumbers, comparable. cbn [Delta.diff Delta.trend].
  destruct (num_sub_swap after before) as (Heq & Hlt & Hgt).
  rewrite Heq, Hlt, Hgt.
  pose proof (num_cases (num_sub after before)) as (Hc1 & Hc2 & Hc3).
  destruct (num_eq (num_sub after before) num_zero) eqn:E0.
  - destruct (Hc1 eq_refl) as [-> ->]. split; [|discriminate].
    intros _. now destruct isScore.
  - destruct (num_lt (num_sub after before) num_zero) eqn:E1.
    + destruct (Hc3 eq_refl) as [_ ->]. split; [|discriminate].
      intros _. now destruct isScore.
    + destruct (num_gt (num_sub after before) num_zero) eqn:E2.
      * split; [|discriminate]. intros _. now destruct isScore.
      * split; [discriminate|]. intros _. now destruct isScore.
Qed.

(** ** The trend an audit is shown with *)

(** X15.  An audit the filter keeps is rendered as one list item, tinted
    with the trend of its numeric values (lower is better) when both audits
    have one, else with the trend of the delta that [auditDiffs[ref.id]]
    gives when it gives one, else as unchanged: the trend of the score delta
    is shown only for audits without numeric values. *)
Theorem shown_trend_prefers_numeric_values (ref : AuditRef.t)
    (beforeAudit afterAudit : property Audit.t) (diff : AnyDiff) :
  belowPerfect afterAudit = true ->
  let shown :=
    match numericValueOf beforeAudit, numericValueOf afterAudit with
    | Some numB, Some numA => Delta.trend (numericDelta Number_toString numB numA)
    | _, _ =>
        match diff with
        | StoredDiff d => Delta.trend (AuditDiff.delta d)
        | NumericOf n => Delta.trend n
        | NoDiff _ => equal
        end
    end in
  exists icon rest,
    renderDiffAudit Number_toString ref beforeAudit afterAudit diff
    = [el "li" [class "audit-li"; style ("background:" ++ trendBg shown ++ ";")]
          (el "span" [class "audit-icon"; style ("color:" ++ trendColor shown ++ ";")]
              [Text icon]
           :: rest)]
    /\ icon = trendIcon shown.
Proof.
  unfold belowPerfect, renderDiffAudit.
  destruct (scoreOf afterAudit) as [| |s]; rewrite ?andb_false_r; try discriminate.
  intros H. apply andb_prop in H. destruct H as [_ H].
  rewrite (num_lt_not_eq _ _ H). cbv zeta.
  destruct (numericValueOf beforeAudit) as [numB|],
           (numericValueOf afterAudit) as [numA|], diff as [d|n|[|]];
    eexists; eexists; (split; [reflexivity|]); reflexivity.
Qed.


(** ** Documents without steps *)

Lemma main_rows (before after : Document) (st : State) :
  main Number_toString Member_toString before after = (st, Ok tt) ->
  Forall2 (summaryForPair Number_toString (stepsOf before) (stepsOf after))
          (seq 0 (Nat.min (List.length (stepsOf before)) (List.length (stepsOf after))))
          (steps st).
Proof.
  unfold main.
  destruct (forLoop _ _ _) as [st1 [[]|m1]] eqn:Eloop; [|discriminate].
  apply forLoop_summaries in Eloop. destruct Eloop as (summaries & Hs & Hall).
  simpl in Hs. subst summaries.
  destruct (generateTimelineHTML Number_toString (steps st1)); [|discriminate].
  intros H. inversion H; subst st; clear H. exact Hall.
Qed.

(** X16.  A document that is a single report, bare or under [lhr], is
    compared as one unnamed step: a run on two such documents that returns
    has written [step-1.html] and [index.html], and its only row is named
    [Step 1]. *)
Theorem single_reports_compare_as_one_step (before after : Document)
    (beforeLhr afterLhr : LighthouseReport.t) :
  before = DocLhr beforeLhr \/ before = DocBare beforeLhr ->
  after = DocLhr afterLhr \/ after = DocBare afterLhr ->
  main Number_toString Member_toString before after
  = main Number_toString Member_toString (DocSteps [Step.mk None beforeLhr]) (DocSteps [Step.mk None afterLhr])
  /\ forall st,
       main Number_toString Member_toString before after = (st, Ok tt) ->
       map fst (files st) = ["step-1.html"; "index.html"]
       /\ map StepSummary.name (steps st) = ["Step 1"].
Proof.
  intros Hb Ha.
  assert (Hsb : stepsOf before = [Step.mk None beforeLhr])
    by (destruct Hb as [-> | ->]; reflexivity).
  assert (Hsa : stepsOf after = [Step.mk None afterLhr])
    by (destruct Ha as [-> | ->]; reflexivity).
  split; [destruct Hb as [-> | ->], Ha as [-> | ->]; reflexivity|].
  intros st Hrun. split.
  - pose proof (main_ok _ _ Hrun) as (pages & index & Hfiles & Hall & _).
    rewrite Hsb, Hsa in Hall. simpl in Hall.
    pose proof (@written_names _ _ 1 0 pages Hall) as Hnames.
    rewrite Hfiles, map_app, Hnames. reflexivity.
  - pose proof (main_rows _ _ Hrun) as Hall.
    rewrite Hsb, Hsa in Hall. simpl in Hall.
    inversion Hall as [|? summary ? rest Hsum Hrest]; subst.
    inversion Hrest; subst. simpl.
    destruct Hsum as (b & a & _ & Hnth & Hname & _).
    simpl in Hnth. inversion Hnth; subst a. rewrite Hname. reflexivity.
Qed.

(** X17.  When either document has an empty [steps] array, [main] builds no
    step page and raises nothing: it writes [index.html] alone, a table
    with its header row and no other row, without any link. *)
Theorem main_with_no_step (before after : Document) :
  stepsOf before = [] \/ stepsOf after = [] ->
  exists index,
    main Number_toString Member_toString before after = (mkState [] [("index.html", index)], Ok tt)
    /\ generateTimelineHTML Number_toString [] = Ok index
    /\ timelineRows Number_toString [] = []
    /\ hrefs index = [].
Proof.
  intros H. unfold main.
  assert (Hmin : Nat.min (List.length (stepsOf before)) (List.length (stepsOf after)) = 0).
  { destruct H as [-> | ->]; simpl; [reflexivity | apply Nat.min_0_r]. }
  rewrite Hmin. cbn [seq forLoop steps files].
  destruct (generateTimelineHTML_total []) as [index Hindex]. rewrite Hindex.
  exists index. split; [reflexivity|]. split; [reflexivity|]. split; [reflexivity|].
  now rewrite (hrefs_index _ Hindex).
Qed.

End Properties.

(** * Runs on the sample documents *)

(** The sample LCP audit has a value on both sides: its delta carries the
    numeric delta. *)
Lemma C3_numeric_delta_witness :
  exists d,
    auditDiffAt sampleAuditDiffs "largest-contentful-paint" = StoredDiff d
    /\ AuditDiff.numeric d =
       match Audit.numericValue lcpBefore, Audit.numericValue lcpAfter with
       | Some numB, Some numA => Some (numericDelta sampleToString numB numA)
       | _, _ => None
       end
    /\ forall n, AuditDiff.numeric d = Some n ->
         Delta.diff n = num_sub (Delta.after n) (Delta.before n)
         /\ Some (Delta.before n) = Audit.numericValue lcpBefore
         /\ Some (Delta.after n) = Audit.numericValue lcpAfter
         /\ Delta.trend n =
            if num_eq (Delta.diff n) num_zero then equal
            else if num_lt (Delta.diff n) num_zero then better else worse.
Proof.
  apply (@C3_numeric_delta_exactly_with_numeric_values sampleToString
           sampleBefore sampleAfter
           (sampleAuditsOf sampleBefore) (sampleAuditsOf sampleAfter)
           sampleAuditDiffs "largest-contentful-paint" lcpBefore lcpAfter
           (ratio 1 2) (ratio 4 5)); reflexivity.
Defined.

(** The sample payload audit has a value and no unit on either side, and its
    delta carries a numeric delta all the same. *)
Lemma C3_counterexample :
  ~ numericDeltaExactlyWithValuesAndUnits sampleToString sampleBefore sampleAfter.
Proof.
  intros H.
  specialize (H (sampleAuditsOf sampleBefore) (sampleAuditsOf sampleAfter)
                sampleAuditDiffs "total-byte-weight" weightBefore weightAfter
                (ratio 1 2) (ratio 3 5)
                eq_refl eq_refl eq_refl eq_refl eq_refl eq_refl eq_refl).
  destruct H as [H _].
  assert (Hfalse : hasNumericValueAndUnit weightBefore && hasNumericValueAndUnit weightAfter = true).
  { apply H. vm_compute. eexists. eexists. split; reflexivity. }
  discriminate Hfalse.
Qed.

(** A category scored 0.5 is checked against its threshold although its only
    audit reference has zero weight. *)
Lemma C4_counterexample :
  ~ skippedExactlyWhenAbsentOrWeightless sampleFlowStep "seo" (num_of_Z 90).
Proof.
  intros [_ H].
  assert (Hs : skipped (checkCategory "Home" (Flow.categories sampleFlowStep)
                                      ("seo", Some (num_of_Z 90))) = true).
  { apply H. right. exists weightlessScored. split; [reflexivity|].
    intros refs Hrefs. inversion Hrefs; subst refs. repeat constructor. }
  vm_compute in Hs. discriminate Hs.
Qed.

(** On the sample step the category [seo], scored 0.5, is compared with its
    threshold, and the category [pwa], which the step lacks, is skipped. *)
Lemma C4_threshold_check_witness :
  In (ExpectAtLeast "Home" "SEO" "seo" (num_mul (ratio 1 2) num_hundred) (num_of_Z 90))
     (checkCategory "Home" (Flow.categories sampleFlowStep) ("seo", Some (num_of_Z 90)))
  /\ skipped (checkCategory "Home" (Flow.categories sampleFlowStep)
                            ("pwa", Some (num_of_Z 90))) = true.
Proof.
  split.
  - destruct (@C4_threshold_check_skipped_or_performed
                "Home" (Flow.categories sampleFlowStep) "seo" (num_of_Z 90))
      as (_ & _ & Hperformed & _).
    + intros H. vm_compute in H. discriminate H.
    + destruct (Hperformed eq_refl) as (categoryData & Hcat & _ & _ & Hscore & _).
      vm_compute in Hcat. inversion Hcat; subst categoryData.
      exact (proj1 (Hscore (ratio 1 2) eq_refl)).
  - destruct (@C4_threshold_check_skipped_or_performed
                "Home" (Flow.categories sampleFlowStep) "pwa" (num_of_Z 90))
      as (_ & Hskipped & _).
    + intros _. reflexivity.
    + apply Hskipped. left. reflexivity.
Defined.

(** The category first appears in the second step: the header shows its raw
    identifier, not the title that step gives it. *)
Lemma C5_counterexample : ~ headerFromFirstDefiningStep lateCategorySteps.
Proof.
  intros H. specialize (H "performance" (or_introl eq_refl)).
  vm_compute in H. discriminate H.
Qed.

(** The sample HTTPS audit scores exactly 1. *)
Lemma C6_never_listed_witness :
  (forall beforeAudit diff,
      renderDiffAudit sampleToString (AuditRef.mk "is-on-https" None None None)
                      beforeAudit (Entry httpsAudit) diff = [])
  /\ (forall refs failedRefs,
      filterM (isFailedRef sampleAfter) refs = Ok failedRefs ->
      ~ In (AuditRef.mk "is-on-https" None None None) failedRefs)
  /\ (forall items,
      renderFailedRef sampleToString sampleBefore sampleAfter sampleAuditDiffs
                      (AuditRef.mk "is-on-https" None None None) = Ok items ->
      items = []).
Proof.
  apply (@C6_null_or_perfect_audit_never_listed sampleToString sampleBefore sampleAfter
           sampleAuditDiffs (AuditRef.mk "is-on-https" None None None) httpsAudit).
  - reflexivity.
  - right. exists num_one. split; reflexivity.
Defined.






(** The run on the sample documents: one row, whose category cell links to
    [step-0.html]. *)
Lemma C10_links_witness :
  exists pages index,
    files sampleRun = (pages ++ [("index.html", index)])%list
    /\ map fst pages = map stepFileName (seq 1 1)
    /\ List.length (steps sampleRun) = 1
    /\ generateTimelineHTML sampleToString (steps sampleRun) = Ok index
    /\ hrefs index = flat_map hrefs (timelineRows sampleToString (steps sampleRun))
    /\ (forall i step,
          nth_error (steps sampleRun) i = Some step ->
          nth_error (timelineRows sampleToString (steps sampleRun)) i
          = Some (timelineRow sampleToString (allCategoriesOf (steps sampleRun)) step i)
          /\ hrefs (timelineRow sampleToString (allCategoriesOf (steps sampleRun)) step i)
             = stepFileName (i + 1)
               :: map (fun _ => stepFileName i)
                      (filter (hasDelta step) (allCategoriesOf (steps sampleRun))))
    /\ ~ In (stepFileName 0) (map fst (files sampleRun))
    /\ forall i, stepFileName i <> stepFileName (i + 1).
Proof.
  apply (@C10_category_cells_link_one_step_behind sampleToString sampleMemberToString
           twoStepsBefore oneStepAfter sampleRun).
  vm_compute. reflexivity.
Defined.

(** The links of the index page of the sample run, and the files it wrote. *)
Example links_of_the_sample_run :
  map fst (files sampleRun) = ["step-1.html"; "index.html"]
  /\ flat_map hrefs (timelineRows sampleToString (steps sampleRun))
     = ["step-1.html"; "step-0.html"].
Proof. split; vm_compute; reflexivity. Qed.

(** White space outside ASCII is trimmed: a title made of a no-break space
    is blank, and no-break spaces around a title go. *)
Example trim_on_no_break_spaces :
  trim nbsp = EmptyString
  /\ trim (nbsp ++ " Budgets " ++ nbsp) = "Budgets"
  /\ trim "  " = EmptyString
  /\ trim " a b " = "a b".
Proof. repeat split. Qed.

(** Group names on the sample report: blank titles under [hidden] and
    [seo], titles under [metrics] and [budgets], the dictionary, an unknown
    identifier, and the name of a method every object has. *)
Example group_names_on_the_sample :
  getFriendlyGroupName "Hidden" sampleAfter = Name "Insights"
  /\ getFriendlyGroupName "hidden" sampleAfter = Name "Insights"
  /\ getFriendlyGroupName "metrics" sampleAfter = Name "Metrics"
  /\ getFriendlyGroupName "seo" sampleAfter = Name "seo"
  /\ getFriendlyGroupName "budgets" sampleAfter = Name "Budgets"
  /\ getFriendlyGroupName "diagnostics" sampleAfter = Name "Diagnostics"
  /\ getFriendlyGroupName "Other" noGroups = Name "Other"
  /\ getFriendlyGroupName "pwa" noGroups = Name "pwa"
  /\ getFriendlyGroupName "toString" sampleAfter = Name "toString"
  /\ getFriendlyGroupName "toString" noGroups = Member "toString"
  /\ getFriendlyGroupName "__proto__" noGroups = Member "__proto__".
Proof. repeat split. Qed.

(** Groups named [b], [10] and [2] are listed as [2], [10], [b]. *)
Example keys_of_numbered_groups :
  exists groups,
    groupAuditRefsByGroup numberedRefs = Ok groups
    /\ Object_keys groups = ["2"; "10"; "b"]
    /\ map (fun entry => map AuditRef.id (snd entry)) (Object_entries groups)
       = [["third"]; ["second"]; ["first"; "fourth"]].
Proof. eexists. split; [reflexivity|]. split; reflexivity. Qed.

(** A reference filed under [constructor] makes the grouping raise, and the
    step page with it. *)
Example constructor_group_raises :
  groupAuditRefsByGroup constructorRefs = TypeError
  /\ stepPageOf sampleToString sampleMemberToString 0
                (Step.mk None sampleBefore) (Step.mk None constructorAfter)
     = TypeError.
Proof. split; vm_compute; reflexivity. Qed.

(** A threshold for [constructor] on a step without such a category: the
    not-null expectation holds and the comparison, of NaN, fails. *)
Example threshold_for_an_inherited_name :
  checkCategory "Home" (Flow.categories sampleFlowStep) ("constructor", Some (num_of_Z 90))
  = [ExpectNotNull Undefined;
     LogScore "Home" "undefined" "constructor" NaN (num_of_Z 90);
     ExpectAtLeast "Home" "undefined" "constructor" NaN (num_of_Z 90)]
  /\ map expectation
         (checkCategory "Home" (Flow.categories sampleFlowStep)
                        ("constructor", Some (num_of_Z 90)))
     = [Some true; None; Some false].
Proof. split; reflexivity. Qed.

(** A delta keyed [toString] in the first step: the cell of the second
    step, which has no delta, is populated all the same. *)
Example cell_for_an_inherited_name :
  allCategoriesOf toStringSteps = ["toString"]
  /\ map (fun step => hasDelta step "toString") toStringSteps = [true; true]
  /\ exists attrs kids,
       categoryCell sampleToString (StepSummary.mk "Dashboard" emptyObject) 1 "toString"
       = el "td" attrs
            [el "a" [("href", "step-1.html"); class "cat-cell";
                     style "border-left: 8px solid #b0b0b0;"]
                (el "span" [style "color:#b0b0b0"] [Text "NaN"] :: kids)].
Proof.
  split; [reflexivity|]. split; [reflexivity|]. eexists. eexists. reflexivity.
Qed.

(** A category keyed [__proto__]: its delta becomes the prototype of
    [categoryDiffs], which has no own entry for it, and a read under the
    name of a field of the delta finds that field. *)
Example delta_stored_under_proto :
  own protoCategoryDiffs = []
  /\ (exists d, proto protoCategoryDiffs = Some d /\ CategoryDiff.title d = "Proto")
  /\ (exists d, categoryDiffAt protoCategoryDiffs "__proto__" = Entry d)
  /\ categoryDiffAt protoCategoryDiffs "title" = Other true
  /\ categoryDiffAt protoCategoryDiffs "performance" = Other false.
Proof.
  split; [reflexivity|]. split; [eexists; split; reflexivity|].
  split; [eexists; reflexivity|]. split; reflexivity.
Qed.

(** ** Deltas of the sample pair *)

(** The LCP audit of the sample rises from 0.5 to 0.8. *)
Lemma audit_score_rise_witness :
  exists d,
    auditDiffAt sampleAuditDiffs "largest-contentful-paint" = StoredDiff d
    /\ Delta.before (AuditDiff.delta d) = ratio 1 2
    /\ Delta.after (AuditDiff.delta d) = ratio 4 5
    /\ Delta.diff (AuditDiff.delta d) = num_sub (ratio 4 5) (ratio 1 2)
    /\ (num_gt (num_sub (ratio 4 5) (ratio 1 2)) num_zero = true ->
        Delta.trend (AuditDiff.delta d) = worse)
    /\ (num_lt (num_sub (ratio 4 5) (ratio 1 2)) num_zero = true ->
        Delta.trend (AuditDiff.delta d) = better)
    /\ (num_eq (num_sub (ratio 4 5) (ratio 1 2)) num_zero = true ->
        Delta.trend (AuditDiff.delta d) = equal).
Proof.
  apply (@audit_score_rise_is_stored_as_worse sampleToString sampleBefore sampleAfter
           (sampleAuditsOf sampleBefore) (sampleAuditsOf sampleAfter)
           sampleAuditDiffs "largest-contentful-paint" lcpBefore lcpAfter
           (ratio 1 2) (ratio 4 5)); reflexivity.
Defined.

Lemma auditDiffs_entries_witness :
  (forall id,
      (exists d, auditDiffAt sampleAuditDiffs id = StoredDiff d)
      <-> (exists b a sb sa,
              lookup id (sampleAuditsOf sampleBefore) = Some b
              /\ lookup id (sampleAuditsOf sampleAfter) = Some a
              /\ Audit.score b = Val sb /\ Audit.score a = Val sa))
  /\ (forall id d, auditDiffAt sampleAuditDiffs id = StoredDiff d -> AuditDiff.id d = id).
Proof.
  apply (@auditDiffs_entries sampleToString sampleBefore sampleAfter
           (sampleAuditsOf sampleBefore) (sampleAuditsOf sampleAfter) sampleAuditDiffs);
    reflexivity.
Defined.

Lemma categoryDiffs_entries_witness :
    ((exists d, categoryDiffAt sampleCategoryDiffs "performance" = Entry d)
     <-> (exists b a sb sa,
             lookup "performance" (sampleCategoriesOf sampleBefore) = Some b
             /\ lookup "performance" (sampleCategoriesOf sampleAfter) = Some a
             /\ Category.score b = Some sb /\ Category.score a = Some sa))
    /\ (forall d b a sb sa,
          categoryDiffAt sampleCategoryDiffs "performance" = Entry d ->
          lookup "performance" (sampleCategoriesOf sampleBefore) = Some b ->
          lookup "performance" (sampleCategoriesOf sampleAfter) = Some a ->
          Category.score b = Some sb -> Category.score a = Some sa ->
          CategoryDiff.title d = Category.title a
          /\ Delta.before (CategoryDiff.delta d) = sb
          /\ Delta.after (CategoryDiff.delta d) = sa
          /\ (num_gt (num_sub sa sb) num_zero = true ->
              Delta.trend (CategoryDiff.delta d) = better)
          /\ (num_lt (num_sub sa sb) num_zero = true ->
              Delta.trend (CategoryDiff.delta d) = worse)).
Proof.
  apply (@categoryDiffs_entries sampleToString sampleBefore sampleAfter
           (sampleCategoriesOf sampleBefore) (sampleCategoriesOf sampleAfter)
           sampleCategoryDiffs); reflexivity.
Defined.

(** The deltas of the sample pair: the category rises by 35.7 percent, and
    the LCP audit, whose score rises, is stored as [worse]. *)
Example deltas_of_the_sample_pair :
  categoryDiffAt sampleCategoryDiffs "performance" = Entry performanceDiff
  /\ Delta.percent (CategoryDiff.delta performanceDiff) = "35.7"
  /\ Delta.trend (CategoryDiff.delta performanceDiff) = better
  /\ exists d,
       auditDiffAt sampleAuditDiffs "largest-contentful-paint" = StoredDiff d
       /\ Delta.percent (AuditDiff.delta d) = "60.0"
       /\ Delta.trend (AuditDiff.delta d) = worse
       /\ option_map Delta.percent (AuditDiff.numeric d) = Some "-37.5"
       /\ option_map Delta.trend (AuditDiff.numeric d) = Some better.
Proof.
  split; [reflexivity|]. split; [reflexivity|]. split; [reflexivity|].
  eexists. split; [reflexivity|]. repeat split.
Qed.

(** ** Runs that raise, and the body of the sample page *)

(** The second pair of the broken run cannot be built: only [step-1.html]
    is on disk. *)
Lemma main_raises_witness :
  exists done,
    done < Nat.min (List.length (stepsOf brokenSecondBefore))
                   (List.length (stepsOf twoStepsAfter))
    /\ Forall2 (writtenForPair sampleToString sampleMemberToString
                               (stepsOf brokenSecondBefore) (stepsOf twoStepsAfter))
               (seq 0 done) (files brokenRun)
    /\ map fst (files brokenRun) = map stepFileName (seq 1 done)
    /\ ~ In "index.html" (map fst (files brokenRun))
    /\ exists beforeStep afterStep,
         nth_error (stepsOf brokenSecondBefore) done = Some beforeStep
         /\ nth_error (stepsOf twoStepsAfter) done = Some afterStep
         /\ is_ok (stepPageOf sampleToString sampleMemberToString done beforeStep afterStep)
            = false.
Proof.
  apply (@main_raises_at_first_failing_pair sampleToString sampleMemberToString
           brokenSecondBefore twoStepsAfter brokenRun "TypeError").
  vm_compute. reflexivity.
Defined.

Example files_of_the_broken_run :
  map fst (files brokenRun) = ["step-1.html"].
Proof. vm_compute. reflexivity. Qed.

Lemma step_page_witness :
  exists head back title sections,
    sampleStepPage
    = el "html" []
         [head;
          el "body" []
             (back :: title :: renderLegend
              :: el "div" [class "cat-summary"]
                    (map (categorySummaryCard sampleToString sampleCategoryDiffs)
                         (Object_values (sampleCategoriesOf sampleAfter)))
              :: sections)]
    /\ List.length sections
       = List.length (filter (categoryHasProblem (sampleAuditsOf sampleAfter))
                             (Object_values (sampleCategoriesOf sampleAfter)))
    /\ Forall (fun s => exists attrs kids, s = el "section" attrs kids) sections
    /\ plainGroups (Object_values (sampleCategoriesOf sampleAfter))
    /\ (forall cat,
          (forall ref, In ref (Category.auditRefs cat) -> inherits (groupKeyOf ref) = false) ->
          categoryHasProblem (sampleAuditsOf sampleAfter) cat = false ->
          renderCategory sampleToString sampleMemberToString cat sampleBefore sampleAfter
                         sampleAuditDiffs sampleCategoryDiffs = Ok []).
Proof.
  apply (@step_page_strip_and_sections sampleToString sampleMemberToString "Step 1: Home"
           sampleBefore sampleAfter
           (sampleAuditsOf sampleBefore) (sampleAuditsOf sampleAfter)
           (sampleCategoriesOf sampleAfter)
           sampleAuditDiffs sampleCategoryDiffs sampleStepPage);
    reflexivity.
Defined.

(** Against a before report that knows no audit, a group made of the sample
    references counts two of them and lists no item. *)
Lemma group_count_witness :
  (problemRefs (sampleAuditsOf sampleAfter) sampleRefs = [] ->
   renderGroup sampleToString sampleMemberToString unrelatedBefore sampleAfter emptyObject
               ("metrics", sampleRefs) = Ok [])
  /\ (problemRefs (sampleAuditsOf sampleAfter) sampleRefs <> [] ->
      exists items,
        renderGroup sampleToString sampleMemberToString unrelatedBefore sampleAfter
                    emptyObject ("metrics", sampleRefs)
        = Ok [el "div" [class "audit-section"]
                 [el "h3" []
                     [Text (nameText sampleMemberToString
                                     (getFriendlyGroupName "metrics" sampleAfter));
                      el "span" [class "count"]
                         [Text ("("
                                ++ nat_digits
                                     (List.length
                                        (problemRefs (sampleAuditsOf sampleAfter) sampleRefs))
                                ++ ")")]];
                  el "ul" [class "audit-list"] (auditHeaderRow :: items)]]
        /\ List.length items
           = List.length (filter (hasBeforeAudit [])
                                 (problemRefs (sampleAuditsOf sampleAfter) sampleRefs))
        /\ List.length items
           <= List.length (problemRefs (sampleAuditsOf sampleAfter) sampleRefs)
        /\ Forall (fun item => exists attrs kids, item = el "li" attrs kids) items)
  /\ (forall ref,
        hasBeforeAudit [] ref
        = match lookup (AuditRef.id ref) (@nil (string * Audit.t)) with
          | Some _ => true
          | None => inherits (AuditRef.id ref)
          end)
  /\ hasBeforeAudit [] (AuditRef.mk "toString" None None None) = true
  /\ hasBeforeAudit [] (AuditRef.mk "is-on-https" None None None) = false.
Proof.
  apply (@group_count_and_items sampleToString sampleMemberToString
           unrelatedBefore sampleAfter
           [] (sampleAuditsOf sampleAfter) emptyObject "metrics" sampleRefs); reflexivity.
Defined.

(** The count of that group is 2 and its list has the header row alone. *)
Example count_exceeds_items :
  exists heading,
    renderGroup sampleToString sampleMemberToString unrelatedBefore sampleAfter emptyObject
                ("metrics", sampleRefs)
    = Ok [el "div" [class "audit-section"]
             [el "h3" [] [heading; el "span" [class "count"] [Text "(2)"]];
              el "ul" [class "audit-list"] [auditHeaderRow]]].
Proof. eexists. vm_compute. reflexivity. Qed.

(** An audit named [toString] that the before report lacks is listed all the
    same: the read of the before report finds the inherited method. *)
Example item_for_an_inherited_name :
  hasBeforeAudit [] (AuditRef.mk "toString" None None None) = true
  /\ exists items,
       renderFailedRef sampleToString unrelatedBefore toStringAfter emptyObject
                       (AuditRef.mk "toString" None None None) = Ok items
       /\ List.length items = 1.
Proof. split; [reflexivity|]. eexists. split; vm_compute; reflexivity. Qed.

Lemma main_index_rows_witness :
  Forall2 (summaryForPair sampleToString (stepsOf twoStepsBefore) (stepsOf oneStepAfter))
          (seq 0 (Nat.min (List.length (stepsOf twoStepsBefore))
                          (List.length (stepsOf oneStepAfter))))
          (steps sampleRun)
  /\ forall i summary,
       nth_error (steps sampleRun) i = Some summary ->
       StepSummary.name summary <> EmptyString
       /\ str_or (StepSummary.name summary) ("Step " ++ nat_digits i)
          = StepSummary.name summary.
Proof.
  apply (@main_index_rows sampleToString sampleMemberToString
           twoStepsBefore oneStepAfter sampleRun).
  vm_compute. reflexivity.
Defined.

(** The LCP audit has numeric values on both sides: it is shown with their
    trend, whatever its score delta says. *)
Lemma shown_trend_witness :
  exists icon rest,
    renderDiffAudit sampleToString
                    (AuditRef.mk "largest-contentful-paint" (Some "metrics") (Some "LCP") None)
                    (Entry lcpBefore) (Entry lcpAfter)
                    (auditDiffAt sampleAuditDiffs "largest-contentful-paint")
    = [el "li"
          [class "audit-li";
           style ("background:"
                  ++ trendBg (Delta.trend (numericDelta sampleToString
                                                        (num_of_Z 4000) (num_of_Z 2500)))
                  ++ ";")]
          (el "span"
              [class "audit-icon";
               style ("color:"
                      ++ trendColor (Delta.trend (numericDelta sampleToString
                                                               (num_of_Z 4000) (num_of_Z 2500)))
                      ++ ";")]
              [Text icon]
           :: rest)]
    /\ icon = trendIcon (Delta.trend (numericDelta sampleToString
                                                   (num_of_Z 4000) (num_of_Z 2500))).
Proof.
  apply (@shown_trend_prefers_numeric_values sampleToString
           (AuditRef.mk "largest-contentful-paint" (Some "metrics") (Some "LCP") None)
           (Entry lcpBefore) (Entry lcpAfter)
           (auditDiffAt sampleAuditDiffs "largest-contentful-paint")).
  reflexivity.
Defined.

Lemma single_reports_witness :
  main sampleToString sampleMemberToString (DocLhr sampleBefore) (DocBare sampleAfter)
  = main sampleToString sampleMemberToString
         (DocSteps [Step.mk None sampleBefore]) (DocSteps [Step.mk None sampleAfter])
  /\ forall st,
       main sampleToString sampleMemberToString (DocLhr sampleBefore) (DocBare sampleAfter)
       = (st, Ok tt) ->
       map fst (files st) = ["step-1.html"; "index.html"]
       /\ map StepSummary.name (steps st) = ["Step 1"].
Proof.
  apply (@single_reports_compare_as_one_step sampleToString sampleMemberToString
           (DocLhr sampleBefore) (DocBare sampleAfter) sampleBefore sampleAfter).
  - left. reflexivity.
  - right. reflexivity.
Defined.

Lemma main_with_no_step_witness :
  exists index,
    main sampleToString sampleMemberToString (DocSteps []) twoStepsAfter
    = (mkState [] [("index.html", index)], Ok tt)
    /\ generateTimelineHTML sampleToString [] = Ok index
    /\ timelineRows sampleToString [] = []
    /\ hrefs index = [].
Proof.
  apply (@main_with_no_step sampleToString sampleMemberToString (DocSteps []) twoStepsAfter).
  left. reflexivity.
Defined.

(** Two single reports, one under [lhr] and one bare. *)
Example files_of_the_single_run :
  map fst (files singleRun) = ["step-1.html"; "index.html"]
  /\ map StepSummary.name (steps singleRun) = ["Step 1"].
Proof. split; vm_compute; reflexivity. Qed.
